(** * ContentRecords plugin: tree model, bind index, resolver, record store

    A shallow embedding of the ContentRecords plugin of hyperbricks-plugins
    (package main, the file that defines [ContentRecordsPlugin]) and the
    properties of its template tree, bind index, view/action resolver,
    SQLite record store and inline-edit handler.

    Conventions of the embedding.
    - Go strings are byte strings ([string] of the standard library).  The
      library functions [strings.TrimSpace], [strings.ToLower] and
      [strings.EqualFold] are modelled on the ASCII range.
    - A Go [map[string]interface{}] is an association list; the order of the
      list stands for the (unspecified) iteration order of the Go map, and a
      lookup returns the first entry of a key.
    - The in-place updates of [setAtPath] are modelled by returning the new
      tree; the template is assumed to be a tree (no sub-map is shared
      between two positions).
    - [int64] record ids are integers of [Z]; the program performs no
      arithmetic on them.  SQLite computes the next id of the AUTOINCREMENT
      column, and refuses the INSERT once the largest [int64] was used.
    - The SQLite store is modelled by its two tables and the counter of the
      AUTOINCREMENT column; a statement fails on a constraint violation or
      when the ids are used up (I/O failures of the engine are not
      modelled).  [CURRENT_TIMESTAMP] is the argument [now] of the
      functions that write.
    - A function that writes runs one transaction.  The model follows the
      variable [err] that the deferred function of each of them tests: a
      failing call rolls its transaction back when that variable holds the
      error, and otherwise returns with the transaction open, which
      [TxOpen] of the [failure] records.  The tables a call returns are the
      committed ones.
    - A call is modelled on a database that no other transaction holds.
      SQLite keeps the write lock of a transaction that is left open, so
      that later writes fail with "database is locked"; what calls do under
      that lock is not modelled, and no property below is about a call that
      follows one with [TxOpen].
    - [collectBinds] and [hasBoundaryPlugin] recurse into the normalization
      of an interface-keyed map, which is no sub-term of the map; their
      recursion is bounded by a fuel, set to the height of the value, and
      shown to be enough.
    - Of the HTTP request and the context the handler reads, the model
      keeps what the handler observes: the method, the content type, the
      decoded payload, the inputs by key, and the outcome of an upload.
    - [collectFlaggedBindKeysInto] and [filterNodeByFlag] are bounded by a
      fuel in the same way as [collectBinds].
    - The two built-in listings are modelled on the table [records]; a
      query of the configuration is run by the parameter [runQuery].
    - Where a loop ranges over a Go map and its order can matter, the order
      is a parameter ([entries] of [fillInstance], [rangeFields]); the
      properties hold for every order.
    - [applyInlineAttributes] is a parameter of [buildList]. *)

From Stdlib Require Import ZArith List Ascii String Bool Lia DecimalString DecimalPos.
From stdpp Require Import base option list gmap strings fin_maps sorting.

Import ListNotations.
Local Open Scope string_scope.
Local Open Scope list_scope.

(** ** Strings: the functions of package [strings] the plugin uses *)

Module Str.

(** ASCII white space as [unicode.IsSpace] sees it: tab, line feed,
    vertical tab, form feed, carriage return and space. *)
Definition isSpace (c : ascii) : bool :=
  let n := nat_of_ascii c in
  ((9 <=? n)%nat && (n <=? 13)%nat) || (n =? 32)%nat.

Fixpoint TrimLeft (s : string) : string :=
  match s with
  | EmptyString => EmptyString
  | String c r => if isSpace c then TrimLeft r else s
  end.

Fixpoint TrimRight (s : string) : string :=
  match s with
  | EmptyString => EmptyString
  | String c r =>
      match TrimRight r with
      | EmptyString => if isSpace c then EmptyString else String c EmptyString
      | r' => String c r'
      end
  end.

(** [strings.TrimSpace] *)
Definition TrimSpace (s : string) : string := TrimRight (TrimLeft s).

Definition lowerAscii (c : ascii) : ascii :=
  let n := nat_of_ascii c in
  if ((65 <=? n)%nat && (n <=? 90)%nat) then ascii_of_nat (n + 32) else c.

(** [strings.ToLower] *)
Fixpoint ToLower (s : string) : string :=
  match s with
  | EmptyString => EmptyString
  | String c r => String (lowerAscii c) (ToLower r)
  end.

(** [strings.EqualFold] *)
Definition EqualFold (s t : string) : bool := String.eqb (ToLower s) (ToLower t).

(** [strings.HasPrefix] *)
Definition HasPrefix (s p : string) : bool := String.prefix p s.

(** [strings.Contains] *)
Fixpoint Contains (s sub : string) : bool :=
  String.prefix sub s ||
  match s with
  | EmptyString => false
  | String _ r => Contains r sub
  end.

(** [strings.Split(s, ".")]: the segments between the dots, one more than
    there are dots; the empty string gives one empty segment. *)
Fixpoint SplitDot (s : string) : list string :=
  match s with
  | EmptyString => [EmptyString]
  | String c r =>
      if Ascii.eqb c "."%char then EmptyString :: SplitDot r
      else match SplitDot r with
           | h :: t => String c h :: t
           | [] => [String c EmptyString]
           end
  end.

Definition isDigit (c : ascii) : bool :=
  let n := nat_of_ascii c in (48 <=? n)%nat && (n <=? 57)%nat.

Fixpoint digits (s : string) (acc : Z) : option Z :=
  match s with
  | EmptyString => Some acc
  | String c r =>
      if isDigit c then digits r (10 * acc + Z.of_nat (nat_of_ascii c - 48))%Z
      else None
  end.

(** [strconv.ParseInt(s, 10, 64)]: an optional sign, then one or more
    decimal digits, and the value must fit 64 bits.  [None] is the error. *)
Definition ParseInt (s : string) : option Z :=
  let signed (neg : bool) (r : string) :=
    match r with
    | EmptyString => None
    | _ =>
        match digits r 0%Z with
        | Some v =>
            let v := if neg then (- v)%Z else v in
            if ((- 2 ^ 63 <=? v) && (v <=? 2 ^ 63 - 1))%Z then Some v else None
        | None => None
        end
    end in
  match s with
  | String "+"%char r => signed false r
  | String "-"%char r => signed true r
  | _ => signed false s
  end.

(** [strconv.Atoi] on a 64-bit platform. *)
Definition Atoi (s : string) : option Z := ParseInt s.

End Str.

(** ** The template tree *)

(** A key of a [map[interface{}]interface{}]: a string, or a value of another
    dynamic type, of which the program only ever observes the [%v]
    rendering. *)
Inductive ikey : Type :=
| KString (s : string)
| KOther (shown : string).

Definition ikey_eqb (a b : ikey) : bool :=
  match a, b with
  | KString s, KString t => String.eqb s t
  | KOther s, KOther t => String.eqb s t
  | _, _ => false
  end.

(** The dynamic values ([interface{}]) a decoded template holds.  A
    [float64] is the finite binary number [m * 2 ^ e]. *)
#[warnings="-register-all"]
Inductive node : Type :=
| VNil
| VBool (b : bool)
| VString (s : string)
| VInt (z : Z)
| VFloat (m e : Z)
| VMap (entries : list (string * node))
| VIMap (entries : list (ikey * node))
| VList (items : list node).

(** [map[string]interface{}] *)
Abbreviation smap := (list (string * node)).
(** [map[interface{}]interface{}] *)
Abbreviation imap := (list (ikey * node)).

(** [m[k]] with the comma-ok form: the first entry of the key. *)
Fixpoint lookupKey (k : string) (m : smap) : option node :=
  match m with
  | [] => None
  | (k', v) :: r => if String.eqb k k' then Some v else lookupKey k r
  end.

(** [m[k] = v]: overwrite the entry of the key, or add one. *)
Fixpoint setKey (k : string) (v : node) (m : smap) : smap :=
  match m with
  | [] => [(k, v)]
  | (k', v') :: r => if String.eqb k k' then (k, v) :: r else (k', v') :: setKey k v r
  end.

Fixpoint lookupIKey (k : ikey) (m : imap) : option node :=
  match m with
  | [] => None
  | (k', v) :: r => if ikey_eqb k k' then Some v else lookupIKey k r
  end.

Fixpoint setIKey (k : ikey) (v : node) (m : imap) : imap :=
  match m with
  | [] => [(k, v)]
  | (k', v') :: r => if ikey_eqb k k' then (k, v) :: r else (k', v') :: setIKey k v r
  end.

(** The index of a sequence a path segment names: [strconv.Atoi] succeeded
    and [0 <= idx < len(node)]. *)
Definition listIndex (part : string) (len : nat) : option nat :=
  match Str.Atoi part with
  | Some idx => if ((idx <? 0) || (Z.of_nat len <=? idx))%Z then None else Some (Z.to_nat idx)
  | None => None
  end.

(** *** getAtPath *)

(** The loop of [getAtPath] over the remaining segments. *)
Fixpoint getWalk (current : node) (parts : list string) : node * bool :=
  match parts with
  | [] => (current, true)
  | part :: rest =>
      let part := Str.TrimSpace part in
      if String.eqb part "" then getWalk current rest
      else
        match current with
        | VMap m =>
            match lookupKey part m with
            | Some next => getWalk next rest
            | None => (VNil, false)
            end
        | VIMap m =>
            match lookupIKey (KString part) m with
            | Some next => getWalk next rest
            | None => (VNil, false)
            end
        | VList l =>
            match listIndex part (length l) with
            | Some idx =>
                match nth_error l idx with
                | Some next => getWalk next rest
                | None => (VNil, false)
                end
            | None => (VNil, false)
            end
        | _ => (VNil, false)
        end
  end.

Definition getAtPath (root : smap) (path : string) : node * bool :=
  getWalk (VMap root) (Str.SplitDot path).

(** *** setAtPath *)

(** [l[idx] = v] for an index in range. *)
Fixpoint setNth (idx : nat) (v : node) (l : list node) : list node :=
  match l, idx with
  | [], _ => []
  | _ :: r, O => v :: r
  | x :: r, S i => x :: setNth i v r
  end.

(** The loop of [setAtPath] over the remaining segments.  The segment is the
    last one when no segment follows it ([i == len(parts)-1]).  The result is
    the node [current] after the in-place update, and the returned flag. *)
Fixpoint setWalk (current : node) (parts : list string) (value : node) : node * bool :=
  match parts with
  | [] => (current, false)
  | part :: rest =>
      let part := Str.TrimSpace part in
      if String.eqb part "" then setWalk current rest value
      else
        let isLast := match rest with [] => true | _ => false end in
        match current with
        | VMap m =>
            if isLast then (VMap (setKey part value m), true)
            else
              match lookupKey part m with
              | Some next =>
                  let (next', ok) := setWalk next rest value in
                  (VMap (setKey part next' m), ok)
              | None => (current, false)
              end
        | VIMap m =>
            if isLast then (VIMap (setIKey (KString part) value m), true)
            else
              match lookupIKey (KString part) m with
              | Some next =>
                  let (next', ok) := setWalk next rest value in
                  (VIMap (setIKey (KString part) next' m), ok)
              | None => (current, false)
              end
        | VList l =>
            match listIndex part (length l) with
            | Some idx =>
                if isLast then (VList (setNth idx value l), true)
                else
                  match nth_error l idx with
                  | Some next =>
                      let (next', ok) := setWalk next rest value in
                      (VList (setNth idx next' l), ok)
                  | None => (current, false)
                  end
            | None => (current, false)
            end
        | _ => (current, false)
        end
  end.

(** [setAtPath root path value]: the root after the call, and the result. *)
Definition setAtPath (root : smap) (path : string) (value : node) : smap * bool :=
  match setWalk (VMap root) (Str.SplitDot path) value with
  | (VMap root', ok) => (root', ok)
  | (_, ok) => (root, ok)
  end.

(** A path all of whose segments are empty once trimmed. *)
Definition onlyEmptySegments (path : string) : bool :=
  forallb (fun s => String.eqb (Str.TrimSpace s) "") (Str.SplitDot path).

(** The value takes a value under the segment, as the last step of
    [setAtPath]: a map under any key, a sequence under an index in range. *)
Definition settable (current : node) (part : string) : bool :=
  match current with
  | VMap _ | VIMap _ => true
  | VList l =>
      match listIndex part (length l) with
      | Some _ => true
      | None => false
      end
  | _ => false
  end.

(** *** Normalization of [map[interface{}]interface{}] *)

(** The string a key of a [map[interface{}]interface{}] becomes: itself, or
    [fmt.Sprintf("%v", k)]. *)
Definition keyString (k : ikey) : string :=
  match k with
  | KString s => s
  | KOther shown => shown
  end.

(** The [switch child := v.(type)] that [normalizeInterfaceMap] and
    [normalizeSlice] share: a string-keyed map is kept as it is, an
    interface-keyed map and a slice are normalized. *)
Fixpoint normalizeChild (v : node) : node :=
  match v with
  | VMap m => VMap m
  | VIMap im =>
      VMap (fold_left
              (fun result kc => setKey (keyString (fst kc)) (normalizeChild (snd kc)) result)
              im [])
  | VList l => VList (map normalizeChild l)
  | other => other
  end.

Definition normalizeInterfaceMap (value : imap) : smap :=
  fold_left
    (fun result kc => setKey (keyString (fst kc)) (normalizeChild (snd kc)) result)
    value [].

Definition normalizeSlice (values : list node) : list node := map normalizeChild values.

(** [normalizeToStringMap]: [None] is the [false] of the comma-ok result. *)
Definition normalizeToStringMap (value : node) : option smap :=
  match value with
  | VMap v => Some v
  | VIMap v => Some (normalizeInterfaceMap v)
  | _ => None
  end.

(** ** Flags and boundaries *)

Definition parseBoolFlag (value : string) : bool :=
  let v := Str.ToLower (Str.TrimSpace value) in
  String.eqb v "1" || String.eqb v "true" || String.eqb v "yes"
  || String.eqb v "on" || String.eqb v "y".

Definition parseBoolish (value : node) : bool :=
  match value with
  | VBool v => v
  | VString v => parseBoolFlag v
  | VInt v => negb (Z.eqb v 0)
  | VFloat m _ => negb (Z.eqb m 0)
  | _ => false
  end.

(** [m[k]] as a value: [nil] when the key is missing. *)
Definition index (m : smap) (k : string) : node :=
  match lookupKey k m with
  | Some v => v
  | None => VNil
  end.

(** [s, _ := v.(string)]: the empty string when [v] is not a string. *)
Definition asString (v : node) : string :=
  match v with
  | VString s => s
  | _ => ""
  end.

Definition isBoundaryPlugin (node : smap) : bool :=
  let nodeType := asString (index node "@type") in
  if negb (Str.EqualFold (Str.TrimSpace nodeType) "<PLUGIN>") then false
  else
    let pluginName := asString (index node "plugin") in
    if Str.Contains (Str.ToLower pluginName) "contentrecords" then true
    else
      match lookupKey "data" node with
      | None => false
      | Some (VMap data) =>
          parseBoolish (index data "content_record_boundary")
          || parseBoolish (index data "boundary")
      | Some (VIMap data) =>
          let normalized := normalizeInterfaceMap data in
          parseBoolish (index normalized "content_record_boundary")
          || parseBoolish (index normalized "boundary")
      | Some _ => false
      end.

(** The nesting height of a value.  An interface-keyed map counts two
    levels, one of them for its normalization, so that the normalized map is
    strictly lower than the map it comes from. *)
Fixpoint height (n : node) : nat :=
  match n with
  | VMap m => S (list_max (map (fun kc => height (snd kc)) m))
  | VIMap m => S (S (list_max (map (fun kc => height (snd kc)) m)))
  | VList l => S (list_max (map height l))
  | _ => O
  end.

(** [hasBoundaryPlugin], with the recursion depth bounded by [fuel]. *)
Fixpoint hasBoundaryPluginFuel (fuel : nat) (n : node) : bool :=
  match fuel with
  | O => false
  | S fuel' =>
      match n with
      | VMap typed =>
          if isBoundaryPlugin typed then true
          else
            existsb
              (fun kc =>
                 if Str.HasPrefix (fst kc) "@" then false
                 else hasBoundaryPluginFuel fuel' (snd kc))
              typed
      | VIMap typed =>
          let normalized := normalizeInterfaceMap typed in
          hasBoundaryPluginFuel fuel' (VMap normalized)
      | VList typed => existsb (hasBoundaryPluginFuel fuel') typed
      | _ => false
      end
  end.

(** [hasBoundaryPlugin]: the recursion is given the height of the value,
    which it never exceeds (see [hasBoundaryPluginFuel_enough]). *)
Definition hasBoundaryPlugin (n : node) : bool :=
  hasBoundaryPluginFuel (S (height n)) n.

(** ** The bind index *)

Record bindTarget : Type := { Path : string }.

(** The [@bind] pair a node declares: [field] and [path], both trimmed and
    both non-empty. *)
Definition ownBind (node : smap) : option (string * string) :=
  match lookupKey "@bind" node with
  | Some (VMap bindMap) =>
      let field := Str.TrimSpace (asString (index bindMap "field")) in
      let bindPath := Str.TrimSpace (asString (index bindMap "path")) in
      if negb (String.eqb field "") && negb (String.eqb bindPath "")
      then Some (field, bindPath)
      else None
  | _ => None
  end.

(** [path + "." + rel], or [rel] at the root. *)
Definition joinPath (path rel : string) : string :=
  if String.eqb path "" then rel else path ++ "." ++ rel.

(** The first statement of [collectBinds]: register the node's own bind
    unless the field is already bound. *)
Definition collectOwnBind (node : smap) (path : string)
    (binds : gmap string bindTarget) : gmap string bindTarget :=
  match ownBind node with
  | Some (field, bindPath) =>
      match binds !! field with
      | Some _ => binds
      | None => <[field := {| Path := joinPath path bindPath |}]> binds
      end
  | None => binds
  end.

(** The body of the [for key, value := range node] loop of [collectBinds]:
    a key with the [@] prefix is skipped, a child that is a map is entered
    (an interface-keyed one after normalization), any other child is left
    alone.  [recurse] is the recursive call. *)
Definition collectChild
    (recurse : smap -> string -> gmap string bindTarget -> gmap string bindTarget)
    (path : string) (binds : gmap string bindTarget) (kv : string * node)
    : gmap string bindTarget :=
  let key := fst kv in
  if Str.HasPrefix key "@" then binds
  else
    match snd kv with
    | VMap child => recurse child (joinPath path key) binds
    | VIMap childMap =>
        let normalized := normalizeInterfaceMap childMap in
        recurse normalized (joinPath path key) binds
    | _ => binds
    end.

(** [collectBinds], with the recursion depth bounded by [fuel].  The map
    [binds] the Go function fills in place is threaded through. *)
Fixpoint collectBindsFuel (fuel : nat) (node : smap) (path : string)
    (binds : gmap string bindTarget) : gmap string bindTarget :=
  match fuel with
  | O => binds
  | S fuel' =>
      let binds := collectOwnBind node path binds in
      if isBoundaryPlugin node then binds
      else fold_left (collectChild (collectBindsFuel fuel') path) node binds
  end.

(** [collectBinds]: the recursion is given the height of the node, which it
    never exceeds (see [collectBindsFuel_enough]). *)
Definition collectBinds (node : smap) (path : string)
    (binds : gmap string bindTarget) : gmap string bindTarget :=
  collectBindsFuel (S (height (VMap node))) node path binds.

(** *** Addresses in a template

    An address is the list of child positions that leads from a value to
    one of its sub-values: the position of an entry in a map, of an item in
    a sequence.  An interface-keyed map is addressed through its
    normalization, the form in which the traversals see it. *)

Definition childAt (n : node) (i : nat) : option node :=
  match n with
  | VMap m => snd <$> nth_error m i
  | VIMap im => snd <$> nth_error (normalizeInterfaceMap im) i
  | VList l => nth_error l i
  | _ => None
  end.

Fixpoint nodeAt (n : node) (addr : list nat) : option node :=
  match addr with
  | [] => Some n
  | i :: rest =>
      match childAt n i with
      | Some c => nodeAt c rest
      | None => None
      end
  end.

(** The value is a map that is a boundary. *)
Definition isBoundaryNode (n : node) : bool :=
  match normalizeToStringMap n with
  | Some m => isBoundaryPlugin m
  | None => false
  end.

(** The value is a map that declares a bind of the field. *)
Definition declaresBind (n : node) (field : string) : bool :=
  match normalizeToStringMap n with
  | Some m =>
      match ownBind m with
      | Some (f, _) => String.eqb f field
      | None => false
      end
  | None => false
  end.

(** The map at the address declares a bind of the field. *)
Definition declaresAt (root : node) (addr : list nat) (field : string) : bool :=
  match nodeAt root addr with
  | Some n => declaresBind n field
  | None => false
  end.

(** The address lies strictly inside a boundary: a value strictly above it
    is a boundary. *)
Fixpoint insideBoundary (n : node) (addr : list nat) : bool :=
  match addr with
  | [] => false
  | i :: rest =>
      isBoundaryNode n ||
      match childAt n i with
      | Some c => insideBoundary c rest
      | None => false
      end
  end.

(** The address lies on or below an item of a sequence: a value strictly
    above it is a sequence. *)
Fixpoint belowList (n : node) (addr : list nat) : bool :=
  match addr with
  | [] => false
  | i :: rest =>
      match n with
      | VList _ => true
      | _ =>
          match childAt n i with
          | Some c => belowList c rest
          | None => false
          end
      end
  end.

(** The value at the address is a boundary, and the address is one
    [hasBoundaryPlugin] searches: it leads through entries of maps whose key
    has no [@] prefix and through items of sequences. *)
Fixpoint boundaryAt (n : node) (addr : list nat) : bool :=
  match addr with
  | [] => isBoundaryNode n
  | i :: rest =>
      match n with
      | VMap m =>
          match nth_error m i with
          | Some (key, c) => negb (Str.HasPrefix key "@") && boundaryAt c rest
          | None => false
          end
      | VIMap im =>
          match nth_error (normalizeInterfaceMap im) i with
          | Some (key, c) => negb (Str.HasPrefix key "@") && boundaryAt c rest
          | None => false
          end
      | VList l =>
          match nth_error l i with
          | Some c => boundaryAt c rest
          | None => false
          end
      | _ => false
      end
  end.

(** The address is one [collectBinds] reaches: every value strictly above
    it is a map that is no boundary, entered through a key without the [@]
    prefix, and the value at the address is a map. *)
Fixpoint reachedAt (n : node) (addr : list nat) : bool :=
  match normalizeToStringMap n with
  | None => false
  | Some m =>
      match addr with
      | [] => true
      | i :: rest =>
          negb (isBoundaryPlugin m) &&
          match nth_error m i with
          | Some (key, c) => negb (Str.HasPrefix key "@") && reachedAt c rest
          | None => false
          end
      end
  end.

(** ** Configuration and the view/action resolver *)

(** The fields of the plugin configuration ([Fields]) the modelled functions
    read. *)
Record Fields : Type := {
  Template : node;
  View : string;
  Action : string;
  Mode : string;
  Inline : bool;
  InlineParam : string;
  Seed : bool;
  RecordParam : string;
  UploadDir : string;
  Upload : string
}.

Definition resolveViewAction (fields : Fields) : string * string :=
  let view := Str.ToLower (Str.TrimSpace (View fields)) in
  let action := Str.ToLower (Str.TrimSpace (Action fields)) in
  let mode := Str.ToLower (Str.TrimSpace (Mode fields)) in
  let '(view, action) :=
    if String.eqb view "" && String.eqb action "" && negb (String.eqb mode "") then
      if String.eqb mode "render" then ("list", "render")
      else if String.eqb mode "cms" then ("list", "edit")
      else if String.eqb mode "edit" then ("single", "edit")
      else (view, action)
    else (view, action) in
  let view := if String.eqb view "" then "list" else view in
  let action := if String.eqb action "" then "render" else action in
  (view, action).

(** A configuration string as the resolver compares it: trimmed and in
    lower case. *)
Definition folded (s : string) : string := Str.ToLower (Str.TrimSpace s).

(** The rendering routine [Render] hands the request to. *)
Inductive routine : Type :=
| RenderListEdit
| RenderSingleEdit
| RenderListRender
| RenderSingleRender
| UnknownViewAction.

(** The [switch] of [Render] on the resolved pair (after the configuration
    was decoded). *)
Definition Render (fields : Fields) : routine :=
  let '(view, action) := resolveViewAction fields in
  if String.eqb view "list" && String.eqb action "edit" then RenderListEdit
  else if String.eqb view "single" && String.eqb action "edit" then RenderSingleEdit
  else if String.eqb view "list" && String.eqb action "render" then RenderListRender
  else if String.eqb view "single" && String.eqb action "render" then RenderSingleRender
  else UnknownViewAction.

(** The four pairs of [{list, single} x {render, edit}]. *)
Definition fourModes : list (string * string) :=
  [("list", "render"); ("list", "edit"); ("single", "render"); ("single", "edit")].

Definition knownView (v : string) : bool :=
  String.eqb v "" || String.eqb v "list" || String.eqb v "single".

Definition knownAction (a : string) : bool :=
  String.eqb a "" || String.eqb a "render" || String.eqb a "edit".

(** ** The record store *)

(** The errors the store functions return. *)
Inductive error : Type :=
| ErrRecordIDRequired   (* "record id is required" *)
| ErrBindKeyRequired    (* "bind key is required" *)
| ErrRecordNotFound     (* "record not found" *)
| ErrNoRows             (* sql.ErrNoRows *)
| ErrConstraint         (* UNIQUE constraint failed *)
| ErrFull.              (* database or disk is full *)

(** What a failing call of a function that writes returns and leaves
    behind: the error, and whether the transaction the call had begun is
    still open, that is neither committed nor rolled back. *)
Record failure : Type := {
  Err : error;
  TxOpen : bool
}.

(** A row of table [records], under its [id]. *)
Record recordRow : Type := {
  rtype : string;
  created_at : Z;
  updated_at : Z
}.

(** The database: table [records] by [id]; table [record_fields] by its
    primary key [(record_id, bind_key)], the rows of one record grouped; and
    the [sqlite_sequence] counter of the AUTOINCREMENT column. *)
Record DB : Type := {
  records : gmap Z recordRow;
  record_fields : gmap Z (gmap string string);
  sequence : Z
}.

Record record : Type := {
  ID : Z;
  Fields_ : gmap string string
}.

(** The rows of [record_fields] of one record, by [bind_key]. *)
Definition fieldRows (db : DB) (recordID : Z) : gmap string string :=
  default ∅ (record_fields db !! recordID).

(** A statement of a transaction ([tx.Exec]): it runs on the state of the
    transaction and returns its result, or fails. *)
Definition Tx (A : Type) : Type := DB -> error + (A * DB).

Definition txRet {E A} (a : A) : DB -> E + (A * DB) := fun db => inr (a, db).

(** Sequencing: the first failure ends the run. *)
Definition txBind {E A B} (t : DB -> E + (A * DB)) (k : A -> DB -> E + (B * DB))
    : DB -> E + (B * DB) :=
  fun db =>
    match t db with
    | inl e => inl e
    | inr (a, db') => k a db'
    end.

Declare Scope tx_scope.
Delimit Scope tx_scope with tx.
Notation "'exec' x <- t ;; k" := (txBind t (fun x => k))
  (at level 10, x name, t at level 99, k at level 200, only parsing) : tx_scope.

(** The body of a function between [db.Begin()] and its [return].  Beside
    the error of the failing statement it tells whether that error was
    stored in the variable [err] of the function: this is the variable the
    deferred function reads when the function returns. *)
Definition Body (A : Type) : Type := DB -> (error * bool) + (A * DB).

(** [res, err = tx.Exec(...)], and [res, err := tx.Exec(...)] in the block
    of the function, where [err] is declared already: the error is assigned
    to the [err] of the function. *)
Definition assigned {A} (t : Tx A) : Body A :=
  fun db =>
    match t db with
    | inl e => inl (e, true)
    | inr r => inr r
    end.

(** [if _, err := tx.Exec(...); err != nil { return err }]: the [err] of the
    [if] statement is a new variable, and the [err] of the function stays
    [nil]. *)
Definition shadowed {A} (t : Tx A) : Body A :=
  fun db =>
    match t db with
    | inl e => inl (e, false)
    | inr r => inr r
    end.

(** [return fmt.Errorf(...)]: the [err] of the function is [nil]. *)
Definition returned {A} (e : error) : Body A := fun _ => inl (e, false).

(** [db.Begin()], the body, and the deferred
    [if err != nil { _ = tx.Rollback() }].  When the body ends without a
    failure the function returns [tx.Commit()], and the database is the
    state of the transaction.  When a statement fails the function returns
    its error: the transaction is rolled back when the [err] of the
    function holds the error, and is left open when it does not.  The
    writes of a transaction that is not committed are not in the database,
    which in both cases is the one before the call. *)
Definition transaction {A} (body : Body A) (db : DB) : DB * (failure + A) :=
  match body db with
  | inl (e, errSet) => (db, inl {| Err := e; TxOpen := negb errSet |})
  | inr (a, db') => (db', inr a)
  end.

(** [WHERE id = ? AND type = ?] when a type is given, [WHERE id = ?]
    otherwise. *)
Definition typeMatches (contentType : string) (r : recordRow) : bool :=
  if negb (String.eqb contentType "") then String.eqb (rtype r) contentType else true.

Definition maxRowid (m : gmap Z recordRow) : Z :=
  foldr Z.max 0%Z (fst <$> map_to_list m).

(** The largest [int64], the largest rowid of SQLite. *)
Definition maxInt64 : Z := 9223372036854775807.

(** The largest id table [records] ever held: the counter SQLite keeps in
    [sqlite_sequence] for the AUTOINCREMENT column, or the largest id in the
    table. *)
Definition lastID (db : DB) : Z := Z.max (sequence db) (maxRowid (records db)).

(** [INSERT INTO records(type) VALUES(?)]; the result is [LastInsertId].
    The column [id] is AUTOINCREMENT: the new id is one more than the
    largest id the table ever held, and the statement fails once that is
    the largest rowid. *)
Definition insertRecord (now : Z) (contentType : string) : Tx Z :=
  fun db =>
    if (maxInt64 <=? lastID db)%Z then inl ErrFull
    else
      let id := (lastID db + 1)%Z in
      inr (id,
           {| records :=
                <[id := {| rtype := contentType; created_at := now; updated_at := now |}]>
                  (records db);
              record_fields := record_fields db;
              sequence := id |}).

(** [UPDATE records SET updated_at = CURRENT_TIMESTAMP WHERE id = ? [AND
    type = ?]]; the result is [RowsAffected]. *)
Definition touchRecord (now : Z) (recordID : Z) (contentType : string) : Tx nat :=
  fun db =>
    match records db !! recordID with
    | Some r =>
        if typeMatches contentType r then
          inr (1%nat,
               {| records :=
                    <[recordID := {| rtype := rtype r; created_at := created_at r;
                                     updated_at := now |}]> (records db);
                  record_fields := record_fields db;
                  sequence := sequence db |})
        else inr (O, db)
    | None => inr (O, db)
    end.

(** [DELETE FROM records WHERE id = ? [AND type = ?]] *)
Definition deleteRecordRow (recordID : Z) (contentType : string) : Tx nat :=
  fun db =>
    match records db !! recordID with
    | Some r =>
        if typeMatches contentType r then
          inr (1%nat,
               {| records := delete recordID (records db);
                  record_fields := record_fields db;
                  sequence := sequence db |})
        else inr (O, db)
    | None => inr (O, db)
    end.

(** [DELETE FROM record_fields WHERE record_id = ?] *)
Definition deleteFieldRows (recordID : Z) : Tx nat :=
  fun db =>
    inr (size (fieldRows db recordID),
         {| records := records db;
            record_fields := delete recordID (record_fields db);
            sequence := sequence db |}).

Definition putFieldRow (db : DB) (recordID : Z) (key value : string) : DB :=
  {| records := records db;
     record_fields := <[recordID := <[key := value]> (fieldRows db recordID)]> (record_fields db);
     sequence := sequence db |}.

(** [INSERT INTO record_fields(record_id, bind_key, value) VALUES(?, ?, ?)]:
    fails when the primary key is taken. *)
Definition insertFieldRow (recordID : Z) (key value : string) : Tx unit :=
  fun db =>
    match fieldRows db recordID !! key with
    | Some _ => inl ErrConstraint
    | None => inr (tt, putFieldRow db recordID key value)
    end.

(** [UPDATE record_fields SET value = ? WHERE record_id = ? AND bind_key = ?] *)
Definition updateFieldRow (recordID : Z) (key value : string) : Tx nat :=
  fun db =>
    match fieldRows db recordID !! key with
    | Some _ => inr (1%nat, putFieldRow db recordID key value)
    | None => inr (O, db)
    end.

(** [upsertFields]: one INSERT per entry of [values], in the iteration order
    of the map. *)
Fixpoint upsertEntries (recordID : Z) (entries : list (string * string)) : Tx unit :=
  match entries with
  | [] => txRet tt
  | (key, value) :: rest =>
      (exec _ <- insertFieldRow recordID key value ;; upsertEntries recordID rest)%tx
  end.

Definition upsertFields (recordID : Z) (values : gmap string string) : Tx unit :=
  upsertEntries recordID (map_to_list values).

Definition createRecord (now : Z) (db : DB) (contentType : string)
    (values : gmap string string) : DB * (failure + Z) :=
  transaction
    (exec recordID <- assigned (insertRecord now contentType) ;;
     exec _ <- shadowed (upsertFields recordID values) ;;
     txRet recordID)%tx
    db.

Definition updateRecord (now : Z) (db : DB) (recordID : Z) (contentType : string)
    (values : gmap string string) : DB * (failure + unit) :=
  transaction
    (exec _ <- shadowed (touchRecord now recordID contentType) ;;
     exec _ <- shadowed (deleteFieldRows recordID) ;;
     shadowed (upsertFields recordID values))%tx
    db.

Definition updateRecordField (now : Z) (db : DB) (recordID : Z) (contentType : string)
    (bindKey value : string) : DB * (failure + unit) :=
  if Z.eqb recordID 0 then (db, inl {| Err := ErrRecordIDRequired; TxOpen := false |})
  else if String.eqb (Str.TrimSpace bindKey) "" then
    (db, inl {| Err := ErrBindKeyRequired; TxOpen := false |})
  else
    transaction
      (exec rows <- assigned (touchRecord now recordID contentType) ;;
       if Nat.eqb rows 0 then returned ErrRecordNotFound
       else
         exec rows <- assigned (updateFieldRow recordID bindKey value) ;;
         if Nat.eqb rows 0 then shadowed (insertFieldRow recordID bindKey value)
         else txRet tt)%tx
      db.

Definition deleteRecord (db : DB) (recordID : Z) (contentType : string)
    : DB * (failure + unit) :=
  transaction
    (exec _ <- shadowed (deleteFieldRows recordID) ;;
     exec _ <- shadowed (deleteRecordRow recordID contentType) ;;
     txRet tt)%tx
    db.

(** [SELECT COUNT( * ) FROM records [WHERE type = ?]] *)
Definition countRecords (db : DB) (contentType : string) : nat :=
  if String.eqb (Str.TrimSpace contentType) "" then size (records db)
  else size (filter (fun kv => rtype (snd kv) = contentType) (records db)).

(** [SELECT bind_key, value FROM record_fields WHERE record_id = ?] *)
Definition fetchRecordFields (db : DB) (recordID : Z) : gmap string string :=
  fieldRows db recordID.

Definition fetchRecordByID (db : DB) (recordID : Z) (contentType : string)
    : error + record :=
  if Z.eqb recordID 0 then inl ErrRecordIDRequired
  else
    match records db !! recordID with
    | Some r =>
        if typeMatches contentType r
        then inr {| ID := recordID; Fields_ := fetchRecordFields db recordID |}
        else inl ErrNoRows
    | None => inl ErrNoRows
    end.

(** A record with the id exists, of the type when a type is given: the
    [WHERE] clause of the statements on [records] selects a row. *)
Definition hasRecord (db : DB) (recordID : Z) (contentType : string) : bool :=
  match records db !! recordID with
  | Some r => typeMatches contentType r
  | None => false
  end.

(** Every row of [record_fields] belongs to a row of [records]. *)
Definition noOrphans (db : DB) : Prop :=
  forall rid : Z, records db !! rid = None -> fieldRows db rid = ∅.

(** *** Seeding *)

Section Seeding.

(** [fmt.Sprintf("%v", v)] on the values of a template. *)
Variable Sprintf_v : node -> string.

Definition defaultValuesFromTemplate (template : smap)
    (binds : gmap string bindTarget) : gmap string string :=
  (fun target : bindTarget =>
     let '(v, ok) := getAtPath template (Path target) in
     if ok then Sprintf_v v else "") <$> binds.

Definition createRecordFromTemplate (now : Z) (db : DB) (contentType : string)
    (template : smap) (binds : gmap string bindTarget) : DB * (failure + Z) :=
  let values := defaultValuesFromTemplate template binds in
  createRecord now db contentType values.

Definition ensureSeed (now : Z) (db : DB) (template : smap)
    (binds : gmap string bindTarget) (contentType : string) : DB * option failure :=
  let count := countRecords db contentType in
  if (0 <? count)%nat then (db, None)
  else
    match createRecordFromTemplate now db contentType template binds with
    | (db', inl err) => (db', Some err)
    | (db', inr _) => (db', None)
    end.

End Seeding.

(** *** Sample template *)

(** A template with a bound text node, a nested ContentRecords plugin (a
    boundary) that carries a bind itself and holds one inside, and a
    sequence with a bound item. *)
Definition sampleTemplate : smap :=
  [ ("@type", VString "<TREE>");
    ("10", VMap [ ("@type", VString "<TEXT>");
                  ("value", VString "Hello World");
                  ("@bind", VMap [("field", VString "title"); ("path", VString "value")]) ]);
    ("20", VMap [ ("@type", VString "<PLUGIN>");
                  ("plugin", VString "ContentRecords@2.1.0");
                  ("@bind", VMap [("field", VString "nested"); ("path", VString "data.id")]);
                  ("data", VMap [ ("template",
                       VMap [ ("10", VMap [ ("@bind",
                           VMap [("field", VString "inner"); ("path", VString "value")]) ]) ]) ]) ]);
    ("30", VList [ VMap [ ("@bind",
                       VMap [("field", VString "item"); ("path", VString "value")]) ] ]) ].

(** A rendering of values that shows a string as it is. *)
Definition showString (v : node) : string :=
  match v with
  | VString s => s
  | _ => ""
  end.

(** *** Sample data *)

(** A store that holds the record 1 of type "article" with the fields
    [{title: "A", body: "B"}]. *)
Definition sampleDB : DB :=
  {| records := {[ 1%Z := {| rtype := "article"; created_at := 0; updated_at := 0 |} ]};
     record_fields := {[ 1%Z := <["title" := "A"]> {[ "body" := "B" ]} ]};
     sequence := 1 |}.

(** The store after [initSchema]: both tables empty. *)
Definition emptyDB : DB :=
  {| records := ∅; record_fields := ∅; sequence := 0 |}.

(** ** The inline-edit handler *)

(** [strconv.FormatInt(i, 10)] *)
Definition FormatInt (i : Z) : string := NilZero.string_of_int (Z.to_int i).

(** A value of a JSON object decoded with [UseNumber]: [nil], a string, a
    [json.Number] (its literal), a boolean, or a nested value, of which only
    the [%v] rendering is observed. *)
Inductive jvalue : Type :=
| JNull
| JString (s : string)
| JNumber (literal : string)
| JBool (b : bool)
| JOther (shown : string).

Definition getStringFromAny (value : jvalue) : string :=
  match value with
  | JNull => ""
  | JString v => v
  | JNumber v => v
  | JBool v => if v then "true" else "false"
  | JOther shown => shown
  end.

Fixpoint firstNonEmpty (values : list string) : string :=
  match values with
  | [] => ""
  | value :: rest =>
      let value := Str.TrimSpace value in
      if negb (String.eqb value "") then value else firstNonEmpty rest
  end.

(** [payload[k]] of the decoded JSON object: [nil] when the key is missing. *)
Fixpoint jsonIndex (payload : list (string * jvalue)) (k : string) : jvalue :=
  match payload with
  | [] => JNull
  | (k', v) :: r => if String.eqb k k' then v else jsonIndex r k
  end.

(** What the handler reads of the [*http.Request]. *)
Record Request : Type := {
  Method : string;
  (* req.Header.Get("Content-Type") *)
  ContentTypeHeader : string;
  (* decodeInlineJSON(req): the decoded object, [None] when decoding fails *)
  JSONBody : option (list (string * jvalue));
  (* req.ParseForm() or req.ParseMultipartForm(...) is called by
     parseRequestForm and returns an error *)
  FormParseFails : bool;
  (* len(req.MultipartForm.File[name]) > 0 *)
  FileAttached : string -> bool;
  (* saveUploadFile(req, fieldName, uploadDir): the stored path, and whether
     it failed *)
  SaveUpload : string -> string -> string * bool
}.

(** What the handler reads of the [context.Context]: the request, and the
    inputs [GetInputFromContext] finds under a key. *)
Record Context : Type := {
  CtxRequest : option Request;
  GetInputFromContext : string -> string
}.

Record inlineUpdatePayload : Type := {
  PInline : string;
  PRecordID : string;
  PBind : string;
  PValue : string
}.

(** The status [writeInlineJSON] sets and the object it marshals. *)
Record Response : Type := {
  Status : Z;
  Payload : gmap string string
}.

Definition StatusOK : Z := 200.
Definition StatusBadRequest : Z := 400.
Definition StatusInternalServerError : Z := 500.

(** A call of the handler into the record store. *)
Inductive storeCall : Type :=
| CallUpdateRecordField (recordID : Z) (contentType bindKey value : string).

(** The state the handler works on: the database, the error list of the
    render call, and the store calls made so far. *)
Record World : Type := {
  WDB : DB;
  WErrors : list string;
  WCalls : list storeCall
}.

Definition addError (w : World) (msg : string) : World :=
  {| WDB := WDB w; WErrors := WErrors w ++ [msg]; WCalls := WCalls w |}.

Definition writeInlineJSON (status : Z) (payload : gmap string string) : Response :=
  {| Status := status; Payload := payload |}.

Definition errorBody (msg : string) : gmap string string := {[ "error" := msg ]}.

Definition parseRecordID (value : string) : Z :=
  let value := Str.TrimSpace value in
  if String.eqb value "" then 0%Z
  else
    match Str.ParseInt value with
    | Some id => id
    | None => 0%Z
    end.

Definition resolveRecordParam (fields : Fields) : string :=
  let param := Str.TrimSpace (RecordParam fields) in
  if String.eqb param "" then "id" else param.

Definition resolveRecordID (ctx : Context) (param : string) : Z :=
  let key := Str.TrimSpace param in
  let key := if String.eqb key "" then "id" else key in
  parseRecordID (GetInputFromContext ctx key).

Definition resolveUploadDir (fields : Fields) : string :=
  if negb (String.eqb (Str.TrimSpace (UploadDir fields)) "") then Str.TrimSpace (UploadDir fields)
  else if negb (String.eqb (Str.TrimSpace (Upload fields)) "") then Str.TrimSpace (Upload fields)
  else "".

Definition hasFileUpload (req : Request) (fieldNames : list string) : bool :=
  existsb (FileAttached req) fieldNames.

(** [parseRequestForm]: a failure to parse the form is added to the error
    list, and otherwise ignored. *)
Definition parseRequestForm (req : Request) (w : World) : World :=
  if FormParseFails req then
    if Str.HasPrefix (ContentTypeHeader req) "multipart/form-data"
    then addError w "content_records_plugin: parse multipart form failed"
    else addError w "content_records_plugin: parse form failed"
  else w.

(** [parseInlinePayload]: the state after the call and the payload; [None]
    is the decoding error. *)
Definition parseInlinePayload (req : Request) (ctx : Context) (fields : Fields) (w : World)
    : World * option inlineUpdatePayload :=
  if Str.HasPrefix (ContentTypeHeader req) "application/json" then
    match JSONBody req with
    | None => (w, None)
    | Some payload =>
        (w, Some {| PInline := firstNonEmpty [getStringFromAny (jsonIndex payload "cr_inline");
                                          getStringFromAny (jsonIndex payload "inline")];
                PRecordID := firstNonEmpty [getStringFromAny (jsonIndex payload "record_id");
                                            getStringFromAny (jsonIndex payload "id")];
                PBind := firstNonEmpty [getStringFromAny (jsonIndex payload "bind");
                                        getStringFromAny (jsonIndex payload "field")];
                PValue := getStringFromAny (jsonIndex payload "value") |})
    end
  else
    (parseRequestForm req w,
     Some {| PInline := firstNonEmpty [GetInputFromContext ctx "cr_inline";
                                      GetInputFromContext ctx "inline"];
            PRecordID := firstNonEmpty [GetInputFromContext ctx "record_id";
                                        GetInputFromContext ctx (resolveRecordParam fields)];
            PBind := firstNonEmpty [GetInputFromContext ctx "bind";
                                    GetInputFromContext ctx "field"];
            PValue := GetInputFromContext ctx "value" |}).

(** The multipart block of [handleInlineUpdate]: the value to store, an
    uploaded file taking precedence, or the message of the 400 response;
    the flag tells whether a failed upload was added to the error list. *)
Definition inlineValue (req : Request) (fields : Fields) (bindKey value : string)
    : (string * bool) + string :=
  if Str.HasPrefix (ContentTypeHeader req) "multipart/form-data" then
    let uploadDir := resolveUploadDir fields in
    if String.eqb uploadDir "" && hasFileUpload req ["file"; bindKey] then
      inl ("upload_dir is required for file uploads", false)
    else if negb (String.eqb uploadDir "") then
      let '(path, failed) := SaveUpload req "file" uploadDir in
      if failed then inl ("upload failed", true)
      else if String.eqb path "" then
        let '(path, failed) := SaveUpload req bindKey uploadDir in
        if failed then inl ("upload failed", true)
        else if negb (String.eqb path "") then inr path else inr value
      else inr path
    else inr value
  else inr value.

(** The record id of an inline update: the one of the payload, or else the
    one under the configured record parameter; 0 when there is none. *)
Definition inlineRecordID (ctx : Context) (fields : Fields) (payload : inlineUpdatePayload) : Z :=
  let recordID := parseRecordID (Str.TrimSpace (PRecordID payload)) in
  if Z.eqb recordID 0 then resolveRecordID ctx (resolveRecordParam fields)
  else recordID.

(** The object of the 200 response. *)
Definition okBody (recordID : Z) (bindKey value : string) : gmap string string :=
  <["status" := "ok"]>
    (<["record_id" := FormatInt recordID]>
       (<["bind" := bindKey]>
          (<["value" := value]> ∅))).

(** [handleInlineUpdate]: the state after the call, whether the request was
    handled, and the response written when it was. *)
Definition handleInlineUpdate (now : Z) (ctx : Context) (w : World) (contentType : string)
    (binds : gmap string bindTarget) (fields : Fields) (template : smap)
    : World * (bool * option Response) :=
  match CtxRequest ctx with
  | None => (w, (false, None))
  | Some req =>
      if negb (String.eqb (Method req) "POST") then (w, (false, None))
      else
        match parseInlinePayload req ctx fields w with
        | (w, None) =>
            (addError w "content_records_plugin: inline parse failed",
             (true, Some (writeInlineJSON StatusBadRequest (errorBody "invalid inline payload"))))
        | (w, Some payload) =>
            if negb (parseBoolFlag (PInline payload)) then (w, (false, None))
            else
              let bindKey := Str.TrimSpace (PBind payload) in
              if String.eqb bindKey "" then
                (w, (true, Some (writeInlineJSON StatusBadRequest (errorBody "bind is required"))))
              else
                match binds !! bindKey with
                | None =>
                    if hasBoundaryPlugin (VMap template) then (w, (false, None))
                    else
                      (w, (true, Some (writeInlineJSON StatusBadRequest (errorBody "unknown bind"))))
                | Some _ =>
                    let recordID := inlineRecordID ctx fields payload in
                    if Z.eqb recordID 0 then
                      (w, (true, Some (writeInlineJSON StatusBadRequest
                                         (errorBody "record_id is required"))))
                    else
                      match inlineValue req fields bindKey (PValue payload) with
                      | inl (msg, logged) =>
                          (if logged then addError w "content_records_plugin: upload failed" else w,
                           (true, Some (writeInlineJSON StatusBadRequest (errorBody msg))))
                      | inr value =>
                          let '(db', result) :=
                            updateRecordField now (WDB w) recordID contentType bindKey value in
                          let w' :=
                            {| WDB := db'; WErrors := WErrors w;
                               WCalls := WCalls w ++
                                 [CallUpdateRecordField recordID contentType bindKey value] |} in
                          match result with
                          | inl _ =>
                              (addError w' "content_records_plugin: inline update failed",
                               (true, Some (writeInlineJSON StatusInternalServerError
                                              (errorBody "update failed"))))
                          | inr _ =>
                              (w',
                               (true, Some (writeInlineJSON StatusOK
                                              (okBody recordID bindKey value))))
                          end
                      end
                end
        end
  end.

(** *** Sample request *)

(** The JSON inline-edit POST
    [{cr_inline: "1", record_id: "1", bind: <bind>, value: "Hi"}]. *)
Definition sampleRequest (bind : string) : Request :=
  {| Method := "POST";
     ContentTypeHeader := "application/json";
     JSONBody := Some [ ("cr_inline", JString "1"); ("record_id", JString "1");
                        ("bind", JString bind); ("value", JString "Hi") ];
     FormParseFails := false;
     FileAttached := fun _ => false;
     SaveUpload := fun _ _ => ("", false) |}.

Definition sampleContext (bind : string) : Context :=
  {| CtxRequest := Some (sampleRequest bind); GetInputFromContext := fun _ => "" |}.

Definition sampleFields : Fields :=
  {| Template := VMap sampleTemplate; View := "list"; Action := "render"; Mode := "";
     Inline := true; InlineParam := ""; Seed := false; RecordParam := "";
     UploadDir := ""; Upload := "" |}.

Definition sampleWorld : World :=
  {| WDB := sampleDB; WErrors := []; WCalls := [] |}.

(** ** Listing records *)

(** [fetchRecordsByIDs]: the records of the ids, in their order; an id that
    cannot be fetched is skipped. *)
Definition fetchRecordsByIDs (db : DB) (ids : list Z) (contentType : string) : list record :=
  fold_left
    (fun records id =>
       match fetchRecordByID db id contentType with
       | inl _ => records
       | inr rec => records ++ [rec]
       end)
    ids [].

(** A value of a result column as the driver hands it over. *)
Inductive sqlValue : Type :=
| SQLNull
| SQLInt (v : Z)
| SQLFloat (m e : Z)
| SQLBytes (v : string)
| SQLText (v : string).

(** The rows of [SELECT id FROM records [WHERE type = ?] ORDER BY id]; the
    filter on the type is left out for a blank type. *)
Definition selectIDs (db : DB) (contentType : string) : list (list sqlValue) :=
  let rows :=
    if String.eqb (Str.TrimSpace contentType) "" then records db
    else filter (fun kv => rtype (snd kv) = contentType) (records db) in
  (fun id => [SQLInt id]) <$> merge_sort Z.le (fst <$> map_to_list rows).

Section Queries.

(** [db.Query(sqlQuery)] on a query of the configuration: its rows, or
    [None] when it fails. *)
Variable runQuery : string -> DB -> option (list (list sqlValue)).

(** [int64(v)] for the [float64] [m * 2 ^ e]. *)
Variable Float64ToInt64 : Z -> Z -> Z.

(** [toInt64]: [None] is the [false] of the comma-ok result. *)
Definition toInt64 (value : sqlValue) : option Z :=
  match value with
  | SQLInt v => Some v
  | SQLFloat m e => Some (Float64ToInt64 m e)
  | SQLBytes v => Str.ParseInt v
  | SQLText v => Str.ParseInt v
  | SQLNull => None
  end.

(** [scanIDs]: the first column of every row, the rows whose first column
    is no id skipped. *)
Definition scanIDs (rows : list (list sqlValue)) : list Z :=
  omap (fun row => match row with
                   | v :: _ => toInt64 v
                   | [] => None
                   end) rows.

(** [fetchRecordIDs]: [None] is the error of the query. *)
Definition fetchRecordIDs (db : DB) (sqlQuery contentType : string) : option (list Z) :=
  if String.eqb (Str.TrimSpace sqlQuery) "" then Some (scanIDs (selectIDs db contentType))
  else
    match runQuery sqlQuery db with
    | Some rows => Some (scanIDs rows)
    | None => None
    end.

(** [fetchRecords]: the listed ids with the field rows of each. *)
Definition fetchRecords (db : DB) (sqlQuery contentType : string) : option (list record) :=
  match fetchRecordIDs db sqlQuery contentType with
  | None => None
  | Some ids => Some ((fun id => {| ID := id; Fields_ := fetchRecordFields db id |}) <$> ids)
  end.

End Queries.

(** Every character of the string satisfies [p]. *)
Fixpoint allChars (p : ascii -> bool) (s : string) : bool :=
  match s with
  | EmptyString => true
  | String c r => p c && allChars p r
  end.

(** ** Paths that do not meet *)

(** Two segments name different children: different indices when both are
    numbers, different keys otherwise. *)
Definition differ (a b : string) : bool :=
  match Str.Atoi a, Str.Atoi b with
  | Some x, Some y => negb (Z.eqb x y)
  | _, _ => negb (String.eqb a b)
  end.

(** The segments from the first one that is not blank. *)
Fixpoint dropBlank (parts : list string) : list string :=
  match parts with
  | [] => []
  | part :: rest =>
      if String.eqb (Str.TrimSpace part) "" then dropBlank rest else parts
  end.

(** The path [qs] leaves the path [ps] before [ps] ends: after a common
    beginning, blank segments apart, both have a segment, and the two
    differ. *)
Fixpoint apart (ps qs : list string) : bool :=
  match ps with
  | [] => false
  | a :: pr =>
      if String.eqb (Str.TrimSpace a) "" then apart pr qs
      else
        match dropBlank qs with
        | [] => false
        | b :: qr =>
            differ (Str.TrimSpace a) (Str.TrimSpace b)
            || (String.eqb (Str.TrimSpace a) (Str.TrimSpace b) && apart pr qr)
        end
  end.

(** ** Targets of the bind index *)

(** The path [collectBinds], started with [path] at the value, registers
    for the field when it takes it from the map at the address: the keys on
    the way and the path of the bind, joined by dots.  [None] when the
    address is not reached or the map there does not declare the field. *)
Fixpoint targetAt (n : node) (path : string) (addr : list nat) (field : string)
    : option string :=
  match normalizeToStringMap n with
  | None => None
  | Some m =>
      match addr with
      | [] =>
          match ownBind m with
          | Some (f, bindPath) =>
              if String.eqb f field then Some (joinPath path bindPath) else None
          | None => None
          end
      | i :: rest =>
          if isBoundaryPlugin m then None
          else
            match nth_error m i with
            | Some (key, c) =>
                if Str.HasPrefix key "@" then None
                else targetAt c (joinPath path key) rest field
            | None => None
            end
      end
  end.

(** A key that is one segment of a path: not empty, without a dot and
    without white space around it. *)
Definition plainKey (key : string) : bool :=
  negb (String.eqb key "") && String.eqb (Str.TrimSpace key) key
  && allChars (fun c => negb (Ascii.eqb c ".")) key.

(** The address leads through string-keyed maps only, under plain keys,
    each the first entry of its key. *)
Fixpoint plainAt (n : node) (addr : list nat) : bool :=
  match addr with
  | [] => match n with VMap _ => true | _ => false end
  | i :: rest =>
      match n with
      | VMap m =>
          match nth_error m i with
          | Some (key, c) =>
              plainKey key
              && forallb (fun kc => negb (String.eqb key (fst kc))) (firstn i m)
              && plainAt c rest
          | None => false
          end
      | _ => false
      end
  end.

(** ** Copies, flags and filters of a template *)

(** [deepCopy]: maps and sequences are built anew, with copies of their
    values; any other value is returned as it is. *)
Fixpoint deepCopy (value : node) : node :=
  match value with
  | VMap v => VMap (map (fun kc => (fst kc, deepCopy (snd kc))) v)
  | VIMap v => VIMap (map (fun kc => (fst kc, deepCopy (snd kc))) v)
  | VList v => VList (map deepCopy v)
  | v => v
  end.

(** [hasFlag]: the flag key is present with a value that is not the zero of
    its type; a string counts unless it is blank, "false" or "0". *)
Definition hasFlag (node : smap) (flagKey : string) : bool :=
  match lookupKey flagKey node with
  | None => false
  | Some (VBool v) => v
  | Some (VString v) =>
      let val := Str.ToLower (Str.TrimSpace v) in
      negb (String.eqb val "") && negb (String.eqb val "false") && negb (String.eqb val "0")
  | Some (VInt v) => negb (Z.eqb v 0)
  | Some (VFloat m _) => negb (Z.eqb m 0)
  | Some _ => false
  end.

(** The keys [stripPluginMetaKeys] deletes. *)
Definition isMetaKey (key : string) : bool :=
  String.eqb key "@bind" || String.eqb key "@name" || String.eqb key "@list"
  || String.eqb key "@teaser".

(** [stripPluginMetaKeys]: the value after the call, which changes the maps
    in place.  A boundary is left as it is; an interface-keyed map is no
    case of the switch. *)
Fixpoint stripPluginMetaKeys (n : node) : node :=
  match n with
  | VMap typed =>
      if isBoundaryPlugin typed then n
      else
        VMap (fold_right
                (fun kc kept =>
                   if isMetaKey (fst kc) then kept
                   else (fst kc, stripPluginMetaKeys (snd kc)) :: kept)
                [] typed)
  | VList typed => VList (map stripPluginMetaKeys typed)
  | _ => n
  end.

(** The entries of a map that is no boundary after the call. *)
Definition strippedEntries (typed : smap) : smap :=
  fold_right
    (fun kc kept =>
       if isMetaKey (fst kc) then kept
       else (fst kc, stripPluginMetaKeys (snd kc)) :: kept)
    [] typed.

(** [stripPluginMetaKeys(instance)] on a map: the map after the call. *)
Definition strippedInstance (instance : smap) : smap :=
  if isBoundaryPlugin instance then instance else strippedEntries instance.

(** The path has no segment that is one of the keys
    [stripPluginMetaKeys] deletes. *)
Definition metaFree (path : string) : Prop :=
  Forall (fun s => isMetaKey (Str.TrimSpace s) = false) (Str.SplitDot path).

(** The field of the [@bind] of a node, trimmed, when it is a string that
    is not blank; the path is not looked at. *)
Definition flaggedField (typed : smap) : option string :=
  match lookupKey "@bind" typed with
  | Some (VMap bindValue) =>
      match lookupKey "field" bindValue with
      | Some (VString field) =>
          let field := Str.TrimSpace field in
          if String.eqb field "" then None else Some field
      | _ => None
      end
  | _ => None
  end.

(** [collectFlaggedBindKeysInto], with the recursion depth bounded by
    [fuel]; the set [out] the Go function fills in place is threaded
    through. *)
Fixpoint collectFlaggedBindKeysIntoFuel (fuel : nat) (n : node) (flagKey : string)
    (out : gset string) : gset string :=
  match fuel with
  | O => out
  | S fuel' =>
      match n with
      | VMap typed =>
          if isBoundaryPlugin typed then out
          else
            let out :=
              if hasFlag typed flagKey then
                match flaggedField typed with
                | Some field => {[ field ]} ∪ out
                | None => out
                end
              else out in
            fold_left
              (fun out kc =>
                 if Str.HasPrefix (fst kc) "@" then out
                 else collectFlaggedBindKeysIntoFuel fuel' (snd kc) flagKey out)
              typed out
      | VIMap typed =>
          let normalized := normalizeInterfaceMap typed in
          collectFlaggedBindKeysIntoFuel fuel' (VMap normalized) flagKey out
      | VList typed =>
          fold_left
            (fun out child => collectFlaggedBindKeysIntoFuel fuel' child flagKey out)
            typed out
      | _ => out
      end
  end.

Definition collectFlaggedBindKeys (template : smap) (flagKey : string) : gset string :=
  collectFlaggedBindKeysIntoFuel (S (height (VMap template))) (VMap template) flagKey ∅.

(** The children the second loop of [filterNodeByFlag] adds: those that are
    no containers, under keys without the [@] prefix that are not kept
    yet. *)
Definition keepScalar (out : smap) (kc : string * node) : smap :=
  if Str.HasPrefix (fst kc) "@" then out
  else
    match lookupKey (fst kc) out with
    | Some _ => out
    | None =>
        match snd kc with
        | VMap _ | VIMap _ | VList _ => out
        | child => setKey (fst kc) child out
        end
    end.

(** [filterNodeByFlag], with the recursion depth bounded by [fuel]; [None]
    is the [false] of the comma-ok result. *)
Fixpoint filterNodeByFlagFuel (fuel : nat) (n : node) (flagKey : string) : option node :=
  match fuel with
  | O => None
  | S fuel' =>
      match n with
      | VMap typed =>
          if hasFlag typed flagKey then Some (deepCopy (VMap typed))
          else if isBoundaryPlugin typed then None
          else
            let '(out, kept) :=
              fold_left
                (fun (acc : smap * bool) kc =>
                   if Str.HasPrefix (fst kc) "@" then (setKey (fst kc) (snd kc) (fst acc), snd acc)
                   else
                     match filterNodeByFlagFuel fuel' (snd kc) flagKey with
                     | Some filtered => (setKey (fst kc) filtered (fst acc), true)
                     | None => acc
                     end)
                typed ([], false) in
            if kept then Some (VMap (fold_left keepScalar typed out)) else None
      | VIMap typed =>
          let normalized := normalizeInterfaceMap typed in
          filterNodeByFlagFuel fuel' (VMap normalized) flagKey
      | VList typed =>
          let out :=
            fold_left
              (fun out child =>
                 match filterNodeByFlagFuel fuel' child flagKey with
                 | Some filtered => out ++ [filtered]
                 | None => out
                 end)
              typed [] in
          match out with
          | [] => None
          | _ => Some (VList out)
          end
      | _ => None
      end
  end.

Definition filterNodeByFlag (n : node) (flagKey : string) : option node :=
  filterNodeByFlagFuel (S (height n)) n flagKey.

Definition filterTemplateByFlag (template : smap) (flagKey : string) : option smap :=
  match filterNodeByFlag (VMap template) flagKey with
  | Some (VMap result) => Some result
  | _ => None
  end.

(** [applyTeaserFilter]; [teaser] is [fields.Teaser], the one field it
    reads. *)
Definition applyTeaserFilter (template : smap) (teaser : bool) : smap :=
  if negb teaser then template
  else
    match filterTemplateByFlag template "@teaser" with
    | Some filtered => filtered
    | None => template
    end.

(** The address is one [collectFlaggedBindKeys] and [filterNodeByFlag]
    search: it leads through entries, under keys without the [@] prefix, of
    maps that are no boundaries, and through items of sequences. *)
Fixpoint searchedAt (n : node) (addr : list nat) : bool :=
  match addr with
  | [] => true
  | i :: rest =>
      match n with
      | VMap m =>
          negb (isBoundaryPlugin m) &&
          match nth_error m i with
          | Some (key, c) => negb (Str.HasPrefix key "@") && searchedAt c rest
          | None => false
          end
      | VIMap im =>
          let m := normalizeInterfaceMap im in
          negb (isBoundaryPlugin m) &&
          match nth_error m i with
          | Some (key, c) => negb (Str.HasPrefix key "@") && searchedAt c rest
          | None => false
          end
      | VList l =>
          match nth_error l i with
          | Some c => searchedAt c rest
          | None => false
          end
      | _ => false
      end
  end.

(** The value at the address is a map that carries the flag. *)
Definition flaggedAt (flagKey : string) (n : node) (addr : list nat) : bool :=
  match nodeAt n addr with
  | Some c =>
      match normalizeToStringMap c with
      | Some m => hasFlag m flagKey
      | None => false
      end
  | None => false
  end.

(** The value at the address is a map that is no boundary, carries the flag
    and binds the field. *)
Definition flaggedBindAt (flagKey field : string) (n : node) (addr : list nat) : bool :=
  match nodeAt n addr with
  | Some c =>
      match normalizeToStringMap c with
      | Some m =>
          negb (isBoundaryPlugin m) && hasFlag m flagKey &&
          match flaggedField m with
          | Some f => String.eqb f field
          | None => false
          end
      | None => false
      end
  | None => false
  end.

(** ** Record ids of the configuration *)

Section Selection.

Variable runQuery : string -> DB -> option (list (list sqlValue)).
Variable Float64ToInt64 : Z -> Z -> Z.

(** [parseIDValue] on [fields.ID] or an item of [fields.IDs]. *)
Definition parseIDValue (value : node) : Z :=
  match value with
  | VNil => 0%Z
  | VInt v => v
  | VFloat m e => Float64ToInt64 m e
  | VString v => parseRecordID v
  | _ => 0%Z
  end.

(** [resolveIDs]; [id] and [ids] are [fields.ID] and [fields.IDs]. *)
Definition resolveIDs (id : node) (ids : list node) : list Z :=
  let first := if negb (Z.eqb (parseIDValue id) 0) then [parseIDValue id] else [] in
  fold_left
    (fun ids raw => if negb (Z.eqb (parseIDValue raw) 0) then ids ++ [parseIDValue raw] else ids)
    ids first.

(** [resolveQuery]; [query] and [sql] are [fields.Query] and [fields.SQL]. *)
Definition resolveQuery (query sql : string) : string :=
  let query := Str.TrimSpace query in
  if negb (String.eqb query "") then query else Str.TrimSpace sql.

(** [resolveSingleRecordID]; [recordParam] is [fields.RecordParam]. *)
Definition resolveSingleRecordID (id : node) (ids : list node) (recordParam : string)
    (ctx : Context) : Z :=
  if negb (Z.eqb (parseIDValue id) 0) then parseIDValue id
  else
    match ids with
    | first :: _ =>
        if negb (Z.eqb (parseIDValue first) 0) then parseIDValue first
        else resolveRecordID ctx recordParam
    | [] => resolveRecordID ctx recordParam
    end.

(** [fetchRecordsForList]: [None] is the error of the query. *)
Definition fetchRecordsForList (db : DB) (id : node) (ids : list node) (query sql : string)
    (contentType : string) : option (list record) :=
  let ids := resolveIDs id ids in
  if (0 <? length ids)%nat then Some (fetchRecordsByIDs db ids contentType)
  else fetchRecords runQuery Float64ToInt64 db (resolveQuery query sql) contentType.

End Selection.

(** ** Names of uploaded files *)

(** The characters [sanitizeFilename] writes: letters, digits, [-], [_]
    and [.]. *)
Definition safeChar (r : ascii) : bool :=
  let n := nat_of_ascii r in
  ((97 <=? n)%nat && (n <=? 122)%nat) || ((65 <=? n)%nat && (n <=? 90)%nat)
  || ((48 <=? n)%nat && (n <=? 57)%nat)
  || Ascii.eqb r "-" || Ascii.eqb r "_" || Ascii.eqb r ".".

(** [sanitizeFilename]: a safe character is kept, a space becomes [-], any
    other byte is dropped (a rune outside ASCII is a sequence of such
    bytes). *)
Fixpoint sanitizeFilename (name : string) : string :=
  match name with
  | EmptyString => EmptyString
  | String r rest =>
      if safeChar r then String r (sanitizeFilename rest)
      else if Ascii.eqb r " " then String "-" (sanitizeFilename rest)
      else sanitizeFilename rest
  end.

(** ** Filling an instance with a record *)

(** The body of the loop [for bindKey, value := range rec.Fields] of
    [buildList] and [renderSingleRender]: a field without a bind is
    skipped, and so is an empty value of an image bind; any other value is
    written at the path of the bind, the result of [setAtPath] ignored. *)
Definition fillField (binds : gmap string bindTarget) (imageBinds : gset string)
    (instance : smap) (entry : string * string) : smap :=
  let bindKey := fst entry in
  let value := snd entry in
  match binds !! bindKey with
  | None => instance
  | Some target =>
      if String.eqb value "" && bool_decide (bindKey ∈ imageBinds) then instance
      else fst (setAtPath instance (Path target) (VString value))
  end.

(** The loop; [entries] are the fields of the record in the order the loop
    visits them, which Go leaves open. *)
Definition fillInstance (binds : gmap string bindTarget) (imageBinds : gset string)
    (entries : list (string * string)) (instance : smap) : smap :=
  fold_left (fillField binds imageBinds) entries instance.

(** ** The list of instances *)

(** The double quote. *)
Definition quote : string := String (ascii_of_nat 34) EmptyString.

(** [html.EscapeString] *)
Fixpoint EscapeString (s : string) : string :=
  match s with
  | EmptyString => EmptyString
  | String c r =>
      ((if Ascii.eqb c "&" then "&amp;"
       else if Ascii.eqb c "'" then "&#39;"
       else if Ascii.eqb c "<" then "&lt;"
       else if Ascii.eqb c ">" then "&gt;"
       else if Ascii.eqb c (ascii_of_nat 34) then "&#34;"
       else String c EmptyString) ++ EscapeString r)%string
  end.

(** The node [addEditLink] stores under [_edit]. *)
Definition editLink (href : string) : node :=
  VMap [ ("@type", VString "<HTML>");
         ("value", VString ("<a class=" ++ quote ++ "content-records-edit-link" ++ quote
                            ++ " href=" ++ quote ++ EscapeString href ++ quote
                            ++ ">Edit</a>")%string) ].

(** [addEditLink]: the instance after the call. *)
Definition addEditLink (instance : smap) (route recordParam : string) (id : Z) : smap :=
  let route := Str.TrimSpace route in
  if String.eqb route "" then instance
  else
    match lookupKey "_edit" instance with
    | Some _ => instance
    | None =>
        let param := Str.TrimSpace recordParam in
        let param := if String.eqb param "" then "id" else param in
        let href :=
          if Str.Contains route "?" then (route ++ "&" ++ param ++ "=" ++ FormatInt id)%string
          else (route ++ "?" ++ param ++ "=" ++ FormatInt id)%string in
        setKey "_edit" (editLink href) instance
    end.

Record inlineOptions : Type := {
  Enabled : bool;
  BindTypes : gmap string string
}.

(** [deepCopy(template).(map[string]interface{})] *)
Definition deepCopyMap (template : smap) : smap :=
  map (fun kc => (fst kc, deepCopy (snd kc))) template.

Section BuildList.

(** [applyInlineAttributes]: the instance after the call. *)
Variable applyInlineAttributes :
  smap -> gmap string bindTarget -> record -> option inlineOptions -> smap.

(** The order in which [range rec.Fields] visits the fields. *)
Variable rangeFields : gmap string string -> list (string * string).

(** The body of the loop of [buildList]: the instance of one record. *)
Definition buildInstance (template : smap) (binds : gmap string bindTarget)
    (imageBinds : gset string) (editable : bool) (route recordParam : string)
    (inline : option inlineOptions) (rec : record) : smap :=
  let instance := deepCopyMap template in
  let instance := strippedInstance instance in
  let instance := fillInstance binds imageBinds (rangeFields (Fields_ rec)) instance in
  let instance :=
    if editable && negb (String.eqb (Str.TrimSpace route) "")
    then addEditLink instance route recordParam (ID rec)
    else instance in
  applyInlineAttributes instance binds rec inline.

(** The loop of [buildList] from the index [i] on. *)
Fixpoint buildListFrom (i : nat) (template : smap) (binds : gmap string bindTarget)
    (records : list record) (imageBinds : gset string) (editable : bool)
    (route recordParam : string) (inline : option inlineOptions) (list : smap) : smap :=
  match records with
  | [] => list
  | rec :: rest =>
      let instance :=
        buildInstance template binds imageBinds editable route recordParam inline rec in
      let key := FormatInt ((Z.of_nat i + 1) * 10) in
      buildListFrom (S i) template binds rest imageBinds editable route recordParam inline
        (setKey key (VMap instance) list)
  end.

Definition buildList (template : smap) (binds : gmap string bindTarget)
    (records : list record) (imageBinds : gset string) (editable : bool)
    (route recordParam : string) (inline : option inlineOptions) : smap :=
  buildListFrom O template binds records imageBinds editable route recordParam inline
    [("@type", VString "<TREE>")].

End BuildList.

(** ** The form of the list editor *)

(** [cmsField]; [Type_] and [Path_] are its fields [Type] and [Path]. *)
Record cmsField : Type := {
  Name : string;
  Label : string;
  Type_ : string;
  Bind : string;
  Path_ : string;
  Order : Z
}.

(** The key of a field in the form and in the record: its bind, or else its
    name. *)
Definition fieldKey (def : cmsField) : string :=
  if String.eqb (Bind def) "" then Name def else Bind def.



Section ListEditor.

(** [req.ParseMultipartForm(20 << 20)] as [mergeUploads] calls it returns an
    error. *)
Variable uploadParseFails : Request -> bool.



End ListEditor.

(** ** The columns of the list editor *)

(** [a <= b] for strings, byte by byte: the order of [sort.Strings]. *)
Definition stringLe (a b : string) : Prop := String.leb a b = true.

#[local] Instance stringLe_dec : RelDecision stringLe.
Proof. intros a b. unfold stringLe. apply _. Defined.

(** [resolveListFieldIDs]: the keys of the fields that are list binds, in
    the order of the fields, then the list binds that are no field, sorted;
    the keys of all fields when there is no list bind. *)
Definition resolveListFieldIDs (fieldDefs : list cmsField) (listBinds : gset string)
    : list string :=
  if (size listBinds =? 0)%nat then
    fold_left (fun ids field => ids ++ [fieldKey field]) fieldDefs []
  else
    let '(ids, remaining) :=
      fold_left
        (fun (acc : list string * gset string) field =>
           let bindKey := fieldKey field in
           if bool_decide (bindKey ∈ listBinds)
           then (fst acc ++ [bindKey], snd acc ∖ {[ bindKey ]})
           else acc)
        fieldDefs ([], listBinds) in
    if (0 <? size remaining)%nat
    then ids ++ merge_sort stringLe (elements remaining)
    else ids.

(** ** The fields of the editor forms *)

(** [FieldDef]; the fields carry the prefix [Def]. *)
Record FieldDef : Type := {
  DefType : string;
  DefBind : string;
  DefPath : string;
  DefLabel : string;
  DefOrder : Z
}.

(** [resolveSchema]; [schema] and [legacy] are [fields.Schema] and
    [fields.Fields], and the empty map stands for [nil]. *)
Definition resolveSchema (schema legacy : gmap string FieldDef) : gmap string FieldDef :=
  if (0 <? size schema)%nat then schema
  else if (0 <? size legacy)%nat then legacy
  else ∅.

(** The comparisons [collectCMSFields] sorts with. *)
Definition lessByOrder (a b : cmsField) : bool :=
  let oi := if Z.eqb (Order a) 0 then (2 ^ 30)%Z else Order a in
  let oj := if Z.eqb (Order b) 0 then (2 ^ 30)%Z else Order b in
  if Z.eqb oi oj then String.ltb (Name a) (Name b) else Z.ltb oi oj.

Definition lessByName (a b : cmsField) : bool := String.ltb (Name a) (Name b).

(** [a] may stand before [b] in a slice sorted with [less]. *)
Definition notAfter (less : cmsField -> cmsField -> bool) (a b : cmsField) : Prop :=
  less b a = false.

#[local] Instance notAfter_dec (less : cmsField -> cmsField -> bool) :
  RelDecision (notAfter less).
Proof. intros a b. unfold notAfter. apply _. Defined.

(** [sort.SliceStable(out, less)], on fields of distinct names, which either
    comparison orders totally. *)
Definition SliceStable (less : cmsField -> cmsField -> bool) (out : list cmsField)
    : list cmsField :=
  merge_sort (notAfter less) out.

Section EditorFields.

(** The orders in which [range schema] and [range binds] visit the maps. *)
Variable rangeSchema : gmap string FieldDef -> list (string * FieldDef).
Variable rangeBinds : gmap string bindTarget -> list (string * bindTarget).

Definition findBindByPath (binds : gmap string bindTarget) (path : string) : option string :=
  fst <$> find (fun kt => String.eqb (Path (snd kt)) path) (rangeBinds binds).

(** The bind of a field of the schema, as [collectCMSFields],
    [collectImageBinds] and [buildBindTypeMap] resolve it: the bind of the
    definition, or else the bind registered for its path, or else the name
    of the field. *)
Definition fieldBind (binds : gmap string bindTarget) (name : string) (def : FieldDef)
    : string :=
  let bind := Str.TrimSpace (DefBind def) in
  let bind :=
    if String.eqb bind "" && negb (String.eqb (Str.TrimSpace (DefPath def)) "") then
      match findBindByPath binds (Str.TrimSpace (DefPath def)) with
      | Some resolved => resolved
      | None => bind
      end
    else bind in
  if String.eqb bind "" then name else bind.

Definition collectCMSFields (schema legacy : gmap string FieldDef)
    (binds : gmap string bindTarget) : list cmsField :=
  let schema := resolveSchema schema legacy in
  if (0 <? size schema)%nat then
    let out :=
      fold_left
        (fun out (entry : string * FieldDef) =>
           let name := fst entry in
           let def := snd entry in
           let bind := fieldBind binds name def in
           match binds !! bind with
           | None => out
           | Some _ =>
               let label := Str.TrimSpace (DefLabel def) in
               let label := if String.eqb label "" then bind else label in
               out ++ [ {| Name := name; Label := label; Type_ := Str.TrimSpace (DefType def);
                           Bind := bind; Path_ := DefPath def; Order := DefOrder def |} ]
           end)
        (rangeSchema schema) [] in
    let hasOrder := existsb (fun field => negb (Z.eqb (Order field) 0)) out in
    if hasOrder then SliceStable lessByOrder out else SliceStable lessByName out
  else
    (fun key =>
       {| Name := key; Label := key; Type_ := "text"; Bind := key;
          Path_ := default "" (Path <$> binds !! key); Order := 0 |})
      <$> merge_sort stringLe (fst <$> map_to_list binds).

Definition collectImageBinds (schema legacy : gmap string FieldDef)
    (binds : gmap string bindTarget) : gset string :=
  let schema := resolveSchema schema legacy in
  if (size schema =? 0)%nat then ∅
  else
  fold_left
    (fun (imageBinds : gset string) (entry : string * FieldDef) =>
       let name := fst entry in
       let def := snd entry in
       if negb (String.eqb (Str.ToLower (Str.TrimSpace (DefType def))) "image") then imageBinds
       else
         let bind := fieldBind binds name def in
         match binds !! bind with
         | Some _ => {[ bind ]} ∪ imageBinds
         | None => imageBinds
         end)
    (rangeSchema schema) ∅.

End EditorFields.

(** * Properties *)

(** ** Maps and sequences of the tree *)

Lemma lookupKey_setKey_eq (k : string) (v : node) (m : smap) :
  lookupKey k (setKey k v m) = Some v.
Proof.
  induction m as [|[k' v'] r IH]; simpl.
  - by rewrite String.eqb_refl.
  - destruct (String.eqb k k') eqn:E; simpl.
    + by rewrite String.eqb_refl.
    + by rewrite E.
Qed.

Lemma setKey_same (k : string) (v : node) (m : smap) :
  lookupKey k m = Some v -> setKey k v m = m.
Proof.
  induction m as [|[k' v'] r IH]; simpl; [done|].
  destruct (String.eqb k k') eqn:E.
  - intros [= ->]. apply String.eqb_eq in E. by subst.
  - intros H. by rewrite IH.
Qed.

Lemma ikey_eqb_refl (k : ikey) : ikey_eqb k k = true.
Proof. destruct k; simpl; apply String.eqb_refl. Qed.

Lemma ikey_eqb_eq (a b : ikey) : ikey_eqb a b = true -> a = b.
Proof.
  destruct a, b; simpl; try discriminate; intros H; apply String.eqb_eq in H; by subst.
Qed.

Lemma lookupIKey_setIKey_eq (k : ikey) (v : node) (m : imap) :
  lookupIKey k (setIKey k v m) = Some v.
Proof.
  induction m as [|[k' v'] r IH]; simpl.
  - by rewrite ikey_eqb_refl.
  - destruct (ikey_eqb k k') eqn:E; simpl.
    + by rewrite ikey_eqb_refl.
    + by rewrite E.
Qed.

Lemma setIKey_same (k : ikey) (v : node) (m : imap) :
  lookupIKey k m = Some v -> setIKey k v m = m.
Proof.
  induction m as [|[k' v'] r IH]; simpl; [done|].
  destruct (ikey_eqb k k') eqn:E.
  - intros [= ->]. apply ikey_eqb_eq in E. by subst.
  - intros H. by rewrite IH.
Qed.

Lemma length_setNth (idx : nat) (v : node) (l : list node) :
  length (setNth idx v l) = length l.
Proof.
  revert idx; induction l as [|x r IH]; intros [|i]; simpl; auto.
Qed.

Lemma nth_error_setNth (idx : nat) (v : node) (l : list node) :
  (idx < length l)%nat -> nth_error (setNth idx v l) idx = Some v.
Proof.
  revert idx; induction l as [|x r IH]; intros [|i]; simpl; try lia; auto.
  intros H. apply IH. lia.
Qed.

Lemma setNth_same (idx : nat) (v : node) (l : list node) :
  nth_error l idx = Some v -> setNth idx v l = l.
Proof.
  revert idx; induction l as [|x r IH]; intros [|i]; simpl; try done.
  - by intros [= ->].
  - intros H. by rewrite IH.
Qed.

Lemma listIndex_lt (part : string) (len idx : nat) :
  listIndex part len = Some idx -> (idx < len)%nat.
Proof.
  unfold listIndex. destruct (Str.Atoi part) as [z|]; [|done].
  destruct (z <? 0)%Z eqn:E1; simpl; [done|].
  destruct (Z.of_nat len <=? z)%Z eqn:E2; [done|].
  intros [= <-]. lia.
Qed.

(** ** Paths *)

Lemma SplitDot_nonempty (s : string) : Str.SplitDot s <> [].
Proof.
  destruct s as [|c r]; simpl; [done|].
  destruct (Ascii.eqb c "."); [done|]. by destruct (Str.SplitDot r).
Qed.

(** Splitting distributes over a dot between two strings. *)
Lemma SplitDot_app (p q : string) :
  Str.SplitDot (p ++ "." ++ q) = Str.SplitDot p ++ Str.SplitDot q.
Proof.
  induction p as [|c r IH]; [reflexivity|].
  change (String c r ++ "." ++ q)%string with (String c (r ++ "." ++ q)%string).
  cbn [Str.SplitDot]. destruct (Ascii.eqb c "."); rewrite IH; [reflexivity|].
  pose proof (SplitDot_nonempty r). by destruct (Str.SplitDot r).
Qed.

Lemma getWalk_skip_empty (l1 l2 : list string) (current : node) :
  getWalk current (l1 ++ "" :: l2) = getWalk current (l1 ++ l2).
Proof.
  revert current; induction l1 as [|part rest IH]; intros current; [reflexivity|].
  simpl. destruct (String.eqb (Str.TrimSpace part) ""); [apply IH|].
  destruct current; try reflexivity.
  - destruct (lookupKey _ _); [apply IH|reflexivity].
  - destruct (lookupIKey _ _); [apply IH|reflexivity].
  - destruct (listIndex _ _); [|reflexivity].
    destruct (nth_error _ _); [apply IH|reflexivity].
Qed.

Lemma setWalk_skip_empty (l1 l2 : list string) (value : node) :
  l2 <> [] ->
  forall current : node,
    setWalk current (l1 ++ "" :: l2) value = setWalk current (l1 ++ l2) value.
Proof.
  intros Hl2. induction l1 as [|part rest IH]; intros current; [reflexivity|].
  change ((part :: rest) ++ "" :: l2) with (part :: (rest ++ "" :: l2)).
  change ((part :: rest) ++ l2) with (part :: (rest ++ l2)).
  cbn [setWalk]. destruct (String.eqb (Str.TrimSpace part) ""); [apply IH|].
  assert (E1 : exists a b, rest ++ "" :: l2 = a :: b).
  { destruct rest; simpl; eauto. }
  assert (E2 : exists a b, rest ++ l2 = a :: b).
  { destruct rest; simpl; [|eauto]. destruct l2; [done|eauto]. }
  destruct E1 as (a1 & b1 & E1), E2 as (a2 & b2 & E2).
  rewrite E1, E2 in IH |- *.
  destruct current as [| | | | |m|m|l]; try reflexivity.
  - destruct (lookupKey _ m); [by rewrite IH|reflexivity].
  - destruct (lookupIKey _ m); [by rewrite IH|reflexivity].
  - destruct (listIndex _ (length l)); [|reflexivity].
    destruct (nth_error l _); [by rewrite IH|reflexivity].
Qed.

Lemma setWalk_only_empty (parts : list string) (current value : node) :
  forallb (fun s => String.eqb (Str.TrimSpace s) "") parts = true ->
  setWalk current parts value = (current, false).
Proof.
  induction parts as [|part rest IH]; simpl; [done|].
  intros [H1 H2]%andb_prop. rewrite H1. by apply IH.
Qed.

Lemma setWalk_VMap (parts : list string) (m : smap) (value n' : node) (ok : bool) :
  setWalk (VMap m) parts value = (n', ok) -> exists m', n' = VMap m'.
Proof.
  revert m n' ok; induction parts as [|part rest IH]; intros m n' ok; simpl.
  - intros [= <- <-]. eauto.
  - destruct (String.eqb (Str.TrimSpace part) ""); [apply IH|].
    destruct rest as [|part' rest'].
    + intros [= <- <-]. eauto.
    + destruct (lookupKey _ m) as [next|]; [|intros [= <- <-]; eauto].
      destruct (setWalk next _ value). intros [= <- <-]. eauto.
Qed.

(** A successful [setWalk] is read back by [getWalk] along the same
    segments. *)
Lemma setWalk_getWalk (parts : list string) :
  forall current value current',
    setWalk current parts value = (current', true) ->
    getWalk current' parts = (value, true).
Proof.
  induction parts as [|part rest IH]; intros current value current'; [done|].
  cbn [setWalk getWalk].
  destruct (String.eqb (Str.TrimSpace part) "") eqn:Epart; [apply IH|].
  destruct current as [| | | | |m|m|l]; try done.
  - destruct rest as [|part' rest'].
    + intros [= <-]. by rewrite lookupKey_setKey_eq.
    + destruct (lookupKey _ m) as [next|]; [|done].
      destruct (setWalk next _ value) as [next' ok] eqn:Enext.
      intros [= <- ->]. rewrite lookupKey_setKey_eq. by eapply IH.
  - destruct rest as [|part' rest'].
    + intros [= <-]. by rewrite lookupIKey_setIKey_eq.
    + destruct (lookupIKey _ m) as [next|]; [|done].
      destruct (setWalk next _ value) as [next' ok] eqn:Enext.
      intros [= <- ->]. rewrite lookupIKey_setIKey_eq. by eapply IH.
  - destruct (listIndex _ (length l)) as [idx|] eqn:Eidx; [|done].
    pose proof (listIndex_lt _ _ _ Eidx) as Hlt.
    destruct rest as [|part' rest'].
    + intros [= <-]. rewrite length_setNth, Eidx. by rewrite nth_error_setNth.
    + destruct (nth_error l idx) as [next|]; [|done].
      destruct (setWalk next _ value) as [next' ok] eqn:Enext.
      intros [= <- ->]. rewrite length_setNth, Eidx, nth_error_setNth by done.
      by eapply IH.
Qed.

(** A failed [setWalk] leaves the value as it was. *)
Lemma setWalk_false_unchanged (parts : list string) :
  forall current value current',
    setWalk current parts value = (current', false) -> current' = current.
Proof.
  induction parts as [|part rest IH]; intros current value current'.
  - by intros [= <-].
  - cbn [setWalk].
    destruct (String.eqb (Str.TrimSpace part) ""); [apply IH|].
    destruct current as [| | | | |m|m|l]; try by intros [= <-].
    + destruct rest as [|part' rest']; [done|].
      destruct (lookupKey _ m) as [next|] eqn:Ek; [|by intros [= <-]].
      destruct (setWalk next _ value) as [next' ok] eqn:Enext.
      intros [= <- ->]. apply IH in Enext as ->. by rewrite setKey_same.
    + destruct rest as [|part' rest']; [done|].
      destruct (lookupIKey _ m) as [next|] eqn:Ek; [|by intros [= <-]].
      destruct (setWalk next _ value) as [next' ok] eqn:Enext.
      intros [= <- ->]. apply IH in Enext as ->. by rewrite setIKey_same.
    + destruct (listIndex _ (length l)) as [idx|]; [|by intros [= <-]].
      destruct rest as [|part' rest']; [done|].
      destruct (nth_error l idx) as [next|] eqn:Ek; [|by intros [= <-]].
      destruct (setWalk next _ value) as [next' ok] eqn:Enext.
      intros [= <- ->]. apply IH in Enext as ->. by rewrite setNth_same.
Qed.

(** [setWalk] succeeds on every path that [getWalk] resolves and whose last
    segment is not empty. *)
Lemma setWalk_resolving (parts : list string) :
  forall (current value x : node) (seg : string),
    getWalk current parts = (x, true) ->
    last parts = Some seg ->
    Str.TrimSpace seg <> "" ->
    snd (setWalk current parts value) = true.
Proof.
  induction parts as [|part rest IH]; intros current value x seg Hget Hlast Hseg; [done|].
  cbn [getWalk setWalk] in *.
  assert (Hrest : rest <> [] -> last rest = Some seg).
  { intros Hne. destruct rest; [done|]. by rewrite last_cons_cons in Hlast. }
  destruct (String.eqb (Str.TrimSpace part) "") eqn:Epart.
  - destruct rest as [|part' rest'].
    + injection Hlast as ->. by apply String.eqb_eq in Epart.
    + eapply IH; [exact Hget|by apply Hrest|done].
  - destruct current as [| | | | |m|m|l]; try done.
    + destruct rest as [|part' rest']; [done|].
      destruct (lookupKey _ m) as [next|]; [|done].
      pose proof (IH next value x seg Hget (Hrest ltac:(done)) Hseg) as H.
      by destruct (setWalk next _ value).
    + destruct rest as [|part' rest']; [done|].
      destruct (lookupIKey _ m) as [next|]; [|done].
      pose proof (IH next value x seg Hget (Hrest ltac:(done)) Hseg) as H.
      by destruct (setWalk next _ value).
    + destruct (listIndex _ (length l)) as [idx|]; [|done].
      destruct rest as [|part' rest']; [done|].
      destruct (nth_error l idx) as [next|]; [|done].
      pose proof (IH next value x seg Hget (Hrest ltac:(done)) Hseg) as H.
      by destruct (setWalk next _ value).
Qed.

(** C10. Empty path segments are skipped: [getAtPath root ""] is the root
    itself; a doubled dot addresses the same value as a single one, for
    [getAtPath] and for [setAtPath] (in particular "a..b" and "a.b"); and
    [setAtPath] on a path that has only empty segments returns false and
    leaves the tree as it was. *)
Theorem empty_segments_skipped :
  (forall root : smap, getAtPath root "" = (VMap root, true)) /\
  (forall (root : smap) (p q : string),
      getAtPath root (p ++ ".." ++ q) = getAtPath root (p ++ "." ++ q)) /\
  (forall (root : smap) (p q : string) (v : node),
      setAtPath root (p ++ ".." ++ q) v = setAtPath root (p ++ "." ++ q) v) /\
  (forall root : smap, getAtPath root "a..b" = getAtPath root "a.b") /\
  (forall (root : smap) (p : string) (v : node),
      onlyEmptySegments p = true -> setAtPath root p v = (root, false)).
Proof.
  assert (Hsplit : forall p q : string,
             Str.SplitDot (p ++ ".." ++ q) = Str.SplitDot p ++ "" :: Str.SplitDot q).
  { intros p q. change (p ++ ".." ++ q)%string with (p ++ "." ++ ("." ++ q))%string.
    by rewrite !SplitDot_app. }
  assert (Hdots : forall (root : smap) (p q : string),
             getAtPath root (p ++ ".." ++ q) = getAtPath root (p ++ "." ++ q)).
  { intros root p q. unfold getAtPath. rewrite Hsplit, SplitDot_app.
    apply getWalk_skip_empty. }
  split; [|split; [|split; [|split]]].
  - reflexivity.
  - exact Hdots.
  - intros root p q v. unfold setAtPath. rewrite Hsplit, SplitDot_app.
    rewrite setWalk_skip_empty; [done|]. apply SplitDot_nonempty.
  - intros root. exact (Hdots root "a" "b").
  - intros root p v H. unfold setAtPath, onlyEmptySegments in *.
    by rewrite setWalk_only_empty.
Qed.

Lemma empty_segments_skipped_witness :
  setAtPath [("a", VInt 1)] " . ." (VString "x") = ([("a", VInt 1)], false).
Proof.
  apply (proj2 (proj2 (proj2 (proj2 empty_segments_skipped)))). reflexivity.
Defined.

(** [setAtPath] succeeds on every path that [getAtPath] resolves and whose
    last segment is not empty. *)
Lemma setAtPath_resolving (root : smap) (p seg : string) (v x : node) :
  getAtPath root p = (x, true) ->
  last (Str.SplitDot p) = Some seg ->
  Str.TrimSpace seg <> "" ->
  snd (setAtPath root p v) = true.
Proof.
  unfold getAtPath, setAtPath. intros Hget Hlast Hseg.
  pose proof (setWalk_resolving _ _ v _ _ Hget Hlast Hseg) as H.
  destruct (setWalk (VMap root) (Str.SplitDot p) v) as [n ok]. simpl in H. subst ok.
  by destruct n.
Qed.

(** When the loop of [setAtPath] succeeds: the last segment is not blank,
    and the segments before it lead [getAtPath] to a value that takes a
    value under it. *)
Lemma setWalk_ok (parts : list string) :
  forall (current value : node),
    snd (setWalk current parts value) = true <->
    exists seg,
      last parts = Some seg /\ Str.TrimSpace seg <> "" /\
      snd (getWalk current (removelast parts)) = true /\
      settable (fst (getWalk current (removelast parts))) (Str.TrimSpace seg) = true.
Proof.
  induction parts as [|part rest IH]; intros current value.
  { split; [done|]. by intros (seg & H & _). }
  destruct rest as [|part' rest'].
  - cbn [setWalk getWalk removelast last]. split.
    + destruct (String.eqb_spec (Str.TrimSpace part) "") as [E|E]; [done|].
      intros H. exists part. split; [done|]. split; [done|]. split; [done|].
      cbn [fst]. destruct current as [| | | | |m|m|l]; try done.
      cbn [settable]. by destruct (listIndex _ (length l)).
    + intros (seg & [= <-] & Hseg & _ & Hset). cbn [fst] in Hset.
      apply String.eqb_neq in Hseg. rewrite Hseg.
      destruct current as [| | | | |m|m|l]; try done.
      cbn [settable] in Hset. by destruct (listIndex _ (length l)).
  - assert (Hlast : last (part :: part' :: rest') = last (part' :: rest'))
      by apply last_cons_cons.
    assert (Hinit : removelast (part :: part' :: rest') = part :: removelast (part' :: rest'))
      by reflexivity.
    rewrite Hlast, Hinit. clear Hlast Hinit.
    remember (part' :: rest') as rest eqn:Erest.
    assert (Hmore : match rest with [] => true | _ :: _ => false end = false) by by subst.
    clear Erest. specialize (IH current value) as IHc.
    cbn [setWalk getWalk].
    destruct (String.eqb (Str.TrimSpace part) ""); [exact IHc|].
    destruct current as [| | | | |m|m|l];
      try (split; [done|by intros (seg & _ & _ & H & _)]).
    + rewrite Hmore.
      destruct (lookupKey _ m) as [next|]; [|split; [done|by intros (seg & _ & _ & H & _)]].
      rewrite <- (IH next value). by destruct (setWalk next _ value).
    + rewrite Hmore.
      destruct (lookupIKey _ m) as [next|]; [|split; [done|by intros (seg & _ & _ & H & _)]].
      rewrite <- (IH next value). by destruct (setWalk next _ value).
    + destruct (listIndex _ (length l)) as [idx|];
        [|split; [done|by intros (seg & _ & _ & H & _)]].
      rewrite Hmore.
      destruct (nth_error l idx) as [next|]; [|split; [done|by intros (seg & _ & _ & H & _)]].
      rewrite <- (IH next value). by destruct (setWalk next _ value).
Qed.

Lemma setAtPath_ok (root : smap) (p : string) (v : node) :
  snd (setAtPath root p v) = true <->
  exists seg,
    last (Str.SplitDot p) = Some seg /\ Str.TrimSpace seg <> "" /\
    snd (getWalk (VMap root) (removelast (Str.SplitDot p))) = true /\
    settable (fst (getWalk (VMap root) (removelast (Str.SplitDot p)))) (Str.TrimSpace seg) = true.
Proof.
  rewrite <- (setWalk_ok (Str.SplitDot p) (VMap root) v). unfold setAtPath.
  destruct (setWalk (VMap root) (Str.SplitDot p) v) as [n ok]. by destruct n.
Qed.

(** A path has no dot, or it is [parent.seg] for a last segment without a
    dot. *)
Lemma path_cases (p : string) :
  Str.SplitDot p = [p] \/
  exists parent seg, p = (parent ++ "." ++ seg)%string /\ Str.SplitDot seg = [seg].
Proof.
  induction p as [|c r IH]; [by left|].
  destruct IH as [IH|(parent & seg & -> & Hseg)].
  - cbn [Str.SplitDot]. rewrite IH. destruct (Ascii.eqb_spec c ".") as [->|Hc]; [|by left].
    right. by exists "", r.
  - right. by exists (String c parent), seg.
Qed.

(** C6, as the code has it.  [setAtPath] succeeds exactly when the last
    segment of the path is not blank and the path before it (the template
    itself, when the path has one segment) leads [getAtPath] to a map, or
    to a sequence of which the last segment is an index in range; every
    path is of one of these two forms.  So it succeeds on every path that
    [getAtPath] resolves and whose last segment is not blank, and under a
    missing last key of a map (which it creates), while a missing
    intermediate key makes it fail.  Whenever it succeeds, a following
    [getAtPath] on the same path returns the value and true; whenever it
    fails, the tree is left as it was. *)
Theorem setAtPath_then_getAtPath (root : smap) (p : string) (v : node) :
  let out := setAtPath root p v in
  (Str.SplitDot p = [p] \/
   exists parent seg, p = (parent ++ "." ++ seg)%string /\ Str.SplitDot seg = [seg]) /\
  (Str.SplitDot p = [p] -> (snd out = true <-> Str.TrimSpace p <> "")) /\
  (forall parent seg : string,
     p = (parent ++ "." ++ seg)%string -> Str.SplitDot seg = [seg] ->
     (snd out = true <->
      Str.TrimSpace seg <> "" /\
      snd (getAtPath root parent) = true /\
      settable (fst (getAtPath root parent)) (Str.TrimSpace seg) = true)) /\
  (forall (x : node) (seg : string),
     getAtPath root p = (x, true) ->
     last (Str.SplitDot p) = Some seg -> Str.TrimSpace seg <> "" ->
     snd out = true) /\
  (snd out = true -> getAtPath (fst out) p = (v, true)) /\
  (snd out = false -> fst out = root).
Proof.
  cbv zeta. split; [apply path_cases|]. split; [|split; [|split]].
  - intros Hp. rewrite setAtPath_ok, Hp. cbn [last removelast getWalk fst snd settable].
    split; [by intros (seg & [= <-] & H & _)|]. intros H. by exists p.
  - intros parent seg -> Hseg. rewrite setAtPath_ok, SplitDot_app, Hseg.
    rewrite last_snoc, removelast_last. unfold getAtPath. split.
    + by intros (seg' & [= <-] & H).
    + intros H. by exists seg.
  - intros x seg. apply setAtPath_resolving.
  - unfold setAtPath, getAtPath.
    destruct (setWalk (VMap root) (Str.SplitDot p) v) as [n' ok'] eqn:E.
    destruct (setWalk_VMap _ _ _ _ _ E) as [m' ->].
    cbn [fst snd]. split; intros ->.
    + by apply setWalk_getWalk in E.
    + apply setWalk_false_unchanged in E. by injection E.
Qed.

Lemma setAtPath_then_getAtPath_witness :
  snd (setAtPath [("a", VMap [])] "a.b" (VString "x")) = true /\
  getAtPath (fst (setAtPath [("a", VMap [])] "a.b" (VString "x"))) "a.b" = (VString "x", true).
Proof.
  pose proof (setAtPath_then_getAtPath [("a", VMap [])] "a.b" (VString "x")) as H.
  cbv zeta in H. destruct H as (_ & _ & Hok & _ & Hget & _).
  assert (Hs : snd (setAtPath [("a", VMap [])] "a.b" (VString "x")) = true).
  { apply (Hok "a" "b" eq_refl eq_refl). split; [vm_compute; discriminate|split; reflexivity]. }
  split; [exact Hs | exact (Hget Hs)].
Defined.

(** C6, as stated, fails: on the empty template the path "a.b" crosses no
    boundary, yet [setAtPath] returns false, sets nothing, and the following
    [getAtPath] does not return the value. *)
Lemma setAtPath_then_getAtPath_counterexample :
  setAtPath [] "a.b" (VString "x") = ([], false) /\
  getAtPath (fst (setAtPath [] "a.b" (VString "x"))) "a.b" <> (VString "x", true).
Proof. split; [reflexivity | discriminate]. Qed.

(** ** The view/action resolver *)

Lemma in_fourModes (v a : string) :
  In (v, a) fourModes <->
  (v = "list" \/ v = "single") /\ (a = "render" \/ a = "edit").
Proof.
  unfold fourModes; simpl. split.
  - intros [H|[H|[H|[H|[]]]]]; injection H as <- <-; auto.
  - intros [[-> | ->] [-> | ->]]; auto.
Qed.

Lemma knownView_spec (v : string) :
  knownView v = true <-> v = "" \/ v = "list" \/ v = "single".
Proof.
  unfold knownView. rewrite !orb_true_iff, !String.eqb_eq. tauto.
Qed.

Lemma knownAction_spec (a : string) :
  knownAction a = true <-> a = "" \/ a = "render" \/ a = "edit".
Proof.
  unfold knownAction. rewrite !orb_true_iff, !String.eqb_eq. tauto.
Qed.

(** C5, as the code has it.  The resolver returns a view or an action that
    is not empty as it is configured, trimmed and in lower case, without
    checking it; it replaces an empty view by [list] and an empty action by
    [render], and when both are empty it takes the pair of the legacy mode
    ([cms]: list and edit, [edit]: single and edit).  Hence it yields one
    of the four pairs of [{list, single} x {render, edit}] exactly when the
    configured view is empty, [list] or [single] and the configured action
    is empty, [render] or [edit]; [Render] takes its fifth branch exactly
    on the other inputs, and on each of the four pairs the routine of the
    pair. *)
Theorem resolveViewAction_four_modes (fields : Fields) :
  let view := folded (View fields) in
  let action := folded (Action fields) in
  let mode := folded (Mode fields) in
  (In (resolveViewAction fields) fourModes <->
   knownView view = true /\ knownAction action = true) /\
  (Render fields = UnknownViewAction <-> ~ In (resolveViewAction fields) fourModes) /\
  (view <> "" -> fst (resolveViewAction fields) = view) /\
  (action <> "" -> snd (resolveViewAction fields) = action) /\
  (view = "" -> action <> "" -> fst (resolveViewAction fields) = "list") /\
  (view <> "" -> action = "" -> snd (resolveViewAction fields) = "render") /\
  (view = "" -> action = "" ->
   resolveViewAction fields =
     if String.eqb mode "cms" then ("list", "edit")
     else if String.eqb mode "edit" then ("single", "edit")
     else ("list", "render")) /\
  (resolveViewAction fields = ("list", "edit") -> Render fields = RenderListEdit) /\
  (resolveViewAction fields = ("single", "edit") -> Render fields = RenderSingleEdit) /\
  (resolveViewAction fields = ("list", "render") -> Render fields = RenderListRender) /\
  (resolveViewAction fields = ("single", "render") -> Render fields = RenderSingleRender).
Proof.
  cbv zeta.
  assert (Hresolve :
    resolveViewAction fields =
      let v := folded (View fields) in
      let a := folded (Action fields) in
      let mode := folded (Mode fields) in
      if String.eqb v "" then
        if String.eqb a "" then
          if String.eqb mode "cms" then ("list", "edit")
          else if String.eqb mode "edit" then ("single", "edit")
          else ("list", "render")
        else ("list", a)
      else if String.eqb a "" then (v, "render") else (v, a)).
  { unfold resolveViewAction, folded.
    generalize (Str.ToLower (Str.TrimSpace (View fields))) as v.
    generalize (Str.ToLower (Str.TrimSpace (Action fields))) as a.
    generalize (Str.ToLower (Str.TrimSpace (Mode fields))) as mode.
    intros mode a v. cbv zeta.
    destruct (String.eqb_spec v "") as [->|Hv];
      destruct (String.eqb_spec a "") as [->|Ha]; cbn.
    - destruct (String.eqb_spec mode "") as [->|Hm]; [done|]. cbn.
      destruct (String.eqb_spec mode "render") as [->|Hr]; [done|].
      destruct (String.eqb mode "cms"); [done|].
      by destruct (String.eqb mode "edit").
    - apply String.eqb_neq in Ha. by rewrite Ha.
    - apply String.eqb_neq in Hv. by rewrite Hv.
    - apply String.eqb_neq in Hv. apply String.eqb_neq in Ha. by rewrite Hv, Ha. }
  assert (Hrender : Render fields = UnknownViewAction <->
                    ~ In (resolveViewAction fields) fourModes).
  { unfold Render. destruct (resolveViewAction fields) as [rv ra].
    rewrite in_fourModes.
    destruct (String.eqb_spec rv "list") as [Hl|Hl],
             (String.eqb_spec rv "single") as [Hs|Hs],
             (String.eqb_spec ra "edit") as [He|He],
             (String.eqb_spec ra "render") as [Hr|Hr];
      simpl; try (exfalso; congruence);
      (split; [first [discriminate | tauto] | first [reflexivity | tauto]]). }
  assert (Hroutes :
    (resolveViewAction fields = ("list", "edit") -> Render fields = RenderListEdit) /\
    (resolveViewAction fields = ("single", "edit") -> Render fields = RenderSingleEdit) /\
    (resolveViewAction fields = ("list", "render") -> Render fields = RenderListRender) /\
    (resolveViewAction fields = ("single", "render") -> Render fields = RenderSingleRender)).
  { unfold Render. by repeat split; intros ->. }
  split; [|split; [exact Hrender|]].
  - rewrite Hresolve. cbv zeta.
    generalize (folded (View fields)) as v. generalize (folded (Action fields)) as a.
    generalize (folded (Mode fields)) as mode. intros mode a v.
    rewrite knownView_spec, knownAction_spec.
    destruct (String.eqb_spec v "") as [->|Hv];
      destruct (String.eqb_spec a "") as [->|Ha].
    + destruct (String.eqb mode "cms"); [rewrite in_fourModes; intuition|].
      destruct (String.eqb mode "edit"); rewrite in_fourModes; intuition.
    + rewrite in_fourModes. intuition congruence.
    + rewrite in_fourModes. intuition congruence.
    + rewrite in_fourModes. intuition congruence.
  - split; [|split; [|split; [|split; [|split; [|exact Hroutes]]]]];
      rewrite Hresolve; cbv zeta;
      generalize (folded (View fields)) as v; generalize (folded (Action fields)) as a;
      generalize (folded (Mode fields)) as mode; intros mode a v.
    + intros Hv. apply String.eqb_neq in Hv. rewrite Hv. by destruct (String.eqb a "").
    + intros Ha. apply String.eqb_neq in Ha. rewrite Ha. by destruct (String.eqb v "").
    + intros -> Ha. apply String.eqb_neq in Ha. by rewrite Ha.
    + intros Hv ->. apply String.eqb_neq in Hv. by rewrite Hv.
    + by intros -> ->.
Qed.

(** C5, as stated, fails: with the view "grid" the resolver yields the pair
    ("grid", "render"), none of the four, and [Render] reaches its
    "unknown view/action" branch. *)
Lemma resolveViewAction_counterexample :
  let fields := {| Template := VNil; View := "grid"; Action := ""; Mode := "";
                   Inline := false; InlineParam := ""; Seed := false;
                   RecordParam := ""; UploadDir := ""; Upload := "" |} in
  resolveViewAction fields = ("grid", "render") /\
  ~ In (resolveViewAction fields) fourModes /\
  Render fields = UnknownViewAction.
Proof.
  cbv zeta. split; [reflexivity|]. split; [|reflexivity].
  change (~ In ("grid", "render") fourModes).
  rewrite in_fourModes. intros [[H|H] _]; discriminate H.
Qed.

(** ** The record store *)

Lemma maxRowid_bound (m : gmap Z recordRow) (id : Z) (r : recordRow) :
  m !! id = Some r -> (id <= maxRowid m)%Z.
Proof.
  intros H. apply elem_of_map_to_list in H. unfold maxRowid.
  induction (map_to_list m) as [|[k x] l IH]; [by apply elem_of_nil in H|].
  rewrite fmap_cons. cbn [foldr fst].
  apply elem_of_cons in H as [[= <- <-]|H]; [lia|].
  specialize (IH H). lia.
Qed.

(** The id [INSERT INTO records] allocates is not in use. *)
Lemma insertRecord_fresh (db : DB) :
  records db !! (lastID db + 1)%Z = None.
Proof.
  unfold lastID. destruct (records db !! _) as [r|] eqn:E; [|done].
  apply maxRowid_bound in E. lia.
Qed.

Lemma lastID_nonneg (db : DB) : (0 <= maxRowid (records db) <= lastID db)%Z.
Proof.
  unfold lastID. assert (0 <= maxRowid (records db))%Z; [|lia].
  unfold maxRowid. induction (fst <$> map_to_list (records db)); simpl; lia.
Qed.

Lemma fieldRows_putFieldRow (db : DB) (id : Z) (k v : string) :
  fieldRows (putFieldRow db id k v) id = <[k := v]> (fieldRows db id).
Proof. unfold fieldRows at 1, putFieldRow; simpl. by rewrite lookup_insert_eq. Qed.

Lemma fieldRows_putFieldRow_ne (db : DB) (id id' : Z) (k v : string) :
  id' <> id -> fieldRows (putFieldRow db id k v) id' = fieldRows db id'.
Proof. intros H. unfold fieldRows, putFieldRow; simpl. by rewrite lookup_insert_ne. Qed.

(** [upsertFields] on keys that have no row yet: every INSERT succeeds, the
    rows of the record gain the entries, nothing else changes. *)
Lemma upsertEntries_fresh (id : Z) (entries : list (string * string)) :
  forall db : DB,
    NoDup entries.*1 ->
    (forall k, k ∈ entries.*1 -> fieldRows db id !! k = None) ->
    exists db',
      upsertEntries id entries db = inr (tt, db') /\
      records db' = records db /\
      sequence db' = sequence db /\
      fieldRows db' id = list_to_map entries ∪ fieldRows db id /\
      (forall id', id' <> id -> fieldRows db' id' = fieldRows db id').
Proof.
  induction entries as [|[k v] rest IH]; intros db Hnd Hfree.
  - exists db. simpl. rewrite (left_id_L ∅ (∪)). by repeat split.
  - apply NoDup_cons in Hnd as [Hk Hnd].
    cbn [upsertEntries]. unfold txBind, insertFieldRow.
    rewrite (Hfree k) by (simpl; apply elem_of_cons; by left).
    destruct (IH (putFieldRow db id k v) Hnd) as (db' & Hrun & Hrec & Hseq & Hrows & Hother).
    { intros k' Hk'. rewrite fieldRows_putFieldRow, lookup_insert_ne.
      - apply Hfree. simpl. apply elem_of_cons. by right.
      - intros ->. by apply Hk. }
    exists db'. rewrite Hrun. repeat split; try done.
    + rewrite Hrows, fieldRows_putFieldRow, list_to_map_cons.
      rewrite <- insert_union_l, insert_union_r; [done|].
      by apply not_elem_of_list_to_map_1.
    + intros id' Hne. rewrite Hother by done. by apply fieldRows_putFieldRow_ne.
Qed.

Lemma upsertFields_fresh (id : Z) (values : gmap string string) (db : DB) :
  fieldRows db id = ∅ ->
  exists db',
    upsertFields id values db = inr (tt, db') /\
    records db' = records db /\
    sequence db' = sequence db /\
    fieldRows db' id = values /\
    (forall id', id' <> id -> fieldRows db' id' = fieldRows db id').
Proof.
  intros Hempty. unfold upsertFields.
  destruct (upsertEntries_fresh id (map_to_list values) db) as (db' & H1 & H2 & H3 & H4 & H5).
  - apply NoDup_fst_map_to_list.
  - intros k _. by rewrite Hempty, lookup_empty.
  - exists db'. repeat split; try done.
    by rewrite H4, Hempty, list_to_map_to_list, (right_id_L ∅ (∪)).
Qed.

Lemma fieldRows_deleted (db : DB) (id : Z) :
  fieldRows {| records := records db;
               record_fields := delete id (record_fields db);
               sequence := sequence db |} id = ∅.
Proof. unfold fieldRows; simpl. by rewrite lookup_delete_eq. Qed.

(** No statement of [updateRecord] and of [deleteRecord] can fail: whatever
    the id and the type, they commit and return no error. *)
Lemma updateRecord_succeeds (now : Z) (db : DB) (id : Z) (ct : string)
    (values : gmap string string) :
  exists db',
    updateRecord now db id ct values = (db', inr tt) /\
    fieldRows db' id = values /\
    (forall id', id' <> id -> fieldRows db' id' = fieldRows db id') /\
    (forall r, records db !! id = Some r -> typeMatches ct r = true ->
               records db' !! id = Some {| rtype := rtype r; created_at := created_at r;
                                            updated_at := now |}) /\
    (hasRecord db id ct = false -> records db' = records db) /\
    (forall rid, rtype <$> records db' !! rid = rtype <$> records db !! rid).
Proof.
  unfold updateRecord, transaction, txBind, shadowed.
  destruct (touchRecord now id ct db) as [e|[rows db1]] eqn:Et.
  { unfold touchRecord in Et. destruct (records db !! id) as [r|]; [|done].
    by destruct (typeMatches ct r). }
  assert (Hfields : record_fields db1 = record_fields db).
  { unfold touchRecord in Et. destruct (records db !! id) as [r|]; [|by injection Et as <- <-].
    destruct (typeMatches ct r); by injection Et as <- <-. }
  cbn [deleteFieldRows].
  destruct (upsertFields_fresh id values _ (fieldRows_deleted db1 id))
    as (db' & Hrun & Hrec & Hseq & Hrows & Hother).
  rewrite Hrun. exists db'. repeat split; try done.
  - intros id' Hne. rewrite Hother by done. unfold fieldRows; simpl.
    by rewrite lookup_delete_ne, Hfields.
  - intros r Hr Hm. rewrite Hrec; simpl. unfold touchRecord in Et.
    rewrite Hr, Hm in Et. injection Et as <- <-. simpl. by rewrite lookup_insert_eq.
  - intros Hno. rewrite Hrec; simpl. unfold touchRecord in Et. unfold hasRecord in Hno.
    destruct (records db !! id) as [r|]; [|by injection Et as <- <-].
    rewrite Hno in Et. by injection Et as <- <-.
  - intros rid. rewrite Hrec; simpl. unfold touchRecord in Et.
    destruct (records db !! id) as [r|] eqn:Er; [|by injection Et as <- <-].
    destruct (typeMatches ct r); [|by injection Et as <- <-].
    injection Et as <- <-. simpl.
    destruct (decide (rid = id)) as [->|Hne].
    + by rewrite lookup_insert_eq, Er.
    + by rewrite lookup_insert_ne.
Qed.

Lemma deleteRecord_succeeds (db : DB) (id : Z) (ct : string) :
  snd (deleteRecord db id ct) = inr tt.
Proof.
  unfold deleteRecord, transaction, txBind, shadowed. cbn [deleteFieldRows].
  unfold deleteRecordRow; simpl.
  destruct (records db !! id) as [r|]; [|done]. by destruct (typeMatches ct r).
Qed.

(** C1. For every existing record (of the type, when a type is given),
    [updateRecord] replaces the whole field set: it returns no error and a
    following [fetchRecordByID] returns exactly the supplied values, so a
    field left out of them is lost. *)
Theorem updateRecord_replaces_fields (now : Z) (db : DB) (id : Z) (ct : string)
    (values : gmap string string) :
  id <> 0%Z ->
  hasRecord db id ct = true ->
  snd (updateRecord now db id ct values) = inr tt /\
  fetchRecordByID (fst (updateRecord now db id ct values)) id ct
    = inr {| ID := id; Fields_ := values |}.
Proof.
  intros Hid Hhas.
  destruct (updateRecord_succeeds now db id ct values) as (db' & Hrun & Hrows & _ & Hrec & _ & _).
  rewrite Hrun; simpl. split; [done|].
  unfold hasRecord in Hhas. destruct (records db !! id) as [r|] eqn:Er; [|done].
  unfold fetchRecordByID, fetchRecordFields.
  apply Z.eqb_neq in Hid as ->. rewrite (Hrec r eq_refl Hhas).
  unfold typeMatches in *; simpl. by rewrite Hhas, Hrows.
Qed.

Lemma updateRecord_replaces_fields_witness :
  fetchRecordByID (fst (updateRecord 5 sampleDB 1 "article" {[ "title" := "C" ]})) 1 "article"
  = inr {| ID := 1; Fields_ := {[ "title" := "C" ]} |}.
Proof.
  exact (proj2 (updateRecord_replaces_fields 5 sampleDB 1 "article" {[ "title" := "C" ]}
                  ltac:(discriminate) eq_refl)).
Defined.

(** C2. On the code the claim fails: [updateRecord] and [deleteRecord]
    never inspect the number of rows their statement on [records] affected,
    so for an id without a record, or with a record of another type, they
    return no error.  [updateRecord] even stores the supplied fields under
    that id, and [deleteRecord] removes the fields of a record of another
    type while the record stays. *)
Theorem update_delete_ignore_missing_record :
  (forall (now : Z) (db : DB) (id : Z) (ct : string) (values : gmap string string),
      snd (updateRecord now db id ct values) = inr tt /\
      snd (deleteRecord db id ct) = inr tt) /\
  (hasRecord emptyDB 42 "" = false /\
   snd (updateRecord 5 emptyDB 42 "" {[ "title" := "C" ]}) = inr tt /\
   fieldRows (fst (updateRecord 5 emptyDB 42 "" {[ "title" := "C" ]})) 42 = {[ "title" := "C" ]} /\
   snd (deleteRecord emptyDB 42 "") = inr tt) /\
  (hasRecord sampleDB 1 "page" = false /\
   snd (updateRecord 5 sampleDB 1 "page" {[ "title" := "C" ]}) = inr tt /\
   fieldRows (fst (updateRecord 5 sampleDB 1 "page" {[ "title" := "C" ]})) 1 = {[ "title" := "C" ]} /\
   snd (deleteRecord sampleDB 1 "page") = inr tt /\
   fieldRows (fst (deleteRecord sampleDB 1 "page")) 1 = ∅ /\
   hasRecord (fst (deleteRecord sampleDB 1 "page")) 1 "article" = true).
Proof.
  assert (Hgen : forall (now : Z) (db : DB) (id : Z) (ct : string) (values : gmap string string),
             snd (updateRecord now db id ct values) = inr tt /\
             snd (deleteRecord db id ct) = inr tt).
  { intros now db id ct values. split; [|apply deleteRecord_succeeds].
    destruct (updateRecord_succeeds now db id ct values) as (db' & -> & _). done. }
  split; [exact Hgen|]. split.
  - split; [reflexivity|]. split; [exact (proj1 (Hgen _ _ _ _ _))|]. split.
    + destruct (updateRecord_succeeds 5 emptyDB 42 "" {[ "title" := "C" ]})
        as (db' & -> & H & _). exact H.
    + exact (proj2 (Hgen 0%Z _ _ _ ∅)).
  - split; [reflexivity|]. split; [exact (proj1 (Hgen _ _ _ _ _))|]. split.
    + destruct (updateRecord_succeeds 5 sampleDB 1 "page" {[ "title" := "C" ]})
        as (db' & -> & H & _). exact H.
    + split; [exact (proj2 (Hgen 0%Z _ _ _ ∅))|]. split; vm_compute; reflexivity.
Qed.

(** The outcomes of [updateRecordField].  The record exists and the
    arguments are valid: the field row is written after the timestamp is
    touched.  No record has the id (and the type): "record not found" is
    returned, and the transaction is left open.  The id is 0, or the bind
    key is blank: the error is returned before a transaction is begun. *)
Lemma updateRecordField_cases (now : Z) (db : DB) (id : Z) (ct bindKey value : string) :
  (exists r,
      id <> 0%Z /\ Str.TrimSpace bindKey <> "" /\
      records db !! id = Some r /\ typeMatches ct r = true /\
      updateRecordField now db id ct bindKey value =
        (putFieldRow
           {| records := <[id := {| rtype := rtype r; created_at := created_at r;
                                    updated_at := now |}]> (records db);
              record_fields := record_fields db;
              sequence := sequence db |} id bindKey value, inr tt)) \/
  (id <> 0%Z /\ Str.TrimSpace bindKey <> "" /\ hasRecord db id ct = false /\
   updateRecordField now db id ct bindKey value =
     (db, inl {| Err := ErrRecordNotFound; TxOpen := true |})) \/
  (id = 0%Z /\
   updateRecordField now db id ct bindKey value =
     (db, inl {| Err := ErrRecordIDRequired; TxOpen := false |})) \/
  (id <> 0%Z /\ Str.TrimSpace bindKey = "" /\
   updateRecordField now db id ct bindKey value =
     (db, inl {| Err := ErrBindKeyRequired; TxOpen := false |})).
Proof.
  unfold updateRecordField, hasRecord.
  destruct (Z.eqb_spec id 0) as [Hz|Hz]; [right; right; left; done|].
  destruct (String.eqb_spec (Str.TrimSpace bindKey) "") as [Hb|Hb];
    [right; right; right; done|].
  unfold transaction, txBind, assigned, returned, shadowed, touchRecord.
  destruct (records db !! id) as [r|] eqn:Er; [|right; left; done].
  destruct (typeMatches ct r) eqn:Em; [|right; left; done].
  left. exists r. repeat split; try done.
  cbn [Nat.eqb]. unfold updateFieldRow, insertFieldRow.
  change (fieldRows {| records := _; record_fields := record_fields db;
                       sequence := sequence db |} id) with (fieldRows db id).
  destruct (fieldRows db id !! bindKey) as [old|] eqn:Eold; cbn [Nat.eqb]; [done|].
  change (fieldRows {| records := _; record_fields := record_fields db;
                       sequence := sequence db |} id) with (fieldRows db id).
  by rewrite Eold.
Qed.

(** C7. [updateRecordField] changes at most the named field of the record:
    the rows of every other record, every other field of the record, and the
    ids and types in [records] stay as they were.  On an existing record (of
    the type, when one is given) it returns no error and the record's fields
    are the old ones with the named field set to the value.  When no such
    record exists it returns "record not found" and no row is changed; but
    the store is not left as it was: at this [return] the variable [err]
    that the deferred function reads is [nil], so no rollback is run and the
    transaction that was begun stays open.  The two errors on the arguments
    (id 0, blank bind key) are returned before a transaction is begun. *)
Theorem updateRecordField_frame (now : Z) (db : DB) (id : Z) (ct bindKey value : string) :
  let db' := fst (updateRecordField now db id ct bindKey value) in
  let res := snd (updateRecordField now db id ct bindKey value) in
  (forall rid, rid <> id ->
     fieldRows db' rid = fieldRows db rid /\ records db' !! rid = records db !! rid) /\
  (forall k, k <> bindKey -> fieldRows db' id !! k = fieldRows db id !! k) /\
  (forall rid, rtype <$> records db' !! rid = rtype <$> records db !! rid) /\
  (id <> 0%Z -> Str.TrimSpace bindKey <> "" -> hasRecord db id ct = true ->
     res = inr tt /\ fieldRows db' id = <[bindKey := value]> (fieldRows db id)) /\
  (id <> 0%Z -> Str.TrimSpace bindKey <> "" -> hasRecord db id ct = false ->
     db' = db /\ res = inl {| Err := ErrRecordNotFound; TxOpen := true |}) /\
  (id = 0%Z -> db' = db /\ res = inl {| Err := ErrRecordIDRequired; TxOpen := false |}) /\
  (id <> 0%Z -> Str.TrimSpace bindKey = "" ->
     db' = db /\ res = inl {| Err := ErrBindKeyRequired; TxOpen := false |}).
Proof.
  cbv zeta.
  destruct (updateRecordField_cases now db id ct bindKey value)
    as [(r & Hz & Hb & Er & Em & ->)|[(Hz & Hb & Hno & ->)|[(Hz & ->)|(Hz & Hb & ->)]]];
    cbn [fst snd].
  - split; [|split; [|split; [|split; [|split; [|split]]]]].
    + intros rid Hne. rewrite fieldRows_putFieldRow_ne by done. split; [done|].
      simpl. by rewrite lookup_insert_ne.
    + intros k Hk. by rewrite fieldRows_putFieldRow, lookup_insert_ne.
    + intros rid. simpl. destruct (decide (rid = id)) as [->|Hne].
      * by rewrite lookup_insert_eq, Er.
      * by rewrite lookup_insert_ne.
    + intros _ _ _. split; [done|]. by rewrite fieldRows_putFieldRow.
    + unfold hasRecord. rewrite Er, Em. discriminate.
    + done.
    + done.
  - repeat split; try done; congruence.
  - repeat split; try done; congruence.
  - repeat split; try done; congruence.
Qed.

Lemma updateRecordField_frame_witness :
  fieldRows (fst (updateRecordField 5 sampleDB 1 "article" "body" "X")) 1
  = <["body" := "X"]> (fieldRows sampleDB 1) /\
  updateRecordField 5 sampleDB 9 "article" "body" "X"
  = (sampleDB, inl {| Err := ErrRecordNotFound; TxOpen := true |}).
Proof.
  split.
  - pose proof (updateRecordField_frame 5 sampleDB 1 "article" "body" "X") as H.
    cbv zeta in H. destruct H as (_ & _ & _ & H & _).
    apply H; [discriminate | discriminate | reflexivity].
  - pose proof (updateRecordField_frame 5 sampleDB 9 "article" "body" "X") as H.
    cbv zeta in H. destruct H as (_ & _ & _ & _ & H & _).
    destruct (H ltac:(discriminate) ltac:(discriminate) eq_refl) as [H1 H2].
    rewrite (surjective_pairing (updateRecordField 5 sampleDB 9 "article" "body" "X")).
    by rewrite H1, H2.
Defined.

(** *** Creating a record *)

(** [createRecord], statement by statement: the INSERT into [records] fails
    when the ids are used up, and the transaction is rolled back; an INSERT
    of [upsertFields] fails, and the transaction is left open, since its
    error is held by the [err] of the [if] statement; or the transaction is
    committed. *)
Lemma createRecord_cases (now : Z) (db : DB) (ct : string) (values : gmap string string) :
  createRecord now db ct values =
    if (maxInt64 <=? lastID db)%Z then (db, inl {| Err := ErrFull; TxOpen := false |})
    else
      match upsertFields (lastID db + 1) values
              {| records :=
                   <[(lastID db + 1)%Z :=
                       {| rtype := ct; created_at := now; updated_at := now |}]> (records db);
                 record_fields := record_fields db;
                 sequence := (lastID db + 1)%Z |} with
      | inl e => (db, inl {| Err := e; TxOpen := true |})
      | inr (_, db') => (db', inr (lastID db + 1)%Z)
      end.
Proof.
  unfold createRecord, transaction, txBind, assigned, shadowed, insertRecord, txRet.
  destruct (maxInt64 <=? lastID db)%Z; [done|].
  by destruct (upsertFields _ values _) as [e|[[] db']].
Qed.

(** A failing INSERT among those of [upsertFields]: a key of the values has
    a row under the id already. *)
Lemma upsertEntries_fails (id : Z) (entries : list (string * string)) :
  forall db : DB,
    NoDup entries.*1 ->
    (exists k, k ∈ entries.*1 /\ is_Some (fieldRows db id !! k)) ->
    upsertEntries id entries db = inl ErrConstraint.
Proof.
  induction entries as [|[k v] rest IH]; intros db Hnd (k' & Hin & Hsome).
  - by apply elem_of_nil in Hin.
  - apply NoDup_cons in Hnd as [Hk Hnd].
    cbn [upsertEntries]. unfold txBind, insertFieldRow.
    destruct (fieldRows db id !! k) as [x|] eqn:Ek; [done|].
    apply IH; [done|]. simpl in Hin. apply elem_of_cons in Hin as [->|Hin].
    + rewrite Ek in Hsome. by destruct Hsome.
    + exists k'. split; [done|]. rewrite fieldRows_putFieldRow, lookup_insert_ne; [done|].
      intros ->. by apply Hk.
Qed.

(** [createRecord] when ids are left and no key of the values has a row
    under the next id: it returns that id, adds the row of the record and
    the supplied field rows, and changes nothing else. *)
Lemma createRecord_ok (now : Z) (db : DB) (ct : string) (values : gmap string string) :
  (lastID db < maxInt64)%Z ->
  (forall k, is_Some (values !! k) -> fieldRows db (lastID db + 1) !! k = None) ->
  exists db',
    createRecord now db ct values = (db', inr (lastID db + 1)%Z) /\
    records db !! (lastID db + 1)%Z = None /\
    records db' =
      <[(lastID db + 1)%Z := {| rtype := ct; created_at := now; updated_at := now |}]>
        (records db) /\
    sequence db' = (lastID db + 1)%Z /\
    fieldRows db' (lastID db + 1) = values ∪ fieldRows db (lastID db + 1) /\
    (forall id', id' <> (lastID db + 1)%Z -> fieldRows db' id' = fieldRows db id').
Proof.
  intros Hids Hfree. rewrite createRecord_cases.
  apply Z.leb_gt in Hids as ->.
  set (id := (lastID db + 1)%Z) in *.
  set (db1 := {| records := _; record_fields := record_fields db; sequence := id |}).
  destruct (upsertEntries_fresh id (map_to_list values) db1)
    as (db' & Hrun & Hrec & Hseq & Hrows & Hother).
  { apply NoDup_fst_map_to_list. }
  { intros k Hk. apply list_elem_of_fmap in Hk as [[k' v] [-> Hin]].
    apply elem_of_map_to_list in Hin. apply (Hfree k'). by exists v. }
  unfold upsertFields. rewrite Hrun. exists db'.
  split; [done|]. split; [apply insertRecord_fresh|]. split; [done|]. split; [done|].
  split; [|done]. by rewrite Hrows, list_to_map_to_list.
Qed.

(** [createRecord] when a key of the values has a row under the next id:
    the constraint error of the INSERT is returned, no row is committed,
    and the transaction is left open. *)
Lemma createRecord_collision (now : Z) (db : DB) (ct : string) (values : gmap string string) :
  (lastID db < maxInt64)%Z ->
  (exists k, is_Some (values !! k) /\ is_Some (fieldRows db (lastID db + 1) !! k)) ->
  createRecord now db ct values = (db, inl {| Err := ErrConstraint; TxOpen := true |}).
Proof.
  intros Hids (k & [v Hv] & Hrow). rewrite createRecord_cases.
  apply Z.leb_gt in Hids as ->. unfold upsertFields.
  rewrite (upsertEntries_fails (lastID db + 1) (map_to_list values)); [done| |].
  - apply NoDup_fst_map_to_list.
  - exists k. split; [|done]. apply list_elem_of_fmap. exists (k, v).
    split; [done|]. by apply elem_of_map_to_list.
Qed.

(** Whatever [createRecord] returns, the database after it is the one
    before or the one with the new record. *)
Lemma createRecord_failure (now : Z) (db : DB) (ct : string) (values : gmap string string)
    (db' : DB) (f : failure) :
  createRecord now db ct values = (db', inl f) -> db' = db.
Proof.
  rewrite createRecord_cases. destruct (maxInt64 <=? lastID db)%Z; [by intros [= <- _]|].
  destruct (upsertFields _ values _) as [e|[[] db2]]; [by intros [= <- _]|done].
Qed.

(** On a store without orphan rows no field row lies under the next id. *)
Lemma noOrphans_next (db : DB) :
  noOrphans db -> fieldRows db (lastID db + 1) = ∅.
Proof. intros Hno. apply Hno, insertRecord_fresh. Qed.

Lemma countRecords_insert (db db' : DB) (id : Z) (ct : string) (c u : Z) :
  records db !! id = None ->
  records db' = <[id := {| rtype := ct; created_at := c; updated_at := u |}]> (records db) ->
  countRecords db' ct = S (countRecords db ct).
Proof.
  intros Hfresh Hrec. unfold countRecords. rewrite Hrec.
  destruct (String.eqb (Str.TrimSpace ct) "").
  - by apply map_size_insert_None.
  - rewrite map_filter_insert_True by done.
    apply map_size_insert_None. apply map_lookup_filter_None. by left.
Qed.

Lemma countRecords_empty (db : DB) (ct : string) :
  records db = ∅ -> countRecords db ct = O.
Proof.
  intros Hempty. unfold countRecords. rewrite Hempty, map_filter_empty, map_size_empty.
  by destruct (String.eqb _ _).
Qed.

(** *** Seeding *)

Lemma defaultValuesFromTemplate_lookup (Sprintf_v : node -> string) (template : smap)
    (binds : gmap string bindTarget) (bindKey : string) :
  defaultValuesFromTemplate Sprintf_v template binds !! bindKey =
  (fun target : bindTarget =>
     if snd (getAtPath template (Path target))
     then Sprintf_v (fst (getAtPath template (Path target)))
     else "") <$> binds !! bindKey.
Proof.
  unfold defaultValuesFromTemplate. rewrite lookup_fmap.
  destruct (binds !! bindKey) as [target|]; [|done]. simpl.
  by destruct (getAtPath template (Path target)).
Qed.

Lemma ensureSeed_counted (Sprintf_v : node -> string) (now : Z) (db : DB)
    (template : smap) (binds : gmap string bindTarget) (ct : string) :
  (0 < countRecords db ct)%nat ->
  ensureSeed Sprintf_v now db template binds ct = (db, None).
Proof. intros H. unfold ensureSeed. apply Nat.ltb_lt in H. by rewrite H. Qed.

(** The first call of [ensureSeed] on a store in which [countRecords] finds
    no record of the type, when ids are left and no bound field has a row
    under the next id. *)
Lemma ensureSeed_creates (Sprintf_v : node -> string) (now : Z) (db : DB)
    (template : smap) (binds : gmap string bindTarget) (ct : string) :
  countRecords db ct = O ->
  (lastID db < maxInt64)%Z ->
  (forall key, is_Some (binds !! key) -> fieldRows db (lastID db + 1) !! key = None) ->
  exists db',
    ensureSeed Sprintf_v now db template binds ct = (db', None) /\
    records db !! (lastID db + 1)%Z = None /\
    records db' =
      <[(lastID db + 1)%Z := {| rtype := ct; created_at := now; updated_at := now |}]>
        (records db) /\
    fieldRows db' (lastID db + 1) =
      defaultValuesFromTemplate Sprintf_v template binds ∪ fieldRows db (lastID db + 1) /\
    (forall id', id' <> (lastID db + 1)%Z -> fieldRows db' id' = fieldRows db id') /\
    countRecords db' ct = 1%nat.
Proof.
  intros Hcount Hids Hfree.
  destruct (createRecord_ok now db ct (defaultValuesFromTemplate Sprintf_v template binds) Hids)
    as (db' & Hrun & Hfresh & Hrec & _ & Hrows & Hother).
  { intros k Hk. apply Hfree. unfold defaultValuesFromTemplate in Hk.
    rewrite lookup_fmap in Hk. by apply fmap_is_Some in Hk. }
  exists db'. unfold ensureSeed, createRecordFromTemplate. rewrite Hcount, Hrun. cbn [Nat.ltb Nat.leb].
  repeat split; try done.
  rewrite (countRecords_insert db db' _ ct now now Hfresh Hrec). by rewrite Hcount.
Qed.

(** C8, as the code has it.  The values of the seed are the ones the
    template holds at the bound paths.  On a store in which [countRecords]
    finds no record of the type, [ensureSeed] creates exactly one record,
    of that type and under the next id, when ids are left and no bound field
    has a row under that id: the record then holds the values, beside the
    rows that lay under the id, and nothing else is touched; a second call
    changes nothing.  When a bound field has a row under the next id the
    seeding fails with the constraint error, creates nothing and leaves its
    transaction open; when the ids are used up it fails as well.  When
    [countRecords] finds a record, [ensureSeed] leaves the store as it is.
    No row lies under the next id on a store without orphan rows, so two
    calls on an empty store leave exactly one record, which holds the
    values. *)
Theorem ensureSeed_idempotent (Sprintf_v : node -> string) (now1 now2 : Z) (db : DB)
    (template : smap) (binds : gmap string bindTarget) (ct : string) :
  let values := defaultValuesFromTemplate Sprintf_v template binds in
  let id := (lastID db + 1)%Z in
  let first := ensureSeed Sprintf_v now1 db template binds ct in
  let second := ensureSeed Sprintf_v now2 (fst first) template binds ct in
  (forall key,
     values !! key =
     (fun target : bindTarget =>
        if snd (getAtPath template (Path target))
        then Sprintf_v (fst (getAtPath template (Path target)))
        else "") <$> binds !! key) /\
  (countRecords db ct = O -> (lastID db < maxInt64)%Z ->
   (forall key, is_Some (binds !! key) -> fieldRows db id !! key = None) ->
     snd first = None /\
     records db !! id = None /\
     records (fst first) =
       <[id := {| rtype := ct; created_at := now1; updated_at := now1 |}]> (records db) /\
     fieldRows (fst first) id = values ∪ fieldRows db id /\
     (forall id', id' <> id -> fieldRows (fst first) id' = fieldRows db id') /\
     countRecords (fst first) ct = 1%nat /\
     second = (fst first, None)) /\
  (countRecords db ct = O -> (lastID db < maxInt64)%Z ->
   (exists key, is_Some (binds !! key) /\ is_Some (fieldRows db id !! key)) ->
     first = (db, Some {| Err := ErrConstraint; TxOpen := true |})) /\
  (countRecords db ct = O -> (maxInt64 <= lastID db)%Z ->
     first = (db, Some {| Err := ErrFull; TxOpen := false |})) /\
  ((0 < countRecords db ct)%nat -> first = (db, None) /\ second = (db, None)) /\
  (noOrphans db -> fieldRows db id = ∅) /\
  (records db = ∅ -> record_fields db = ∅ -> (sequence db < maxInt64)%Z ->
     snd first = None /\ second = (fst first, None) /\
     records (fst second) =
       {[ id := {| rtype := ct; created_at := now1; updated_at := now1 |} ]} /\
     fieldRows (fst second) id = values).
Proof.
  cbv zeta.
  assert (Hsuccess :
    countRecords db ct = O -> (lastID db < maxInt64)%Z ->
    (forall key, is_Some (binds !! key) -> fieldRows db (lastID db + 1) !! key = None) ->
    snd (ensureSeed Sprintf_v now1 db template binds ct) = None /\
    records db !! (lastID db + 1)%Z = None /\
    records (fst (ensureSeed Sprintf_v now1 db template binds ct)) =
      <[(lastID db + 1)%Z := {| rtype := ct; created_at := now1; updated_at := now1 |}]>
        (records db) /\
    fieldRows (fst (ensureSeed Sprintf_v now1 db template binds ct)) (lastID db + 1) =
      defaultValuesFromTemplate Sprintf_v template binds ∪ fieldRows db (lastID db + 1) /\
    (forall id', id' <> (lastID db + 1)%Z ->
       fieldRows (fst (ensureSeed Sprintf_v now1 db template binds ct)) id' = fieldRows db id') /\
    countRecords (fst (ensureSeed Sprintf_v now1 db template binds ct)) ct = 1%nat /\
    ensureSeed Sprintf_v now2 (fst (ensureSeed Sprintf_v now1 db template binds ct))
      template binds ct = (fst (ensureSeed Sprintf_v now1 db template binds ct), None)).
  { intros Hcount Hids Hfree.
    destruct (ensureSeed_creates Sprintf_v now1 db template binds ct Hcount Hids Hfree)
      as (db1 & -> & Hfresh & Hrec & Hrows & Hother & Hone).
    cbn [fst snd]. repeat split; try done.
    apply ensureSeed_counted. lia. }
  split; [apply defaultValuesFromTemplate_lookup|].
  split; [exact Hsuccess|].
  split.
  { intros Hcount Hids (key & Hkey & Hrow). unfold ensureSeed, createRecordFromTemplate.
    rewrite Hcount. cbn [Nat.ltb Nat.leb].
    rewrite createRecord_collision; [done|done|].
    exists key. split; [|done]. unfold defaultValuesFromTemplate.
    rewrite lookup_fmap. by apply fmap_is_Some. }
  split.
  { intros Hcount Hfull. unfold ensureSeed, createRecordFromTemplate.
    rewrite Hcount. cbn [Nat.ltb Nat.leb]. rewrite createRecord_cases.
    apply Z.leb_le in Hfull. by rewrite Hfull. }
  split.
  { intros Hpos. rewrite (ensureSeed_counted Sprintf_v now1 db template binds ct Hpos).
    split; [done|]. by apply ensureSeed_counted. }
  split; [apply noOrphans_next|].
  intros Hempty Hfields Hseq.
  assert (Hrows0 : forall rid, fieldRows db rid = ∅).
  { intros rid. unfold fieldRows. by rewrite Hfields, lookup_empty. }
  destruct Hsuccess as (H1 & H2 & H3 & H4 & H5 & H6 & H7).
  - by apply countRecords_empty.
  - unfold lastID. rewrite Hempty. change (maxRowid ∅) with 0%Z. unfold maxInt64 in *. lia.
  - intros key _. by rewrite Hrows0.
  - split; [done|]. split; [done|]. rewrite H7. cbn [fst].
    split; [by rewrite H3, Hempty, insert_empty|].
    by rewrite H4, Hrows0, (right_id_L ∅ (∪)).
Qed.

Lemma ensureSeed_idempotent_witness :
  let binds := <["title" := {| Path := "10.value" |}]> (∅ : gmap string bindTarget) in
  let first := ensureSeed showString 1 emptyDB sampleTemplate binds "article" in
  let second := ensureSeed showString 2 (fst first) sampleTemplate binds "article" in
  second = (fst first, None) /\
  records (fst second) = {[ 1%Z := {| rtype := "article"; created_at := 1; updated_at := 1 |} ]} /\
  fieldRows (fst second) 1 = {[ "title" := "Hello World" ]}.
Proof.
  cbv zeta.
  pose proof (ensureSeed_idempotent showString 1 2 emptyDB sampleTemplate
                (<["title" := {| Path := "10.value" |}]> ∅) "article") as H.
  cbv zeta in H. destruct H as (_ & _ & _ & _ & _ & _ & H).
  destruct (H eq_refl eq_refl ltac:(reflexivity)) as (_ & H2 & H3 & H4).
  split; [exact H2|]. split; [exact H3|].
  etransitivity; [exact H4|]. vm_compute. reflexivity.
Defined.

(** C8, as stated, fails: after an [updateRecord] on the id 1 of the empty
    store (which returns no error, see C2) the store holds no record, yet
    the field row left under the id 1 makes the INSERT of the seed's field
    fail: [ensureSeed] returns the constraint error, creates no record, and
    leaves its transaction open.  It also fails on a store without records
    that has given out the largest id. *)
Lemma ensureSeed_counterexample :
  let db := fst (updateRecord 5 emptyDB 1 "" {[ "title" := "C" ]}) in
  let full := {| records := ∅; record_fields := ∅; sequence := maxInt64 |} in
  let binds := collectBinds sampleTemplate "" ∅ in
  (records db = ∅ /\
   countRecords db "article" = O /\
   ensureSeed showString 6 db sampleTemplate binds "article"
   = (db, Some {| Err := ErrConstraint; TxOpen := true |}) /\
   countRecords (fst (ensureSeed showString 6 db sampleTemplate binds "article")) "article"
   = O) /\
  (countRecords full "article" = O /\
   ensureSeed showString 6 full sampleTemplate binds "article"
   = (full, Some {| Err := ErrFull; TxOpen := false |})).
Proof. repeat split; vm_compute; reflexivity. Qed.

(** *** Orphan field rows *)

Lemma noOrphans_emptyDB : noOrphans emptyDB.
Proof. intros rid _. unfold fieldRows. simpl. by rewrite lookup_empty. Qed.

Lemma noOrphans_sampleDB : noOrphans sampleDB.
Proof.
  intros rid Hrid. unfold fieldRows. simpl in *.
  destruct (decide (rid = 1%Z)) as [->|Hne].
  - by rewrite lookup_singleton_eq in Hrid.
  - by rewrite lookup_singleton_ne.
Qed.

Lemma createRecord_noOrphans (now : Z) (db : DB) (ct : string) (values : gmap string string) :
  noOrphans db -> noOrphans (fst (createRecord now db ct values)).
Proof.
  intros Hno.
  destruct (createRecord now db ct values) as [db' [f|id]] eqn:Hrun.
  { apply createRecord_failure in Hrun. by subst. }
  destruct (Z.ltb_spec (lastID db) maxInt64) as [Hids|Hfull].
  2:{ rewrite createRecord_cases in Hrun. apply Z.leb_le in Hfull. by rewrite Hfull in Hrun. }
  destruct (createRecord_ok now db ct values Hids)
    as (db2 & Hrun2 & Hfresh & Hrec & _ & _ & Hother).
  { intros k _. by rewrite (noOrphans_next db Hno), lookup_empty. }
  rewrite Hrun2 in Hrun. injection Hrun as <- <-.
  intros rid Hrid. cbn [fst] in *. rewrite Hrec in Hrid.
  destruct (decide (rid = (lastID db + 1)%Z)) as [->|Hne];
    [by rewrite lookup_insert_eq in Hrid|].
  rewrite lookup_insert_ne in Hrid by done. rewrite Hother by done. by apply Hno.
Qed.

Lemma updateRecordField_noOrphans (now : Z) (db : DB) (id : Z) (ct bindKey value : string) :
  noOrphans db -> noOrphans (fst (updateRecordField now db id ct bindKey value)).
Proof.
  intros Hno.
  destruct (updateRecordField_cases now db id ct bindKey value)
    as [(r & _ & _ & Er & _ & ->)|[(_ & _ & _ & ->)|[(_ & ->)|(_ & _ & ->)]]]; try done.
  intros rid Hrid. simpl in Hrid.
  destruct (decide (rid = id)) as [->|Hne]; [by rewrite lookup_insert_eq in Hrid|].
  rewrite lookup_insert_ne in Hrid by done.
  cbn [fst]. rewrite fieldRows_putFieldRow_ne by done. by apply Hno.
Qed.

Lemma deleteRecord_noOrphans (db : DB) (id : Z) (ct : string) :
  noOrphans db -> noOrphans (fst (deleteRecord db id ct)).
Proof.
  intros Hno rid. unfold deleteRecord, transaction, txBind, shadowed. cbn [deleteFieldRows].
  unfold deleteRecordRow, txRet; simpl.
  assert (Hrows : forall recs seq,
             records db !! rid = None \/ rid = id ->
             fieldRows {| records := recs; record_fields := delete id (record_fields db);
                          sequence := seq |} rid = ∅).
  { intros recs seq [Hnone| ->]; unfold fieldRows; simpl.
    - destruct (decide (rid = id)) as [->|Hne]; [by rewrite lookup_delete_eq|].
      rewrite lookup_delete_ne by done. by apply Hno.
    - by rewrite lookup_delete_eq. }
  destruct (records db !! id) as [r|] eqn:Er.
  - destruct (typeMatches ct r); simpl; intros Hrid; apply Hrows.
    + destruct (decide (rid = id)) as [->|Hne]; [by right|].
      rewrite lookup_delete_ne in Hrid by done. by left.
    + by left.
  - simpl. intros Hrid. apply Hrows. by left.
Qed.

(** [updateRecord] keeps the store free of orphan rows when a record has
    the id, whatever its type; on an id without a record it creates orphan
    rows (unless no value is supplied). *)
Lemma updateRecord_noOrphans (now : Z) (db : DB) (id : Z) (ct : string)
    (values : gmap string string) :
  noOrphans db -> is_Some (records db !! id) ->
  noOrphans (fst (updateRecord now db id ct values)).
Proof.
  intros Hno [r Er].
  destruct (updateRecord_succeeds now db id ct values) as (db' & -> & _ & Hother & _ & _ & Hty).
  intros rid Hrid. cbn [fst] in *.
  pose proof (Hty rid) as H. rewrite Hrid in H. simpl in H.
  destruct (records db !! rid) as [r'|] eqn:Er'; [done|].
  destruct (decide (rid = id)) as [->|Hne]; [congruence|].
  rewrite Hother by done. by apply Hno.
Qed.

(** ** Induction on templates, heights *)

Section NodeInduction.

Variable P : node -> Prop.
Hypothesis HNil : P VNil.
Hypothesis HBool : forall b, P (VBool b).
Hypothesis HString : forall s, P (VString s).
Hypothesis HInt : forall z, P (VInt z).
Hypothesis HFloat : forall m e, P (VFloat m e).
Hypothesis HMap : forall m : smap, Forall (fun kc => P (snd kc)) m -> P (VMap m).
Hypothesis HIMap : forall m : imap, Forall (fun kc => P (snd kc)) m -> P (VIMap m).
Hypothesis HList : forall l : list node, Forall P l -> P (VList l).

(** Structural induction on a template, with the property available for
    every value of a map and every item of a sequence. *)
Lemma node_nested_ind : forall n : node, P n.
Proof.
  fix IH 1. intros [| b | s | z | m e | m | m | l].
  - exact HNil.
  - apply HBool.
  - apply HString.
  - apply HInt.
  - apply HFloat.
  - apply HMap. induction m as [|[k c] r IHr]; constructor; [apply IH | exact IHr].
  - apply HIMap. induction m as [|[k c] r IHr]; constructor; [apply IH | exact IHr].
  - apply HList. induction l as [|c r IHr]; constructor; [apply IH | exact IHr].
Qed.

End NodeInduction.

Lemma list_max_In (l : list nat) (x : nat) : In x l -> (x <= list_max l)%nat.
Proof.
  intros H. pose proof (proj1 (list_max_le l (list_max l)) (le_n _)) as HF.
  rewrite Forall_forall in HF. by apply HF, list_elem_of_In.
Qed.

Lemma height_entry (m : smap) (k : string) (c : node) :
  In (k, c) m -> (height c < height (VMap m))%nat.
Proof.
  intros H. cbn [height]. apply Nat.lt_succ_r.
  apply list_max_In. change (height c) with ((fun kc : string * node => height (snd kc)) (k, c)).
  by apply in_map.
Qed.

Lemma height_item (l : list node) (c : node) :
  In c l -> (height c < height (VList l))%nat.
Proof.
  intros H. cbn [height]. apply Nat.lt_succ_r. apply list_max_In. by apply in_map.
Qed.

Lemma setKey_Forall (Q : string * node -> Prop) (k : string) (v : node) (m : smap) :
  Forall Q m -> Q (k, v) -> Forall Q (setKey k v m).
Proof.
  intros Hm Hkv. induction m as [|[k' v'] r IH]; simpl.
  - by constructor.
  - apply Forall_cons in Hm as [H1 H2]. destruct (String.eqb k k'); constructor; auto.
Qed.

Lemma normalize_fold_Forall (Q : node -> Prop) (im : imap) :
  forall acc : smap,
    Forall (fun kc => Q (snd kc)) acc ->
    Forall (fun kc => Q (normalizeChild (snd kc))) im ->
    Forall (fun kc => Q (snd kc))
      (fold_left (fun result kc => setKey (keyString (fst kc)) (normalizeChild (snd kc)) result)
         im acc).
Proof.
  induction im as [|[k c] r IH]; intros acc Hacc Him; [done|].
  apply Forall_cons in Him as [H1 H2]. simpl. apply IH; [|done].
  by apply setKey_Forall.
Qed.

Lemma list_max_bound (l : list nat) (n : nat) :
  Forall (fun k => (k <= n)%nat) l -> (list_max l <= n)%nat.
Proof. apply list_max_le. Qed.

(** Normalization does not raise the height. *)
Lemma height_normalizeChild (v : node) : (height (normalizeChild v) <= height v)%nat.
Proof.
  induction v as [| | | | | m IH | m IH | l IH] using node_nested_ind; try done.
  - cbn [normalizeChild height]. apply le_S, le_n_S.
    apply list_max_bound. apply Forall_map.
    apply (normalize_fold_Forall (fun c => (height c <= list_max (map (fun kc => height (snd kc)) m))%nat)).
    + constructor.
    + rewrite Forall_forall in IH. apply Forall_forall. intros [k c] Hin.
      etransitivity; [apply (IH _ Hin)|]. apply list_max_In.
      change (height (snd (k, c))) with ((fun kc : ikey * node => height (snd kc)) (k, c)).
      apply in_map. by apply list_elem_of_In.
  - cbn [normalizeChild height]. apply le_n_S. apply list_max_bound.
    rewrite map_map. apply Forall_map. rewrite Forall_forall in IH. apply Forall_forall.
    intros c Hin. etransitivity; [apply (IH _ Hin)|]. apply list_max_In, in_map.
    by apply list_elem_of_In.
Qed.

(** The normalized map is strictly lower than the interface-keyed map. *)
Lemma height_normalizeInterfaceMap (im : imap) :
  (height (VMap (normalizeInterfaceMap im)) < height (VIMap im))%nat.
Proof.
  pose proof (height_normalizeChild (VIMap im)) as H.
  change (normalizeChild (VIMap im)) with (VMap (normalizeInterfaceMap im)) in H.
  cbn [height] in *. apply Nat.lt_succ_r. apply le_n_S.
  apply list_max_bound. apply Forall_map.
  apply (normalize_fold_Forall (fun c => (height c <= list_max (map (fun kc => height (snd kc)) im))%nat)).
  - constructor.
  - apply Forall_forall. intros [k c] Hin.
    etransitivity; [apply height_normalizeChild|]. apply list_max_In.
    change (height (snd (k, c))) with ((fun kc : ikey * node => height (snd kc)) (k, c)).
    apply in_map. by apply list_elem_of_In.
Qed.

(** ** The bind index *)

Lemma collectOwnBind_lookup (node : smap) (path : string)
    (binds : gmap string bindTarget) (f : string) :
  collectOwnBind node path binds !! f =
  match binds !! f with
  | Some t => Some t
  | None =>
      match ownBind node with
      | Some (field, bindPath) =>
          if String.eqb field f then Some {| Path := joinPath path bindPath |} else None
      | None => None
      end
  end.
Proof.
  unfold collectOwnBind. destruct (ownBind node) as [[field bp]|]; [|by destruct (binds !! f)].
  destruct (binds !! field) eqn:E.
  - destruct (binds !! f) eqn:Ef; [done|].
    destruct (String.eqb_spec field f); [congruence|done].
  - destruct (String.eqb_spec field f) as [->|Hne].
    + by rewrite lookup_insert_eq, E.
    + rewrite lookup_insert_ne by done. by destruct (binds !! f).
Qed.

Lemma fold_left_ext_in {A B : Type} (g h : A -> B -> A) (l : list B) :
  (forall a x, In x l -> g a x = h a x) ->
  forall a, fold_left g l a = fold_left h l a.
Proof.
  induction l as [|x r IH]; intros Hext a; [done|]. simpl.
  rewrite Hext by (by left). apply IH. intros a' x' Hin. apply Hext. by right.
Qed.

(** *** Addresses *)

Lemma reachedAt_normalized (c : node) (cm : smap) (addr : list nat) :
  normalizeToStringMap c = Some cm -> reachedAt c addr = reachedAt (VMap cm) addr.
Proof. intros H. destruct addr; simpl; by rewrite H. Qed.

Lemma reachedAt_is_map (c : node) (addr : list nat) :
  reachedAt c addr = true -> exists cm, normalizeToStringMap c = Some cm.
Proof.
  destruct addr; simpl; destruct (normalizeToStringMap c) as [cm|]; try done; eauto.
Qed.

Lemma childAt_normalized (c : node) (cm : smap) (i : nat) :
  normalizeToStringMap c = Some cm -> childAt c i = childAt (VMap cm) i.
Proof. destruct c; try done; by intros [= <-]. Qed.

Lemma declaresAt_normalized (c : node) (cm : smap) (addr : list nat) (f : string) :
  normalizeToStringMap c = Some cm -> declaresAt c addr f = declaresAt (VMap cm) addr f.
Proof.
  intros H. unfold declaresAt. destruct addr as [|i rest].
  - simpl. unfold declaresBind. by rewrite H.
  - cbn [nodeAt]. by rewrite (childAt_normalized c cm i H).
Qed.

Lemma declaresAt_cons (m : smap) (i : nat) (addr : list nat) (f : string) :
  declaresAt (VMap m) (i :: addr) f =
  match nth_error m i with
  | Some kc => declaresAt (snd kc) addr f
  | None => false
  end.
Proof. unfold declaresAt. cbn [nodeAt childAt]. by destruct (nth_error m i). Qed.

Lemma reachedAt_cons (m : smap) (i : nat) (addr : list nat) :
  reachedAt (VMap m) (i :: addr) =
  negb (isBoundaryPlugin m) &&
  match nth_error m i with
  | Some kc => negb (Str.HasPrefix (fst kc) "@") && reachedAt (snd kc) addr
  | None => false
  end.
Proof. cbn [reachedAt normalizeToStringMap]. by destruct (nth_error m i) as [[k c]|]. Qed.

(** An address [collectBinds] reaches lies inside no boundary and below
    no sequence. *)
Lemma reachedAt_outside (addr : list nat) :
  forall n : node,
    reachedAt n addr = true ->
    insideBoundary n addr = false /\ belowList n addr = false.
Proof.
  induction addr as [|i rest IH]; intros n H; [done|].
  destruct (reachedAt_is_map _ _ H) as [m Hm].
  rewrite (reachedAt_normalized n m _ Hm), reachedAt_cons in H.
  apply andb_prop in H as [Hb H]. apply negb_true_iff in Hb.
  destruct (nth_error m i) as [[k c]|] eqn:Ei; [|done].
  apply andb_prop in H as [_ H]. simpl in H.
  assert (Hchild : childAt n i = Some c).
  { rewrite (childAt_normalized n m i Hm). simpl. by rewrite Ei. }
  destruct (IH c H) as [H1 H2].
  cbn [insideBoundary belowList]. unfold isBoundaryNode. rewrite Hm, Hb, Hchild, H1.
  split; [done|]. by destruct n.
Qed.

(** *** The loop of [collectBinds] *)

Section CollectLoop.

Variable recurse : smap -> string -> gmap string bindTarget -> gmap string bindTarget.
Variable path : string.
Variable f : string.

(** The recursive call keeps the binds it is given. *)
Hypothesis recurse_keeps :
  forall cm p b t, b !! f = Some t -> recurse cm p b !! f = Some t.

Lemma collectChild_keeps (b : gmap string bindTarget) (kv : string * node) (t : bindTarget) :
  b !! f = Some t -> collectChild recurse path b kv !! f = Some t.
Proof.
  intros H. unfold collectChild. destruct (Str.HasPrefix _ _); [done|].
  destruct (snd kv); try done; by apply recurse_keeps.
Qed.

Lemma fold_collectChild_keeps (l : smap) :
  forall (b : gmap string bindTarget) (t : bindTarget),
    b !! f = Some t -> fold_left (collectChild recurse path) l b !! f = Some t.
Proof.
  induction l as [|kv r IH]; intros b t H; [done|]. simpl.
  eapply IH. by apply collectChild_keeps.
Qed.

Lemma collectChild_map (b : gmap string bindTarget) (key : string) (c : node) (cm : smap) :
  Str.HasPrefix key "@" = false ->
  normalizeToStringMap c = Some cm ->
  collectChild recurse path b (key, c) = recurse cm (joinPath path key) b.
Proof.
  intros Hk Hc. unfold collectChild; simpl. rewrite Hk.
  destruct c; try done; by injection Hc as <-.
Qed.

Lemma collectChild_other (b : gmap string bindTarget) (key : string) (c : node) :
  Str.HasPrefix key "@" = true \/ normalizeToStringMap c = None ->
  collectChild recurse path b (key, c) = b.
Proof.
  intros [Hk|Hc]; unfold collectChild; simpl; [by rewrite Hk|].
  destruct (Str.HasPrefix key "@"); [done|]. by destruct c.
Qed.

(** Once a reached child yields the field, the loop yields it. *)
Lemma fold_collectChild_complete (pre post : smap) (key : string) (c : node) (cm : smap)
    (b : gmap string bindTarget) :
  Str.HasPrefix key "@" = false ->
  normalizeToStringMap c = Some cm ->
  (forall b', is_Some (recurse cm (joinPath path key) b' !! f)) ->
  is_Some (fold_left (collectChild recurse path) (pre ++ (key, c) :: post) b !! f).
Proof.
  intros Hk Hc Hrec. rewrite fold_left_app. simpl.
  rewrite (collectChild_map _ key c cm Hk Hc).
  destruct (Hrec (fold_left (collectChild recurse path) pre b)) as [t Ht].
  exists t. by apply fold_collectChild_keeps.
Qed.

(** The recursive call yields the field only from a node it reaches. *)
Hypothesis recurse_sound :
  forall cm p b t,
    recurse cm p b !! f = Some t -> b !! f = None ->
    exists addr, reachedAt (VMap cm) addr = true /\ declaresAt (VMap cm) addr f = true.

Lemma fold_collectChild_sound (l : smap) :
  forall (pre : smap) (b : gmap string bindTarget) (t : bindTarget),
    fold_left (collectChild recurse path) l b !! f = Some t ->
    b !! f = None ->
    exists i key c addr,
      nth_error (pre ++ l) i = Some (key, c) /\
      Str.HasPrefix key "@" = false /\
      reachedAt c addr = true /\ declaresAt c addr f = true.
Proof.
  induction l as [|[key c] r IH]; intros pre b t Hfold Hb.
  - simpl in Hfold. congruence.
  - simpl in Hfold.
    destruct (collectChild recurse path b (key, c) !! f) as [t'|] eqn:E.
    + destruct (Str.HasPrefix key "@") eqn:Hk.
      { rewrite collectChild_other in E by auto. congruence. }
      destruct (normalizeToStringMap c) as [cm|] eqn:Hc.
      2:{ rewrite collectChild_other in E by auto. congruence. }
      rewrite (collectChild_map _ key c cm Hk Hc) in E.
      destruct (recurse_sound _ _ _ _ E Hb) as (addr & Hr & Hd).
      exists (length pre), key, c, addr. repeat split; try done.
      * rewrite nth_error_app2 by lia. by rewrite Nat.sub_diag.
      * by rewrite (reachedAt_normalized c cm addr Hc).
      * by rewrite (declaresAt_normalized c cm addr f Hc).
    + destruct (IH (pre ++ [(key, c)]) _ t Hfold E) as (i & key' & c' & addr & H1 & H2).
      exists i, key', c', addr. by rewrite <- app_assoc in H1.
Qed.

End CollectLoop.

(** [collectBinds] never drops or overwrites a bind: the first one
    registered for a field wins. *)
Lemma collectBindsFuel_keeps (fuel : nat) :
  forall (m : smap) (path : string) (binds : gmap string bindTarget) (f : string) (t : bindTarget),
    binds !! f = Some t -> collectBindsFuel fuel m path binds !! f = Some t.
Proof.
  induction fuel as [|fuel IH]; intros m path binds f t H; [done|].
  cbn [collectBindsFuel].
  assert (Hown : collectOwnBind m path binds !! f = Some t)
    by by rewrite collectOwnBind_lookup, H.
  destruct (isBoundaryPlugin m); [done|].
  apply fold_collectChild_keeps; [|done]. intros cm p b t' Hb. by apply IH.
Qed.

(** A field that enters the index is declared at an address the traversal
    reaches. *)
Lemma collectBindsFuel_sound (fuel : nat) :
  forall (m : smap) (path : string) (binds : gmap string bindTarget) (f : string) (t : bindTarget),
    collectBindsFuel fuel m path binds !! f = Some t ->
    binds !! f = None ->
    exists addr, reachedAt (VMap m) addr = true /\ declaresAt (VMap m) addr f = true.
Proof.
  induction fuel as [|fuel IH]; intros m path binds f t H Hb.
  - simpl in H. congruence.
  - cbn [collectBindsFuel] in H.
    destruct (collectOwnBind m path binds !! f) as [t'|] eqn:Eown.
    + rewrite collectOwnBind_lookup, Hb in Eown.
      destruct (ownBind m) as [[field bp]|] eqn:Eo; [|done].
      destruct (String.eqb field f) eqn:Ef; [|done].
      exists []. split; [done|]. unfold declaresAt, declaresBind; simpl. by rewrite Eo.
    + destruct (isBoundaryPlugin m) eqn:Eb; [congruence|].
      destruct (fold_collectChild_sound (collectBindsFuel fuel) path f
                  (fun cm p b t' => IH cm p b f t') m [] _ t H Eown)
        as (i & key & c & addr & Hi & Hk & Hr & Hd).
      simpl in Hi. exists (i :: addr).
      rewrite reachedAt_cons, declaresAt_cons, Hi, Eb; simpl. by rewrite Hk, Hr, Hd.
Qed.

(** With fuel above the height of the node, every declaration at an address
    the traversal reaches enters the index. *)
Lemma collectBindsFuel_complete (addr : list nat) :
  forall (fuel : nat) (m : smap) (path : string) (binds : gmap string bindTarget) (f : string),
    (height (VMap m) < fuel)%nat ->
    reachedAt (VMap m) addr = true ->
    declaresAt (VMap m) addr f = true ->
    is_Some (collectBindsFuel fuel m path binds !! f).
Proof.
  induction addr as [|i rest IH]; intros fuel m path binds f Hfuel Hr Hd;
    (destruct fuel as [|fuel]; [lia|]); cbn [collectBindsFuel].
  - assert (Hown : is_Some (collectOwnBind m path binds !! f)).
    { rewrite collectOwnBind_lookup. destruct (binds !! f); [done|].
      unfold declaresAt, declaresBind in Hd; simpl in Hd.
      destruct (ownBind m) as [[field bp]|]; [|done]. by rewrite Hd. }
    destruct Hown as [t Ht]. exists t.
    destruct (isBoundaryPlugin m); [done|].
    apply fold_collectChild_keeps; [|done].
    intros cm p b t' Hb. by apply collectBindsFuel_keeps.
  - rewrite reachedAt_cons in Hr. rewrite declaresAt_cons in Hd.
    apply andb_prop in Hr as [Hb Hr]. apply negb_true_iff in Hb. rewrite Hb.
    destruct (nth_error m i) as [[key c]|] eqn:Ei; [|done].
    apply andb_prop in Hr as [Hk Hr]. apply negb_true_iff in Hk. simpl in Hk, Hr, Hd.
    destruct (reachedAt_is_map _ _ Hr) as [cm Hc].
    destruct (nth_error_split m i Ei) as (pre & post & -> & _).
    apply (fold_collectChild_complete _ _ f) with (cm := cm); try done.
    { intros cm' p b t Ht. by apply collectBindsFuel_keeps. }
    intros b'. apply IH.
    + assert (Hlt : (height c < height (VMap (pre ++ (key, c) :: post)))%nat).
      { apply (height_entry _ key). apply in_or_app. right. by left. }
      assert (Hle : (height (VMap cm) <= height c)%nat).
      { destruct c; try done.
        - by injection Hc as <-.
        - injection Hc as <-. apply Nat.lt_le_incl, height_normalizeInterfaceMap. }
      lia.
    + by rewrite <- (reachedAt_normalized c cm rest Hc).
    + by rewrite <- (declaresAt_normalized c cm rest f Hc).
Qed.

(** Fuel above the height of the node is as good as any other such fuel. *)
Lemma collectBindsFuel_stable (fuel1 : nat) :
  forall (fuel2 : nat) (m : smap) (path : string) (binds : gmap string bindTarget),
    (height (VMap m) < fuel1)%nat ->
    (height (VMap m) < fuel2)%nat ->
    collectBindsFuel fuel1 m path binds = collectBindsFuel fuel2 m path binds.
Proof.
  induction fuel1 as [|fuel1 IH]; intros [|fuel2] m path binds H1 H2; try lia.
  cbn [collectBindsFuel]. destruct (isBoundaryPlugin m); [done|].
  apply fold_left_ext_in. intros b [key c] Hin.
  pose proof (height_entry m key c Hin) as Hc.
  unfold collectChild; simpl. destruct (Str.HasPrefix key "@"); [done|].
  destruct c as [| | | | |child|childMap|]; try done.
  - apply IH; lia.
  - pose proof (height_normalizeInterfaceMap childMap). apply IH; lia.
Qed.

(** Enough fuel gives the result of [collectBinds]. *)
Lemma collectBindsFuel_enough (fuel : nat) (m : smap) (path : string)
    (binds : gmap string bindTarget) :
  (height (VMap m) < fuel)%nat ->
  collectBindsFuel fuel m path binds = collectBinds m path binds.
Proof. intros H. unfold collectBinds. apply collectBindsFuel_stable; lia. Qed.

(** A field whose every declaration lies at an address the traversal does
    not reach stays as it was in the index. *)
Lemma collectBinds_unreached (m : smap) (path : string) (binds : gmap string bindTarget)
    (f : string) :
  (forall addr, declaresAt (VMap m) addr f = true -> reachedAt (VMap m) addr = false) ->
  collectBinds m path binds !! f = binds !! f.
Proof.
  intros Hun. unfold collectBinds.
  destruct (binds !! f) as [t|] eqn:Eb; [by apply collectBindsFuel_keeps|].
  destruct (collectBindsFuel _ m path binds !! f) as [t|] eqn:E; [|done].
  destruct (collectBindsFuel_sound _ _ _ _ _ _ E Eb) as (addr & Hr & Hd).
  rewrite (Hun addr Hd) in Hr. discriminate.
Qed.

(** Boundaries: a plugin node of this engine, whatever the case of its type
    tag and name, and a plugin node whose data carries a boundary flag, in
    either map representation; no other node. *)
Example isBoundaryPlugin_samples :
  isBoundaryPlugin [("@type", VString " <plugin> "); ("plugin", VString "ContentRecords@2.1.0")]
  = true /\
  isBoundaryPlugin [("@type", VString "<PLUGIN>"); ("plugin", VString "MarkdownPlugin@1.0.0");
                    ("data", VMap [("boundary", VString "yes")])] = true /\
  isBoundaryPlugin [("@type", VString "<PLUGIN>"); ("plugin", VString "MarkdownPlugin@1.0.0");
                    ("data", VIMap [(KString "content_record_boundary", VBool true)])] = true /\
  isBoundaryPlugin [("@type", VString "<PLUGIN>"); ("plugin", VString "MarkdownPlugin@1.0.0")]
  = false /\
  isBoundaryPlugin [("@type", VString "<TEXT>"); ("plugin", VString "ContentRecords@2.1.0")]
  = false.
Proof. repeat split; reflexivity. Qed.

(** C4. [collectBinds] never descends past a boundary.  A field whose every
    declaration in the template lies strictly inside a boundary subtree does
    not enter the bind index; called on a boundary node, [collectBinds] does
    no more than register the node's own bind; and the bind carried by a
    boundary node the traversal reaches is in the index. *)
Theorem collectBinds_stops_at_boundary :
  (forall (template : smap) (path : string) (binds : gmap string bindTarget) (field : string),
      (forall addr, declaresAt (VMap template) addr field = true ->
                    insideBoundary (VMap template) addr = true) ->
      collectBinds template path binds !! field = binds !! field) /\
  (forall (node : smap) (path : string) (binds : gmap string bindTarget),
      isBoundaryPlugin node = true ->
      collectBinds node path binds = collectOwnBind node path binds) /\
  (forall (template : smap) (path : string) (binds : gmap string bindTarget)
          (addr : list nat) (b : node) (field : string),
      reachedAt (VMap template) addr = true ->
      nodeAt (VMap template) addr = Some b ->
      isBoundaryNode b = true ->
      declaresBind b field = true ->
      is_Some (collectBinds template path binds !! field)).
Proof.
  split; [|split].
  - intros template path binds field Hin. apply collectBinds_unreached.
    intros addr Hd. destruct (reachedAt (VMap template) addr) eqn:Hr; [|done].
    apply reachedAt_outside in Hr as [Hr _]. rewrite (Hin addr Hd) in Hr. discriminate.
  - intros node path binds Hb. unfold collectBinds. cbn [collectBindsFuel]. by rewrite Hb.
  - intros template path binds addr b field Hr Hn _ Hd.
    apply (collectBindsFuel_complete addr); [lia|done|].
    unfold declaresAt. by rewrite Hn.
Qed.

(** C9. [collectBinds] enters only the children that are maps: a field
    whose every declaration in the template lies on or below an item of a
    sequence does not enter the bind index, at whatever depth. *)
Theorem collectBinds_skips_sequences (template : smap) (path : string)
    (binds : gmap string bindTarget) (field : string) :
  (forall addr, declaresAt (VMap template) addr field = true ->
                belowList (VMap template) addr = true) ->
  collectBinds template path binds !! field = binds !! field.
Proof.
  intros Hin. apply collectBinds_unreached.
  intros addr Hd. destruct (reachedAt (VMap template) addr) eqn:Hr; [|done].
  apply reachedAt_outside in Hr as [_ Hr]. rewrite (Hin addr Hd) in Hr. discriminate.
Qed.

(** Case analysis on the addresses of a closed template: [H] states that
    the address declares a field. *)
Ltac walk_addresses H :=
  repeat (cbn [nodeAt childAt] in H; simpl in H;
          lazymatch type of H with
          | false = true => discriminate H
          | true = true => vm_compute; reflexivity
          | declaresBind _ _ = true => vm_compute in H
          | context [nth_error _ ?i] => is_var i; destruct i
          | context [nodeAt _ ?a] => is_var a; destruct a
          end).

Lemma collectBinds_stops_at_boundary_witness :
  collectBinds sampleTemplate "" ∅ !! "inner" = (∅ : gmap string bindTarget) !! "inner" /\
  is_Some (collectBinds sampleTemplate "" ∅ !! "nested").
Proof.
  split.
  - apply (proj1 collectBinds_stops_at_boundary sampleTemplate "" ∅ "inner").
    intros addr H. unfold declaresAt in H. walk_addresses H.
  - eapply (proj2 (proj2 collectBinds_stops_at_boundary) sampleTemplate "" ∅ [2%nat]).
    + reflexivity.
    + reflexivity.
    + reflexivity.
    + reflexivity.
Defined.

Lemma collectBinds_skips_sequences_witness :
  collectBinds sampleTemplate "" ∅ !! "item" = (∅ : gmap string bindTarget) !! "item".
Proof.
  apply (collectBinds_skips_sequences sampleTemplate "" ∅ "item").
  intros addr H. unfold declaresAt in H. walk_addresses H.
Defined.

(** The bound item of the sequence is nevertheless addressable by a path
    with an index segment. *)
Example getAtPath_sequence_item :
  snd (getAtPath sampleTemplate "30.0.@bind.field") = true /\
  fst (getAtPath sampleTemplate "30.0.@bind.field") = VString "item".
Proof. split; reflexivity. Qed.

(** The bind index of the sample template: the bound text node and the
    bind the nested plugin carries; neither the bind inside the nested
    plugin nor the one in the sequence. *)
Example collectBinds_sampleTemplate :
  collectBinds sampleTemplate "" ∅ =
  <["title" := {| Path := "10.value" |}]>
    (<["nested" := {| Path := "20.data.id" |}]> ∅).
Proof. vm_compute. reflexivity. Qed.

(** ** Boundaries anywhere in a template *)

Lemma boundaryAt_normalized (im : imap) (addr : list nat) :
  boundaryAt (VIMap im) addr = boundaryAt (VMap (normalizeInterfaceMap im)) addr.
Proof. by destruct addr. Qed.

(** [hasBoundaryPlugin] answers true only when some value it searches is a
    boundary. *)
Lemma hasBoundaryPluginFuel_sound (fuel : nat) :
  forall n : node,
    hasBoundaryPluginFuel fuel n = true -> exists addr, boundaryAt n addr = true.
Proof.
  induction fuel as [|fuel IH]; intros n H; [done|].
  destruct n as [| | | | |m|im|l]; try done; cbn [hasBoundaryPluginFuel] in H.
  - destruct (isBoundaryPlugin m) eqn:Eb.
    + by exists [].
    + apply existsb_exists in H as ([key c] & Hin & Hc). simpl in Hc.
      destruct (Str.HasPrefix key "@") eqn:Hk; [done|].
      apply IH in Hc as [addr Ha]. apply In_nth_error in Hin as [i Hi].
      exists (i :: addr). simpl. by rewrite Hi, Hk.
  - apply IH in H as [addr Ha]. exists addr. by rewrite boundaryAt_normalized.
  - apply existsb_exists in H as (c & Hin & Hc).
    apply IH in Hc as [addr Ha]. apply In_nth_error in Hin as [i Hi].
    exists (i :: addr). simpl. by rewrite Hi.
Qed.

(** With fuel above the height of the value, [hasBoundaryPlugin] finds
    every boundary at an address it searches. *)
Lemma hasBoundaryPluginFuel_complete (addr : list nat) :
  forall (n : node) (fuel : nat),
    (height n < fuel)%nat ->
    boundaryAt n addr = true ->
    hasBoundaryPluginFuel fuel n = true.
Proof.
  induction addr as [|i rest IH]; intros n fuel Hf Ha.
  - destruct n as [| | | | |m|im|l]; try done.
    + destruct fuel as [|fuel]; [lia|]. cbn [hasBoundaryPluginFuel].
      cbn [boundaryAt] in Ha. unfold isBoundaryNode in Ha. simpl in Ha. by rewrite Ha.
    + destruct fuel as [|[|fuel]]; try (cbn [height] in Hf; lia).
      cbn [hasBoundaryPluginFuel].
      cbn [boundaryAt] in Ha. unfold isBoundaryNode in Ha. simpl in Ha. by rewrite Ha.
  - assert (Hmap : forall (m : smap) (fuel : nat),
               (height (VMap m) < fuel)%nat ->
               boundaryAt (VMap m) (i :: rest) = true ->
               hasBoundaryPluginFuel fuel (VMap m) = true).
    { intros m [|f] Hf' Ha'; [lia|]. cbn [hasBoundaryPluginFuel].
      destruct (isBoundaryPlugin m); [done|]. cbn [boundaryAt] in Ha'.
      destruct (nth_error m i) as [[key c]|] eqn:Ei; [|done].
      apply andb_prop in Ha' as [Hk Hc]. apply negb_true_iff in Hk.
      apply existsb_exists. exists (key, c).
      pose proof (nth_error_In _ _ Ei) as Hin. split; [done|]. simpl. rewrite Hk.
      apply IH; [|done]. pose proof (height_entry m key c Hin). lia. }
    destruct n as [| | | | |m|im|l]; try done.
    + by apply Hmap.
    + destruct fuel as [|fuel]; [lia|]. cbn [hasBoundaryPluginFuel]. apply Hmap.
      * pose proof (height_normalizeInterfaceMap im). lia.
      * by rewrite <- boundaryAt_normalized.
    + destruct fuel as [|fuel]; [lia|]. cbn [hasBoundaryPluginFuel]. cbn [boundaryAt] in Ha.
      destruct (nth_error l i) as [c|] eqn:Ei; [|done].
      pose proof (nth_error_In _ _ Ei) as Hin.
      apply existsb_exists. exists c. split; [done|].
      apply IH; [|done]. pose proof (height_item l c Hin). lia.
Qed.

(** [hasBoundaryPlugin] is true exactly when the template holds a boundary
    at some address it searches. *)
Lemma hasBoundaryPlugin_spec (n : node) :
  hasBoundaryPlugin n = true <-> exists addr, boundaryAt n addr = true.
Proof.
  unfold hasBoundaryPlugin. split.
  - apply hasBoundaryPluginFuel_sound.
  - intros [addr Ha]. apply (hasBoundaryPluginFuel_complete addr); [lia|done].
Qed.

(** Enough fuel gives the result of [hasBoundaryPlugin]. *)
Lemma hasBoundaryPluginFuel_enough (fuel : nat) (n : node) :
  (height n < fuel)%nat -> hasBoundaryPluginFuel fuel n = hasBoundaryPlugin n.
Proof.
  intros Hf. destruct (hasBoundaryPlugin n) eqn:E.
  - apply hasBoundaryPlugin_spec in E as [addr Ha].
    by apply (hasBoundaryPluginFuel_complete addr).
  - destruct (hasBoundaryPluginFuel fuel n) eqn:E'; [|done].
    apply hasBoundaryPluginFuel_sound in E'. apply hasBoundaryPlugin_spec in E'. congruence.
Qed.

(** ** Record ids as text *)

Lemma TrimRight_no_space (s : string) :
  allChars (fun c => negb (Str.isSpace c)) s = true -> Str.TrimRight s = s.
Proof.
  induction s as [|c r IH]; [done|]. cbn [allChars Str.TrimRight].
  intros H. apply andb_prop in H as [Hc Hr]. rewrite (IH Hr).
  apply negb_true_iff in Hc. rewrite Hc. by destruct r.
Qed.

Lemma TrimSpace_no_space (s : string) :
  allChars (fun c => negb (Str.isSpace c)) s = true -> Str.TrimSpace s = s.
Proof.
  intros H. unfold Str.TrimSpace.
  assert (Str.TrimLeft s = s) as ->.
  { destruct s as [|c r]; [done|]. simpl in *. apply andb_prop in H as [Hc _].
    apply negb_true_iff in Hc. by rewrite Hc. }
  by apply TrimRight_no_space.
Qed.

Lemma uint_digits (u : Decimal.uint) :
  allChars Str.isDigit (NilEmpty.string_of_uint u) = true.
Proof. induction u; simpl; try done. Qed.

Lemma allChars_impl (p q : ascii -> bool) (s : string) :
  (forall c, p c = true -> q c = true) -> allChars p s = true -> allChars q s = true.
Proof.
  intros Hpq. induction s as [|c r IH]; [done|]. simpl.
  intros H. apply andb_prop in H as [Hc Hr]. by rewrite (Hpq c Hc), IH.
Qed.

Lemma isDigit_no_space (c : ascii) : Str.isDigit c = true -> negb (Str.isSpace c) = true.
Proof.
  unfold Str.isDigit, Str.isSpace. intros H. apply andb_prop in H as [H1 H2].
  apply Nat.leb_le in H1, H2. apply negb_true_iff, orb_false_iff. split.
  - apply andb_false_iff. right. apply Nat.leb_gt. lia.
  - apply Nat.eqb_neq. lia.
Qed.

Lemma digits_uint_acc (u : Decimal.uint) :
  forall acc : positive,
    Str.digits (NilEmpty.string_of_uint u) (Z.pos acc) = Some (Z.pos (Pos.of_uint_acc u acc)).
Proof.
  induction u as [|u IH|u IH|u IH|u IH|u IH|u IH|u IH|u IH|u IH|u IH]; intros acc; [done|..];
    cbn [NilEmpty.string_of_uint Str.digits Pos.of_uint_acc];
    change (Str.isDigit _) with true; cbv iota;
    match goal with
    | |- Str.digits _ ?z = Some (Z.pos (Pos.of_uint_acc _ ?p)) =>
        replace z with (Z.pos p) by (simpl Z.of_nat; lia)
    end; apply IH.
Qed.

Lemma digits_uint (u : Decimal.uint) :
  Str.digits (NilEmpty.string_of_uint u) 0 = Some (Z.of_N (Pos.of_uint u)).
Proof.
  induction u as [|u IH|u IH|u IH|u IH|u IH|u IH|u IH|u IH|u IH|u IH]; [done|exact IH|..];
    cbn [NilEmpty.string_of_uint Str.digits Pos.of_uint];
    change (Str.isDigit _) with true; cbv iota;
    apply digits_uint_acc.
Qed.

Lemma ParseInt_uint (u : Decimal.uint) :
  u <> Decimal.Nil ->
  (Z.of_N (Pos.of_uint u) <= 2 ^ 63 - 1)%Z ->
  Str.ParseInt (NilEmpty.string_of_uint u) = Some (Z.of_N (Pos.of_uint u)).
Proof.
  intros Hnil Hmax. pose proof (digits_uint u) as Hd.
  assert (Hrange : ((- 2 ^ 63 <=? Z.of_N (Pos.of_uint u)) && (Z.of_N (Pos.of_uint u) <=? 2 ^ 63 - 1))%Z = true).
  { apply andb_true_intro. split; [apply Z.leb_le; lia|by apply Z.leb_le]. }
  destruct u; [done|..]; unfold Str.ParseInt;
    cbn [NilEmpty.string_of_uint] in *; cbv iota beta; by rewrite Hd, Hrange.
Qed.

Lemma ParseInt_neg_uint (u : Decimal.uint) :
  u <> Decimal.Nil ->
  (Z.of_N (Pos.of_uint u) <= 2 ^ 63)%Z ->
  Str.ParseInt (String "-" (NilEmpty.string_of_uint u)) = Some (- Z.of_N (Pos.of_uint u))%Z.
Proof.
  intros Hnil Hmax. pose proof (digits_uint u) as Hd.
  assert (Hrange : ((- 2 ^ 63 <=? - Z.of_N (Pos.of_uint u)) && (- Z.of_N (Pos.of_uint u) <=? 2 ^ 63 - 1))%Z = true).
  { apply andb_true_intro. split; apply Z.leb_le; lia. }
  unfold Str.ParseInt. cbv iota beta. rewrite Hd, Hrange. by destruct u.
Qed.

Lemma to_uint_not_nil (p : positive) : Pos.to_uint p <> Decimal.Nil.
Proof.
  intros H. pose proof (DecimalPos.Unsigned.of_to p) as E. rewrite H in E. discriminate.
Qed.

Lemma parseRecordID_FormatInt_id (i : Z) :
  (- 2 ^ 63 <= i <= 2 ^ 63 - 1)%Z -> parseRecordID (FormatInt i) = i.
Proof.
  intros Hi. unfold parseRecordID, FormatInt.
  destruct i as [|p|p]; [reflexivity| |].
  - cbn [Z.to_int NilZero.string_of_int]. pose proof (to_uint_not_nil p) as Hnil.
    assert (Hs : NilZero.string_of_uint (Pos.to_uint p) = NilEmpty.string_of_uint (Pos.to_uint p))
      by (by destruct (Pos.to_uint p)).
    rewrite Hs, TrimSpace_no_space
      by (eapply allChars_impl; [apply isDigit_no_space|apply uint_digits]).
    rewrite ParseInt_uint; rewrite ?DecimalPos.Unsigned.of_to; try done; try lia.
    destruct (String.eqb_spec (NilEmpty.string_of_uint (Pos.to_uint p)) ""); [|done].
    by destruct (Pos.to_uint p).
  - cbn [Z.to_int NilZero.string_of_int]. pose proof (to_uint_not_nil p) as Hnil.
    assert (Hs : NilZero.string_of_uint (Pos.to_uint p) = NilEmpty.string_of_uint (Pos.to_uint p))
      by (by destruct (Pos.to_uint p)).
    rewrite Hs, TrimSpace_no_space.
    + rewrite ParseInt_neg_uint; rewrite ?DecimalPos.Unsigned.of_to; try done; try lia.
    + cbn [allChars]. apply andb_true_intro. split; [done|].
      eapply allChars_impl; [apply isDigit_no_space|apply uint_digits].
Qed.

Lemma ParseInt_range (s : string) (v : Z) :
  Str.ParseInt s = Some v -> (- 2 ^ 63 <= v <= 2 ^ 63 - 1)%Z.
Proof.
  assert (Hsigned : forall (neg : bool) (r : string),
             match r with
             | EmptyString => None
             | _ =>
                 match Str.digits r 0%Z with
                 | Some v =>
                     let v := if neg then (- v)%Z else v in
                     if ((- 2 ^ 63 <=? v) && (v <=? 2 ^ 63 - 1))%Z then Some v else None
                 | None => None
                 end
             end = Some v -> (- 2 ^ 63 <= v <= 2 ^ 63 - 1)%Z).
  { intros neg r H. destruct r as [|c r]; [done|].
    destruct (Str.digits (String c r) 0) as [x|]; [|done]. cbv zeta in H.
    destruct (_ && _)%bool eqn:E; [|done]. injection H as <-.
    apply andb_prop in E as [E1 E2]. apply Z.leb_le in E1, E2. lia. }
  unfold Str.ParseInt. destruct s as [|c r]; [done|].
  destruct c as [[] [] [] [] [] [] [] []];
    first [ exact (Hsigned true r) | exact (Hsigned false r)
          | match goal with
            | |- context [Str.digits (String ?c r) _] => exact (Hsigned false (String c r))
            end ].
Qed.

Lemma parseRecordID_range (s : string) :
  (- 2 ^ 63 <= parseRecordID s <= 2 ^ 63 - 1)%Z.
Proof.
  unfold parseRecordID. destruct (String.eqb _ ""); [lia|].
  destruct (Str.ParseInt _) as [v|] eqn:E; [by apply ParseInt_range in E|lia].
Qed.

Lemma inlineRecordID_range (ctx : Context) (fields : Fields) (payload : inlineUpdatePayload) :
  (- 2 ^ 63 <= inlineRecordID ctx fields payload <= 2 ^ 63 - 1)%Z.
Proof.
  unfold inlineRecordID, resolveRecordID.
  destruct (Z.eqb _ 0); apply parseRecordID_range.
Qed.

(** ** The inline-edit handler *)

(** Parsing the payload adds at most an error to the error list. *)
Lemma parseInlinePayload_state (req : Request) (ctx : Context) (fields : Fields) (w : World) :
  WDB (fst (parseInlinePayload req ctx fields w)) = WDB w /\
  WCalls (fst (parseInlinePayload req ctx fields w)) = WCalls w.
Proof.
  unfold parseInlinePayload, parseRequestForm.
  destruct (Str.HasPrefix (ContentTypeHeader req) "application/json").
  - by destruct (JSONBody req).
  - destruct (FormParseFails req); [|done].
    by destruct (Str.HasPrefix (ContentTypeHeader req) "multipart/form-data").
Qed.

(** The handler on an inline-edit POST: a POST whose payload decodes, with a
    truthy inline flag. *)
Lemma handleInlineUpdate_inline_post (now : Z) (ctx : Context) (w w1 : World) (ct : string)
    (binds : gmap string bindTarget) (fields : Fields) (template : smap)
    (req : Request) (payload : inlineUpdatePayload) :
  CtxRequest ctx = Some req ->
  Method req = "POST" ->
  parseInlinePayload req ctx fields w = (w1, Some payload) ->
  parseBoolFlag (PInline payload) = true ->
  handleInlineUpdate now ctx w ct binds fields template =
  let bindKey := Str.TrimSpace (PBind payload) in
  if String.eqb bindKey "" then
    (w1, (true, Some (writeInlineJSON StatusBadRequest (errorBody "bind is required"))))
  else
    match binds !! bindKey with
    | None =>
        if hasBoundaryPlugin (VMap template) then (w1, (false, None))
        else (w1, (true, Some (writeInlineJSON StatusBadRequest (errorBody "unknown bind"))))
    | Some _ =>
        let recordID := inlineRecordID ctx fields payload in
        if Z.eqb recordID 0 then
          (w1, (true, Some (writeInlineJSON StatusBadRequest (errorBody "record_id is required"))))
        else
          match inlineValue req fields bindKey (PValue payload) with
          | inl (msg, logged) =>
              (if logged then addError w1 "content_records_plugin: upload failed" else w1,
               (true, Some (writeInlineJSON StatusBadRequest (errorBody msg))))
          | inr value =>
              let '(db', result) := updateRecordField now (WDB w1) recordID ct bindKey value in
              let w' :=
                {| WDB := db'; WErrors := WErrors w1;
                   WCalls := WCalls w1 ++ [CallUpdateRecordField recordID ct bindKey value] |} in
              match result with
              | inl _ =>
                  (addError w' "content_records_plugin: inline update failed",
                   (true, Some (writeInlineJSON StatusInternalServerError
                                  (errorBody "update failed"))))
              | inr _ =>
                  (w', (true, Some (writeInlineJSON StatusOK (okBody recordID bindKey value))))
              end
          end
    end.
Proof.
  intros Hreq Hpost Hparse Hflag. unfold handleInlineUpdate.
  rewrite Hreq, Hpost, Hparse, Hflag. by cbn [negb String.eqb Ascii.eqb Bool.eqb].
Qed.

(** C3, as the code has it.  On an inline-edit POST (a POST whose payload
    decodes, with a truthy inline flag): an empty bind key is answered with
    the 400 body "bind is required"; a bind key that is not in the bind
    index is declined, with no field update, no store call and no response,
    when the template holds a boundary at an address [hasBoundaryPlugin]
    searches, and is answered with the 400 body "unknown bind" when it
    holds none there; a bind key of the index without a record id, or with
    a failing upload, is answered 400; otherwise exactly one
    [updateRecordField] call is made, answered with the 200 body
    [{status: "ok", record_id, bind, value}] when it succeeds and with the
    500 body "update failed" when it fails.  A 200 response is given in no
    other case, and in no case is there more than one call. *)
Theorem handleInlineUpdate_protocol (now : Z) (ctx : Context) (w w1 : World) (ct : string)
    (binds : gmap string bindTarget) (fields : Fields) (template : smap)
    (req : Request) (payload : inlineUpdatePayload) :
  CtxRequest ctx = Some req ->
  Method req = "POST" ->
  parseInlinePayload req ctx fields w = (w1, Some payload) ->
  parseBoolFlag (PInline payload) = true ->
  let bindKey := Str.TrimSpace (PBind payload) in
  let recordID := inlineRecordID ctx fields payload in
  let out := handleInlineUpdate now ctx w ct binds fields template in
  let badRequest := fun msg : string =>
    (true, Some {| Status := 400; Payload := {[ "error" := msg ]} |}) in
  (WDB w1 = WDB w /\ WCalls w1 = WCalls w) /\
  (bindKey = "" -> out = (w1, badRequest "bind is required")) /\
  (bindKey <> "" -> binds !! bindKey = None ->
     (exists addr, boundaryAt (VMap template) addr = true) ->
     out = (w1, (false, None))) /\
  (bindKey <> "" -> binds !! bindKey = None ->
     (forall addr, boundaryAt (VMap template) addr = false) ->
     out = (w1, badRequest "unknown bind")) /\
  (bindKey <> "" -> is_Some (binds !! bindKey) -> recordID = 0%Z ->
     out = (w1, badRequest "record_id is required")) /\
  (bindKey <> "" -> is_Some (binds !! bindKey) -> recordID <> 0%Z ->
     forall (msg : string) (logged : bool),
       inlineValue req fields bindKey (PValue payload) = inl (msg, logged) ->
       snd out = badRequest msg /\ WDB (fst out) = WDB w /\ WCalls (fst out) = WCalls w) /\
  (bindKey <> "" -> is_Some (binds !! bindKey) -> recordID <> 0%Z ->
     forall value : string,
       inlineValue req fields bindKey (PValue payload) = inr value ->
       WCalls (fst out) = WCalls w ++ [CallUpdateRecordField recordID ct bindKey value] /\
       WDB (fst out) = fst (updateRecordField now (WDB w) recordID ct bindKey value) /\
       (snd (updateRecordField now (WDB w) recordID ct bindKey value) = inr tt ->
          WErrors (fst out) = WErrors w1 /\
          snd out =
            (true, Some {| Status := 200;
                           Payload := list_to_map [ ("status", "ok");
                                                    ("record_id", FormatInt recordID);
                                                    ("bind", bindKey);
                                                    ("value", value) ] |}) /\
          parseRecordID (FormatInt recordID) = recordID) /\
       (forall f : failure,
          snd (updateRecordField now (WDB w) recordID ct bindKey value) = inl f ->
          snd out = (true, Some {| Status := 500;
                                   Payload := {[ "error" := "update failed" ]} |}))) /\
  (forall r : Response,
     snd (snd out) = Some r -> Status r = 200%Z ->
     bindKey <> "" /\ is_Some (binds !! bindKey) /\ recordID <> 0%Z /\
     exists value : string,
       inlineValue req fields bindKey (PValue payload) = inr value /\
       updateRecordField now (WDB w) recordID ct bindKey value = (WDB (fst out), inr tt) /\
       WCalls (fst out) = WCalls w ++ [CallUpdateRecordField recordID ct bindKey value]) /\
  (length (WCalls (fst out)) <= S (length (WCalls w)))%nat.
Proof.
  intros Hreq Hpost Hparse Hflag. cbv zeta.
  rewrite (handleInlineUpdate_inline_post now ctx w w1 ct binds fields template req payload
             Hreq Hpost Hparse Hflag).
  cbv zeta.
  destruct (parseInlinePayload_state req ctx fields w) as [Hdb Hcalls].
  rewrite Hparse in Hdb, Hcalls. cbn [fst] in Hdb, Hcalls.
  rewrite Hdb.
  set (bindKey := Str.TrimSpace (PBind payload)).
  set (recordID := inlineRecordID ctx fields payload).
  assert (Hno : forall (st : Z) (body : gmap string string) (r : Response),
             st <> 200%Z ->
             Some (writeInlineJSON st body) = Some r -> Status r = 200%Z -> False).
  { intros st body r Hst [= <-] Hs. simpl in Hs. by subst. }
  split; [done|].
  destruct (String.eqb_spec bindKey "") as [Hb|Hb].
  { split; [done|]. repeat (split; [by intros ?|]). split.
    - cbn [fst snd]. intros r H1 H2. exfalso. by refine (Hno _ _ _ _ H1 H2).
    - cbn [fst]. rewrite Hcalls. lia. }
  split; [by intros ?|].
  destruct (binds !! bindKey) as [t|] eqn:Ht.
  2:{ split.
      { intros _ _ Hex. apply hasBoundaryPlugin_spec in Hex. by rewrite Hex. }
      split.
      { intros _ _ Hall. destruct (hasBoundaryPlugin (VMap template)) eqn:E; [|done].
        apply hasBoundaryPlugin_spec in E as [addr Ha]. rewrite Hall in Ha. discriminate. }
      split; [by intros _ [? ?]|]. split; [by intros _ [? ?]|]. split; [by intros _ [? ?]|].
      split.
      - destruct (hasBoundaryPlugin (VMap template)); cbn [fst snd]; [done|].
        intros r H1 H2. exfalso. by refine (Hno _ _ _ _ H1 H2).
      - destruct (hasBoundaryPlugin (VMap template)); cbn [fst]; rewrite Hcalls; lia. }
  split; [done|]. split; [done|].
  destruct (Z.eqb_spec recordID 0) as [Hz|Hz].
  { split; [done|]. split; [by intros _ _ ?|]. split; [by intros _ _ ?|]. split.
    - cbn [fst snd]. intros r H1 H2. exfalso. by refine (Hno _ _ _ _ H1 H2).
    - cbn [fst]. rewrite Hcalls. lia. }
  split; [by intros _ _ ?|].
  destruct (inlineValue req fields bindKey (PValue payload)) as [[msg logged]|value] eqn:Eval.
  { split.
    { intros _ _ _ msg' logged' [= <- <-]. cbn [fst snd]. split; [done|].
      destruct logged; cbn [addError WDB WCalls]; by rewrite ?Hdb, Hcalls. }
    split; [by intros _ _ _ ? [=]|]. split.
    - cbn [fst snd]. intros r H1 H2. exfalso. by refine (Hno _ _ _ _ H1 H2).
    - destruct logged; cbn [fst addError WCalls]; rewrite Hcalls; lia. }
  split; [by intros _ _ _ ? ? [=]|].
  destruct (updateRecordField now (WDB w) recordID ct bindKey value) as [db' [f|[]]] eqn:Eupd;
    cbn [fst snd addError WDB WCalls WErrors].
  - split.
    { intros _ _ _ value' [= <-]. rewrite Eupd, Hcalls. cbn [fst snd].
      split; [done|]. split; [done|]. split; [done|]. by intros f' _. }
    split.
    + intros r H1 H2. exfalso. by refine (Hno _ _ _ _ H1 H2).
    + rewrite length_app, Hcalls. simpl. lia.
  - split.
    { intros _ _ _ value' [= <-]. rewrite Eupd, Hcalls. cbn [fst snd].
      split; [done|]. split; [done|]. split; [|done].
      intros _. split; [done|]. split; [done|].
      apply parseRecordID_FormatInt_id, inlineRecordID_range. }
    split.
    + intros r _ _. split; [done|]. split; [by eexists|]. split; [done|].
      exists value. by rewrite Hcalls.
    + rewrite length_app, Hcalls. simpl. lia.
Qed.

Lemma handleInlineUpdate_protocol_witness :
  handleInlineUpdate 5 (sampleContext "inner") sampleWorld "article"
    (collectBinds sampleTemplate "" ∅) sampleFields sampleTemplate
  = (sampleWorld, (false, None)) /\
  snd (handleInlineUpdate 5 (sampleContext "title") sampleWorld "article"
         (collectBinds sampleTemplate "" ∅) sampleFields sampleTemplate)
  = (true, Some {| Status := 200;
                   Payload := list_to_map [ ("status", "ok"); ("record_id", "1");
                                            ("bind", "title"); ("value", "Hi") ] |}).
Proof.
  split.
  - pose proof (handleInlineUpdate_protocol 5 (sampleContext "inner") sampleWorld sampleWorld
                  "article" (collectBinds sampleTemplate "" ∅) sampleFields sampleTemplate
                  (sampleRequest "inner")
                  {| PInline := "1"; PRecordID := "1"; PBind := "inner"; PValue := "Hi" |}
                  eq_refl eq_refl eq_refl eq_refl) as H.
    cbv zeta in H. destruct H as (_ & _ & H & _). apply H.
    + discriminate.
    + vm_compute. reflexivity.
    + exists [2%nat]. vm_compute. reflexivity.
  - pose proof (handleInlineUpdate_protocol 5 (sampleContext "title") sampleWorld sampleWorld
                  "article" (collectBinds sampleTemplate "" ∅) sampleFields sampleTemplate
                  (sampleRequest "title")
                  {| PInline := "1"; PRecordID := "1"; PBind := "title"; PValue := "Hi" |}
                  eq_refl eq_refl eq_refl eq_refl) as H.
    cbv zeta in H. destruct H as (_ & _ & _ & _ & _ & _ & H & _).
    destruct (H ltac:(discriminate) ltac:(vm_compute; eauto) ltac:(discriminate) "Hi" eq_refl)
      as (_ & _ & Hok & _).
    destruct (Hok ltac:(vm_compute; reflexivity)) as (_ & Hout & _).
    exact Hout.
Defined.

(** C3, as stated, fails.  A template can hold a boundary where
    [hasBoundaryPlugin] does not search, below a key with the [@] prefix:
    the POST for a bind key that is not in the bind index is then answered
    with the 400 body "unknown bind", and not declined.  And an empty bind
    key, which is in no bind index, is answered with the 400 body "bind is
    required" although the template holds a boundary that is searched. *)
Lemma handleInlineUpdate_counterexample :
  let template :=
    [ ("@meta", VMap [ ("@type", VString "<PLUGIN>");
                       ("plugin", VString "ContentRecords@2.1.0") ]) ] in
  (nodeAt (VMap template) [0%nat] =
     Some (VMap [ ("@type", VString "<PLUGIN>"); ("plugin", VString "ContentRecords@2.1.0") ]) /\
   isBoundaryPlugin [ ("@type", VString "<PLUGIN>");
                      ("plugin", VString "ContentRecords@2.1.0") ] = true /\
   collectBinds template "" ∅ !! "inner" = None /\
   handleInlineUpdate 5 (sampleContext "inner") sampleWorld "article"
     (collectBinds template "" ∅) sampleFields template
   = (sampleWorld,
      (true, Some {| Status := 400; Payload := {[ "error" := "unknown bind" ]} |}))) /\
  (hasBoundaryPlugin (VMap sampleTemplate) = true /\
   collectBinds sampleTemplate "" ∅ !! "" = None /\
   handleInlineUpdate 5 (sampleContext "") sampleWorld "article"
     (collectBinds sampleTemplate "" ∅) sampleFields sampleTemplate
   = (sampleWorld,
      (true, Some {| Status := 400; Payload := {[ "error" := "bind is required" ]} |}))).
Proof. cbv zeta. repeat split; vm_compute; reflexivity. Qed.

(** The same POST against a template without a boundary is answered with
    the 400 body "unknown bind". *)
Example handleInlineUpdate_400 :
  snd (handleInlineUpdate 5 (sampleContext "inner") sampleWorld "article"
         ∅ sampleFields [("10", VMap [("value", VString "x")])])
  = (true, Some {| Status := 400; Payload := {[ "error" := "unknown bind" ]} |}).
Proof. vm_compute. reflexivity. Qed.

(** The spec's scenario: after the inline POST for "title" with the value
    "Hi", fetching the record shows the new title and the old body. *)
Example handleInlineUpdate_then_fetch :
  fetchRecordByID
    (WDB (fst (handleInlineUpdate 5 (sampleContext "title") sampleWorld "article"
                 (collectBinds sampleTemplate "" ∅) sampleFields sampleTemplate)))
    1 "article"
  = inr {| ID := 1; Fields_ := <["title" := "Hi"]> {[ "body" := "B" ]} |}.
Proof. vm_compute. reflexivity. Qed.


(** * Further properties *)

(** ** The record store: round trips, frames, listings *)

(** X1. A created record is fetched back: on a store without orphan field
    rows whose ids are not used up, [createRecord] returns the next id, which
    is not zero and not in use, and fetching that id (with the type, or
    without one) returns exactly the supplied fields. *)
Theorem createRecord_then_fetch (now : Z) (db : DB) (ct : string)
    (values : gmap string string) :
  noOrphans db ->
  (lastID db < maxInt64)%Z ->
  let id := (lastID db + 1)%Z in
  snd (createRecord now db ct values) = inr id /\
  (0 < id <= maxInt64)%Z /\
  records db !! id = None /\
  fetchRecordByID (fst (createRecord now db ct values)) id ct
    = inr {| ID := id; Fields_ := values |} /\
  fetchRecordByID (fst (createRecord now db ct values)) id ""
    = inr {| ID := id; Fields_ := values |}.
Proof.
  intros Hno Hids. cbv zeta.
  destruct (createRecord_ok now db ct values Hids)
    as (db' & Hrun & Hfresh & Hrec & _ & Hrows & _).
  { intros k _. by rewrite (noOrphans_next db Hno), lookup_empty. }
  rewrite (noOrphans_next db Hno), (right_id_L ∅ (∪)) in Hrows.
  rewrite Hrun. cbn [fst snd].
  pose proof (lastID_nonneg db) as Hpos.
  assert (Hid : (lastID db + 1)%Z <> 0%Z) by lia.
  split; [done|]. split; [lia|]. split; [done|]. split.
  - unfold fetchRecordByID, fetchRecordFields. apply Z.eqb_neq in Hid as ->.
    rewrite Hrec, lookup_insert_eq. unfold typeMatches; simpl.
    destruct (negb (String.eqb ct "")); [by rewrite String.eqb_refl, Hrows|by rewrite Hrows].
  - unfold fetchRecordByID, fetchRecordFields. apply Z.eqb_neq in Hid as ->.
    rewrite Hrec, lookup_insert_eq. unfold typeMatches; simpl. by rewrite Hrows.
Qed.

Lemma createRecord_then_fetch_witness :
  snd (createRecord 5 sampleDB "article" {[ "title" := "T" ]}) = inr 2%Z /\
  fetchRecordByID (fst (createRecord 5 sampleDB "article" {[ "title" := "T" ]})) 2 "article"
    = inr {| ID := 2; Fields_ := {[ "title" := "T" ]} |}.
Proof.
  pose proof (createRecord_then_fetch 5 sampleDB "article" {[ "title" := "T" ]}
                noOrphans_sampleDB eq_refl) as H.
  cbv zeta in H. destruct H as (H1 & _ & _ & H2 & _). split; [exact H1 | exact H2].
Defined.

(** X2. [deleteRecord] on an existing record of the type removes the record
    and all its field rows: the id can no longer be fetched, while every
    other record and its fields stay as they were. *)
Theorem deleteRecord_removes (db : DB) (id : Z) (ct : string) :
  hasRecord db id ct = true ->
  let db' := fst (deleteRecord db id ct) in
  snd (deleteRecord db id ct) = inr tt /\
  records db' !! id = None /\
  fieldRows db' id = ∅ /\
  (forall ct', exists e, fetchRecordByID db' id ct' = inl e) /\
  (forall rid, rid <> id ->
     records db' !! rid = records db !! rid /\ fieldRows db' rid = fieldRows db rid) /\
  S (countRecords db' ct) = countRecords db ct.
Proof.
  intros Hhas. cbv zeta. unfold hasRecord in Hhas.
  destruct (records db !! id) as [r|] eqn:Er; [|done].
  unfold deleteRecord, transaction, txBind, shadowed. cbn [deleteFieldRows].
  unfold deleteRecordRow, txRet; simpl. rewrite Er, Hhas. cbn [fst snd].
  assert (Hfetch : forall ct', exists e,
             fetchRecordByID {| records := delete id (records db);
                                record_fields := delete id (record_fields db);
                                sequence := sequence db |} id ct' = inl e).
  { intros ct'. unfold fetchRecordByID. destruct (Z.eqb id 0); [eauto|].
    simpl. rewrite lookup_delete_eq. eauto. }
  split; [done|]. split; [simpl; by rewrite lookup_delete_eq|].
  split; [unfold fieldRows; simpl; by rewrite lookup_delete_eq|].
  split; [exact Hfetch|].
  split; [intros rid Hne; unfold fieldRows; simpl; by rewrite !lookup_delete_ne|].
  unfold countRecords; simpl.
  assert (Hpos : forall m : gmap Z recordRow, is_Some (m !! id) -> S (size (delete id m)) = size m).
  { intros m [x Hx]. rewrite map_size_delete, Hx.
    assert (size m <> O) by (intros E; apply map_size_empty_inv in E; by subst).
    simpl. lia. }
  destruct (String.eqb (Str.TrimSpace ct) "") eqn:Hb; [by apply Hpos|].
  rewrite map_filter_delete. apply Hpos. exists r.
  apply map_lookup_filter_Some. split; [done|]. simpl.
  unfold typeMatches in Hhas. destruct (negb (String.eqb ct "")) eqn:Hc.
  - by apply String.eqb_eq.
  - apply negb_false_iff, String.eqb_eq in Hc. subst ct. discriminate Hb.
Qed.

Lemma deleteRecord_removes_witness :
  records (fst (deleteRecord sampleDB 1 "article")) !! 1%Z = None /\
  fieldRows (fst (deleteRecord sampleDB 1 "article")) 1 = ∅.
Proof.
  pose proof (deleteRecord_removes sampleDB 1 "article" eq_refl) as H.
  cbv zeta in H. destruct H as (_ & H1 & H2 & _). by split.
Defined.


Lemma fetchRecordsByIDs_filter (db : DB) (ids : list Z) (ct : string) :
  fetchRecordsByIDs db ids ct =
    (fun id => {| ID := id; Fields_ := fieldRows db id |}) <$>
      filter (fun id => id <> 0%Z /\ hasRecord db id ct = true) ids /\
  (length (fetchRecordsByIDs db ids ct) <= length ids)%nat.
Proof.
  assert (Hgen : forall acc,
             fold_left
               (fun records id =>
                  match fetchRecordByID db id ct with
                  | inl _ => records
                  | inr rec => records ++ [rec]
                  end) ids acc
             = acc ++ ((fun id => {| ID := id; Fields_ := fieldRows db id |}) <$>
                         filter (fun id => id <> 0%Z /\ hasRecord db id ct = true) ids)).
  { induction ids as [|id ids IH]; intros acc; [by rewrite app_nil_r|].
    cbn [fold_left]. rewrite IH. unfold fetchRecordByID, hasRecord, fetchRecordFields.
    destruct (Z.eqb_spec id 0) as [->|Hz].
    { rewrite filter_cons_False; [done|]. by intros [? _]. }
    destruct (records db !! id) as [r|] eqn:Er.
    - destruct (typeMatches ct r) eqn:Hm.
      + rewrite filter_cons_True by (by rewrite Er). rewrite fmap_cons.
        by rewrite <- app_assoc.
      + rewrite filter_cons_False; [done|]. intros [_ H]. rewrite Er in H. congruence.
    - rewrite filter_cons_False; [done|]. intros [_ H]. by rewrite Er in H. }
  unfold fetchRecordsByIDs. rewrite Hgen. cbn [app]. split; [done|].
  rewrite length_fmap. apply length_filter.
Qed.

(** X3. [fetchRecordsByIDs] never fails: it returns, in the order of the
    ids and with their repetitions, the records of the ids that are not
    zero and have a record (of the type, when a type is given); every other
    id is skipped silently. *)
Theorem fetchRecordsByIDs_skips_missing (db : DB) (ids : list Z) (ct : string) :
  fetchRecordsByIDs db ids ct =
    (fun id => {| ID := id; Fields_ := fieldRows db id |}) <$>
      filter (fun id => id <> 0%Z /\ hasRecord db id ct = true) ids /\
  (length (fetchRecordsByIDs db ids ct) <= length ids)%nat.
Proof. apply fetchRecordsByIDs_filter. Qed.

Lemma fetchRecordIDs_default_ids
    (runQuery : string -> DB -> option (list (list sqlValue)))
    (Float64ToInt64 : Z -> Z -> Z) (db : DB) (sqlQuery ct : string) :
  Str.TrimSpace sqlQuery = "" ->
  exists ids,
    fetchRecordIDs runQuery Float64ToInt64 db sqlQuery ct = Some ids /\
    StronglySorted Z.lt ids /\
    (forall id, id ∈ ids <->
                exists r, records db !! id = Some r /\
                          (Str.TrimSpace ct = "" \/ rtype r = ct)) /\
    length ids = countRecords db ct.
Proof.
  intros Hq. unfold fetchRecordIDs. rewrite Hq. cbn [String.eqb].
  unfold selectIDs, countRecords.
  set (rows := if String.eqb (Str.TrimSpace ct) "" then records db
               else filter (fun kv => rtype (snd kv) = ct) (records db)).
  assert (Hscan : forall l : list Z,
             scanIDs Float64ToInt64 ((fun id => [SQLInt id]) <$> l) = l).
  { induction l as [|x l IH]; [done|]. unfold scanIDs in *. cbn. f_equal. exact IH. }
  exists (merge_sort Z.le (fst <$> map_to_list rows)).
  rewrite Hscan. split; [done|].
  assert (Hperm : merge_sort Z.le (fst <$> map_to_list rows) ≡ₚ fst <$> map_to_list rows)
    by apply merge_sort_Permutation.
  assert (Hnd : NoDup (merge_sort Z.le (fst <$> map_to_list rows))).
  { rewrite Hperm. apply NoDup_fst_map_to_list. }
  split; [|split].
  - pose proof (StronglySorted_merge_sort Z.le (fst <$> map_to_list rows)) as Hs.
    revert Hnd. generalize dependent (merge_sort Z.le (fst <$> map_to_list rows)).
    intros l _ Hs. induction Hs as [|x l Hs IH Hall]; intros Hnd; [constructor|].
    apply NoDup_cons in Hnd as [Hx Hnd]. constructor; [by apply IH|].
    apply Forall_forall. intros y Hy.
    pose proof (proj1 (Forall_forall _ _) Hall y Hy) as Hle.
    assert (x <> y) by (intros ->; by apply Hx). simpl in Hle. lia.
  - intros id. rewrite Hperm, list_elem_of_fmap. split.
    + intros [[k r] [-> Hin]]. apply elem_of_map_to_list in Hin. simpl.
      exists r. subst rows. destruct (String.eqb_spec (Str.TrimSpace ct) "") as [E|E].
      * by split; [|left].
      * apply map_lookup_filter_Some in Hin as [Hin Hty]. by split; [|right].
    + intros (r & Hr & Hty). exists (id, r). split; [done|].
      apply elem_of_map_to_list. subst rows.
      destruct (String.eqb_spec (Str.TrimSpace ct) "") as [E|E]; [done|].
      apply map_lookup_filter_Some. split; [done|]. by destruct Hty.
  - rewrite Hperm, length_fmap, length_map_to_list. subst rows.
    by destruct (String.eqb (Str.TrimSpace ct) "").
Qed.

(** X4. The default listing (no query configured) returns every id of the
    type, each once, in ascending order, and as many as [countRecords]
    counts; for a blank type these are all records. *)
Theorem fetchRecordIDs_default_listing
    (runQuery : string -> DB -> option (list (list sqlValue)))
    (Float64ToInt64 : Z -> Z -> Z) (db : DB) (sqlQuery ct : string) :
  Str.TrimSpace sqlQuery = "" ->
  exists ids,
    fetchRecordIDs runQuery Float64ToInt64 db sqlQuery ct = Some ids /\
    StronglySorted Z.lt ids /\
    (forall id, id ∈ ids <->
                exists r, records db !! id = Some r /\
                          (Str.TrimSpace ct = "" \/ rtype r = ct)) /\
    length ids = countRecords db ct.
Proof. apply fetchRecordIDs_default_ids. Qed.

Lemma fetchRecordIDs_default_listing_witness :
  exists ids,
    fetchRecordIDs (fun _ _ => None) (fun m _ => m) sampleDB " " "article" = Some ids /\
    length ids = countRecords sampleDB "article".
Proof.
  destruct (fetchRecordIDs_default_listing (fun _ _ => None) (fun m _ => m)
              sampleDB " " "article" eq_refl) as (ids & H1 & _ & _ & H2).
  by exists ids.
Defined.

(** X5. The two listings of [fetchRecordsForList] agree: on a store whose
    ids are not zero, and for a type that is empty or not blank, the default
    listing is [fetchRecordsByIDs] on the listed ids. *)
Theorem fetchRecords_default_by_ids
    (runQuery : string -> DB -> option (list (list sqlValue)))
    (Float64ToInt64 : Z -> Z -> Z) (db : DB) (sqlQuery ct : string) :
  Str.TrimSpace sqlQuery = "" ->
  records db !! 0%Z = None ->
  ct = "" \/ Str.TrimSpace ct <> "" ->
  exists ids,
    fetchRecordIDs runQuery Float64ToInt64 db sqlQuery ct = Some ids /\
    fetchRecords runQuery Float64ToInt64 db sqlQuery ct
      = Some (fetchRecordsByIDs db ids ct) /\
    length (fetchRecordsByIDs db ids ct) = countRecords db ct.
Proof.
  intros Hq Hzero Hct.
  destruct (fetchRecordIDs_default_ids runQuery Float64ToInt64 db sqlQuery ct Hq)
    as (ids & Hids & _ & Hmem & Hlen).
  exists ids. unfold fetchRecords. rewrite Hids. split; [done|].
  destruct (fetchRecordsByIDs_filter db ids ct) as [-> _].
  assert (Hok : forall id, id ∈ ids -> id <> 0%Z /\ hasRecord db id ct = true).
  { intros id Hin. destruct (proj1 (Hmem id) Hin) as (r & Hr & Hty).
    split; [intros ->; congruence|]. unfold hasRecord, typeMatches. rewrite Hr.
    destruct Hct as [->|Hne]; [done|].
    destruct Hty as [E|E]; [done|]. subst ct.
    destruct (String.eqb_spec (rtype r) ""); [done|]. simpl. apply String.eqb_refl. }
  assert (Hall : filter (fun id => id <> 0%Z /\ hasRecord db id ct = true) ids = ids).
  { clear Hlen Hids Hmem. induction ids as [|id ids IH]; [done|].
    rewrite filter_cons_True by (apply Hok, elem_of_cons; by left). f_equal. apply IH.
    intros id' Hin. apply Hok, elem_of_cons. by right. }
  rewrite Hall. split; [done|]. by rewrite length_fmap.
Qed.

Lemma fetchRecords_default_by_ids_witness :
  exists ids,
    fetchRecords (fun _ _ => None) (fun m _ => m) sampleDB "" "article"
      = Some (fetchRecordsByIDs sampleDB ids "article").
Proof.
  destruct (fetchRecords_default_by_ids (fun _ _ => None) (fun m _ => m)
              sampleDB "" "article" eq_refl eq_refl) as (ids & _ & H & _).
  - right. vm_compute. discriminate.
  - by exists ids.
Defined.

(** X6. On a store without orphan field rows whose ids are not used up,
    [createRecord] raises the count of its type, and the count of all
    records, by one, and leaves the count of every other type as it was.
    When [createRecord] fails, no count changes. *)
Theorem createRecord_counts (now : Z) (db : DB) (ct : string) (values : gmap string string) :
  let db' := fst (createRecord now db ct values) in
  (noOrphans db -> (lastID db < maxInt64)%Z ->
     countRecords db' ct = S (countRecords db ct) /\
     (forall ct', Str.TrimSpace ct' = "" -> countRecords db' ct' = S (countRecords db ct')) /\
     (forall ct', Str.TrimSpace ct' <> "" -> ct' <> ct ->
                  countRecords db' ct' = countRecords db ct')) /\
  (forall f, snd (createRecord now db ct values) = inl f ->
     forall ct', countRecords db' ct' = countRecords db ct').
Proof.
  cbv zeta. split.
  - intros Hno Hids.
    destruct (createRecord_ok now db ct values Hids) as (db' & -> & Hfresh & Hrec & _ & _ & _).
    { intros k _. by rewrite (noOrphans_next db Hno), lookup_empty. }
    cbn [fst]. split; [by apply (countRecords_insert db db' (lastID db + 1) ct now now)|].
    unfold countRecords. rewrite Hrec. split.
    + intros ct' ->. cbn [String.eqb]. by apply map_size_insert_None.
    + intros ct' Hne Hct. apply String.eqb_neq in Hne as ->.
      rewrite map_filter_insert_not'; [done|by simpl|]. intros y Hy. congruence.
  - intros f Hf ct'.
    destruct (createRecord now db ct values) as [db' r] eqn:Hrun. cbn [fst snd] in *. subst r.
    apply createRecord_failure in Hrun. by subst.
Qed.

Lemma createRecord_counts_witness :
  countRecords (fst (createRecord 5 sampleDB "page" ∅)) "page" = 1%nat /\
  countRecords (fst (createRecord 5 sampleDB "page" ∅)) "article" = 1%nat.
Proof.
  pose proof (createRecord_counts 5 sampleDB "page" ∅) as H. cbv zeta in H.
  destruct H as [H _]. destruct (H noOrphans_sampleDB eq_refl) as (H1 & _ & H3). split.
  - rewrite H1. reflexivity.
  - rewrite H3; [reflexivity|vm_compute; discriminate|discriminate].
Defined.

(** X7. No store function leaves a field row without a record behind, on a
    store that has none: [createRecord], [updateRecordField], [deleteRecord]
    and [ensureSeed] keep this for every argument, [updateRecord] for an id
    that has a record. *)
Theorem store_keeps_noOrphans (now : Z) (db : DB) :
  noOrphans db ->
  (forall ct values, noOrphans (fst (createRecord now db ct values))) /\
  (forall id ct bindKey value,
      noOrphans (fst (updateRecordField now db id ct bindKey value))) /\
  (forall id ct, noOrphans (fst (deleteRecord db id ct))) /\
  (forall id ct values,
      is_Some (records db !! id) -> noOrphans (fst (updateRecord now db id ct values))) /\
  (forall Sprintf_v template binds ct,
      noOrphans (fst (ensureSeed Sprintf_v now db template binds ct))).
Proof.
  intros Hno. split; [|split; [|split; [|split]]].
  - intros. by apply createRecord_noOrphans.
  - intros. by apply updateRecordField_noOrphans.
  - intros. by apply deleteRecord_noOrphans.
  - intros. by apply updateRecord_noOrphans.
  - intros Sprintf_v template binds ct. unfold ensureSeed, createRecordFromTemplate.
    destruct (0 <? countRecords db ct)%nat; [done|].
    pose proof (createRecord_noOrphans now db ct
                  (defaultValuesFromTemplate Sprintf_v template binds) Hno) as H.
    by destruct (createRecord now db ct _) as [db' [e|id]].
Qed.

(** The store that holds one record: a second record is created, a field of
    the record is set, the record is rewritten, the record is deleted. *)
Lemma store_keeps_noOrphans_witness :
  noOrphans (fst (createRecord 5 sampleDB "page" {[ "title" := "T" ]})) /\
  noOrphans (fst (updateRecordField 5 sampleDB 1 "article" "lead" "L")) /\
  noOrphans (fst (updateRecord 5 sampleDB 1 "article" {[ "title" := "C" ]})) /\
  noOrphans (fst (deleteRecord sampleDB 1 "article")).
Proof.
  pose proof (store_keeps_noOrphans 5 sampleDB noOrphans_sampleDB) as (H1 & H2 & H3 & H4 & _).
  split; [apply H1|]. split; [apply H2|]. split; [|apply H3].
  apply H4. vm_compute. eauto.
Defined.

(** X8. What [createRecord] commits is all or nothing, but a failing call
    does not always close its transaction.  When the ids are used up, the
    INSERT into [records] fails and the transaction is rolled back.  When a
    field row without a record lies under the next id, with a key of the
    values, the INSERT of that field fails: the constraint error is
    returned and no row is committed, the record row included, but the
    transaction is left open, since the error is held by the [err] of the
    [if] statement and the deferred function sees none.  Otherwise the next
    id is returned and the record holds the values, beside the rows that
    lay under the id. *)
Theorem createRecord_all_or_nothing (now : Z) (db : DB) (ct : string)
    (values : gmap string string) :
  let id := (lastID db + 1)%Z in
  ((maxInt64 <= lastID db)%Z ->
   createRecord now db ct values = (db, inl {| Err := ErrFull; TxOpen := false |})) /\
  ((lastID db < maxInt64)%Z ->
   (exists k, is_Some (values !! k) /\ is_Some (fieldRows db id !! k)) ->
   createRecord now db ct values = (db, inl {| Err := ErrConstraint; TxOpen := true |})) /\
  ((lastID db < maxInt64)%Z ->
   (forall k, is_Some (values !! k) -> fieldRows db id !! k = None) ->
   snd (createRecord now db ct values) = inr id /\
   records (fst (createRecord now db ct values)) =
     <[id := {| rtype := ct; created_at := now; updated_at := now |}]> (records db) /\
   fieldRows (fst (createRecord now db ct values)) id = values ∪ fieldRows db id /\
   (forall id', id' <> id ->
      fieldRows (fst (createRecord now db ct values)) id' = fieldRows db id')).
Proof.
  cbv zeta. split; [|split].
  - intros Hfull. rewrite createRecord_cases. apply Z.leb_le in Hfull. by rewrite Hfull.
  - apply createRecord_collision.
  - intros Hids Hfree.
    destruct (createRecord_ok now db ct values Hids Hfree)
      as (db' & -> & _ & Hrec & _ & Hrows & Hother).
    by cbn [fst snd].
Qed.

Lemma createRecord_all_or_nothing_witness :
  createRecord 6 (fst (updateRecord 5 emptyDB 1 "" {[ "title" := "C" ]})) "article"
    {[ "title" := "T" ]}
  = (fst (updateRecord 5 emptyDB 1 "" {[ "title" := "C" ]}),
     inl {| Err := ErrConstraint; TxOpen := true |}).
Proof.
  apply (proj1 (proj2 (createRecord_all_or_nothing 6
                  (fst (updateRecord 5 emptyDB 1 "" {[ "title" := "C" ]})) "article"
                  {[ "title" := "T" ]}))).
  - vm_compute. reflexivity.
  - exists "title". split; vm_compute; eauto.
Defined.

(** X9. [updateRecord] touches one record only: every other record row and
    the field rows of every other record are as before, and the record
    keeps its type and its creation time. *)
Theorem updateRecord_frame (now : Z) (db : DB) (id : Z) (ct : string)
    (values : gmap string string) :
  let db' := fst (updateRecord now db id ct values) in
  (forall rid, rid <> id ->
     records db' !! rid = records db !! rid /\ fieldRows db' rid = fieldRows db rid) /\
  (forall r, records db !! id = Some r ->
     exists r', records db' !! id = Some r' /\
                rtype r' = rtype r /\ created_at r' = created_at r) /\
  (records db !! id = None -> records db' !! id = None) /\
  sequence db' = sequence db.
Proof.
  cbv zeta. unfold updateRecord, transaction, txBind, shadowed.
  destruct (touchRecord now id ct db) as [e|[rows db1]] eqn:Et.
  { unfold touchRecord in Et. destruct (records db !! id) as [r|]; [|done].
    by destruct (typeMatches ct r). }
  assert (Hfields : record_fields db1 = record_fields db /\ sequence db1 = sequence db).
  { unfold touchRecord in Et. destruct (records db !! id) as [r|]; [|by injection Et as <- <-].
    destruct (typeMatches ct r); by injection Et as <- <-. }
  destruct Hfields as [Hfields Hseq1].
  cbn [deleteFieldRows].
  destruct (upsertFields_fresh id values _ (fieldRows_deleted db1 id))
    as (db' & Hrun & Hrec & Hseq & Hrows & Hother).
  rewrite Hrun. cbn [fst]. simpl in Hrec, Hseq.
  unfold touchRecord in Et. rewrite Hrec, Hseq.
  split; [|split; [|split]].
  - intros rid Hne. split.
    + destruct (records db !! id) as [r|]; [|by injection Et as <- <-].
      destruct (typeMatches ct r); injection Et as <- <-; [|done].
      simpl. by rewrite lookup_insert_ne.
    + rewrite Hother by done. unfold fieldRows; simpl.
      by rewrite lookup_delete_ne, Hfields.
  - intros r Hr. rewrite Hr in Et.
    destruct (typeMatches ct r); injection Et as <- <-.
    + simpl. rewrite lookup_insert_eq. by eexists.
    + by exists r.
  - intros Hr. rewrite Hr in Et. by injection Et as <- <-.
  - done.
Qed.

(** ** The template: paths, the bind index, boundaries *)

Lemma getWalk_app (l1 l2 : list string) :
  forall current : node,
    getWalk current (l1 ++ l2) =
      (if snd (getWalk current l1) then getWalk (fst (getWalk current l1)) l2
       else (VNil, false)).
Proof.
  induction l1 as [|part rest IH]; intros current; [reflexivity|].
  cbn [app getWalk]. destruct (String.eqb (Str.TrimSpace part) ""); [apply IH|].
  destruct current as [| | | | |m|m|l]; try reflexivity.
  - destruct (lookupKey _ m); [apply IH|reflexivity].
  - destruct (lookupIKey _ m); [apply IH|reflexivity].
  - destruct (listIndex _ _); [|reflexivity].
    destruct (nth_error l _); [apply IH|reflexivity].
Qed.

(** X10. Paths compose: when [p] leads to a map, the path [p.q] leads to
    what [q] leads to in that map; when [p] does not resolve, no path
    [p.q] does. *)
Theorem getAtPath_compose (root : smap) (p q : string) :
  (forall m, getAtPath root p = (VMap m, true) ->
             getAtPath root (p ++ "." ++ q) = getAtPath m q) /\
  (snd (getAtPath root p) = false -> getAtPath root (p ++ "." ++ q) = (VNil, false)).
Proof.
  unfold getAtPath. rewrite SplitDot_app, getWalk_app. split.
  - by intros m ->.
  - by intros ->.
Qed.

Lemma getAtPath_compose_witness :
  getAtPath sampleTemplate ("20.data" ++ "." ++ "template.10")
  = getAtPath [ ("template",
                 VMap [ ("10", VMap [ ("@bind",
                     VMap [("field", VString "inner"); ("path", VString "value")]) ]) ]) ]
      "template.10".
Proof. apply (proj1 (getAtPath_compose sampleTemplate "20.data" "template.10")). reflexivity. Defined.

(** X11. The bind index, exactly: [collectBinds] never overwrites an entry
    (the first registration of a field wins), and a field that was not
    bound is bound afterwards exactly when a map at an address the
    traversal reaches declares it. *)
Theorem collectBinds_index (m : smap) (path : string) (binds : gmap string bindTarget)
    (f : string) :
  (forall t, binds !! f = Some t -> collectBinds m path binds !! f = Some t) /\
  (binds !! f = None ->
   (is_Some (collectBinds m path binds !! f) <->
    exists addr, reachedAt (VMap m) addr = true /\ declaresAt (VMap m) addr f = true)).
Proof.
  split.
  - intros t Ht. by apply collectBindsFuel_keeps.
  - intros Hnone. split.
    + intros [t Ht]. by apply (collectBindsFuel_sound _ _ _ _ _ _ Ht).
    + intros (addr & Hr & Hd). apply (collectBindsFuel_complete addr); [lia|done|done].
Qed.

Lemma collectBinds_index_witness :
  collectBinds sampleTemplate "" {[ "title" := {| Path := "elsewhere" |} ]} !! "title"
  = Some {| Path := "elsewhere" |}.
Proof.
  apply (proj1 (collectBinds_index sampleTemplate ""
                  {[ "title" := {| Path := "elsewhere" |} ]} "title")).
  reflexivity.
Defined.

(** ** Flags *)



(** ** Stripping the plugin keys *)

Lemma stripPluginMetaKeys_VMap (m : smap) :
  stripPluginMetaKeys (VMap m) = VMap (strippedInstance m).
Proof. unfold strippedInstance. cbn [stripPluginMetaKeys]. by destruct (isBoundaryPlugin m). Qed.

Lemma isMetaKey_neq (k k' : string) :
  isMetaKey k = false -> isMetaKey k' = true -> String.eqb k k' = false.
Proof.
  intros Hk Hk'. destruct (String.eqb_spec k k') as [->|]; [congruence|done].
Qed.

Lemma lookupKey_strippedEntries (k : string) (m : smap) :
  isMetaKey k = false ->
  lookupKey k (strippedEntries m) = stripPluginMetaKeys <$> lookupKey k m.
Proof.
  intros Hk. induction m as [|[k' v] r IH]; [done|].
  cbn [strippedEntries fold_right fst snd lookupKey].
  destruct (isMetaKey k') eqn:Hk'.
  - rewrite (isMetaKey_neq k k' Hk Hk'). exact IH.
  - cbn [lookupKey]. destruct (String.eqb k k'); [done|exact IH].
Qed.

Lemma lookupKey_strippedEntries_meta (k : string) (m : smap) :
  isMetaKey k = true -> lookupKey k (strippedEntries m) = None.
Proof.
  intros Hk. induction m as [|[k' v] r IH]; [done|].
  cbn [strippedEntries fold_right fst snd].
  destruct (isMetaKey k') eqn:Hk'; [exact IH|].
  cbn [lookupKey]. destruct (String.eqb_spec k k') as [->|]; [congruence|exact IH].
Qed.

Lemma asString_strip (v : node) : asString (stripPluginMetaKeys v) = asString v.
Proof. destruct v as [| | | | |m| |]; try done. by rewrite stripPluginMetaKeys_VMap. Qed.

Lemma parseBoolish_strip (v : node) : parseBoolish (stripPluginMetaKeys v) = parseBoolish v.
Proof. destruct v as [| | | | |m| |]; try done. by rewrite stripPluginMetaKeys_VMap. Qed.

Lemma index_strippedEntries (k : string) (m : smap) :
  isMetaKey k = false ->
  index (strippedEntries m) k = stripPluginMetaKeys (index m k).
Proof.
  intros Hk. unfold index. rewrite lookupKey_strippedEntries by done.
  by destruct (lookupKey k m).
Qed.

Lemma index_strippedInstance (k : string) (m : smap) :
  isMetaKey k = false ->
  parseBoolish (index (strippedInstance m) k) = parseBoolish (index m k).
Proof.
  intros Hk. unfold strippedInstance. destruct (isBoundaryPlugin m); [done|].
  by rewrite index_strippedEntries, parseBoolish_strip.
Qed.

(** Stripping does not change whether a map is a boundary. *)
Lemma isBoundaryPlugin_strippedEntries (m : smap) :
  isBoundaryPlugin (strippedEntries m) = isBoundaryPlugin m.
Proof.
  unfold isBoundaryPlugin.
  rewrite !index_strippedEntries, !asString_strip by reflexivity.
  rewrite lookupKey_strippedEntries by reflexivity.
  destruct (negb _); [done|]. destruct (Str.Contains _ _); [done|].
  destruct (lookupKey "data" m) as [[| | | | |data| |]|]; try done.
  cbn [fmap option_fmap option_map]. rewrite stripPluginMetaKeys_VMap.
  by rewrite !index_strippedInstance.
Qed.

Lemma strippedEntries_idemp (m : smap) :
  Forall (fun kc => stripPluginMetaKeys (stripPluginMetaKeys (snd kc))
                    = stripPluginMetaKeys (snd kc)) m ->
  strippedEntries (strippedEntries m) = strippedEntries m.
Proof.
  induction m as [|[k v] r IH]; intros H; [done|].
  apply Forall_cons in H as [Hv Hr].
  cbn [strippedEntries fold_right fst snd]. fold (strippedEntries r).
  destruct (isMetaKey k) eqn:Hk; [by apply IH|].
  cbn [strippedEntries fold_right fst snd]. rewrite Hk.
  fold (strippedEntries (strippedEntries r)). simpl in Hv. by rewrite Hv, IH.
Qed.

Lemma stripPluginMetaKeys_idemp (n : node) :
  stripPluginMetaKeys (stripPluginMetaKeys n) = stripPluginMetaKeys n.
Proof.
  induction n as [| | | | | m IH | m IH | l IH] using node_nested_ind; try done.
  - rewrite !stripPluginMetaKeys_VMap. f_equal. unfold strippedInstance.
    destruct (isBoundaryPlugin m) eqn:Eb; [by rewrite Eb|].
    rewrite isBoundaryPlugin_strippedEntries, Eb. by apply strippedEntries_idemp.
  - cbn [stripPluginMetaKeys]. f_equal. rewrite map_map.
    apply map_ext_in. intros c Hin. rewrite Forall_forall in IH. apply IH.
    by apply list_elem_of_In.
Qed.

(** Along segments that are no plugin keys, a lookup in the stripped value
    succeeds exactly when it does in the value, and it finds the value
    found there, as it is or stripped. *)
Lemma getWalk_strip (parts : list string) :
  forall n : node,
    Forall (fun s => isMetaKey (Str.TrimSpace s) = false) parts ->
    getWalk (stripPluginMetaKeys n) parts = getWalk n parts \/
    getWalk (stripPluginMetaKeys n) parts
      = (stripPluginMetaKeys (fst (getWalk n parts)), snd (getWalk n parts)).
Proof.
  induction parts as [|part rest IH]; intros n Hparts; [by right|].
  apply Forall_cons in Hparts as [Hpart Hrest].
  cbn [getWalk]. destruct (String.eqb (Str.TrimSpace part) ""); [by apply IH|].
  destruct n as [| | | | |m|m|l]; try (by left).
  - rewrite stripPluginMetaKeys_VMap. unfold strippedInstance.
    destruct (isBoundaryPlugin m); [by left|].
    rewrite lookupKey_strippedEntries by done.
    destruct (lookupKey (Str.TrimSpace part) m) as [next|]; [|by left].
    by apply IH.
  - cbn [stripPluginMetaKeys]. rewrite length_map.
    destruct (listIndex (Str.TrimSpace part) (length l)) as [idx|]; [|by left].
    rewrite nth_error_map. destruct (nth_error l idx) as [next|]; [|by left].
    by apply IH.
Qed.

Lemma getAtPath_strippedInstance (instance : smap) (path : string) :
  metaFree path ->
  snd (getAtPath (strippedInstance instance) path) = snd (getAtPath instance path) /\
  (fst (getAtPath (strippedInstance instance) path) = fst (getAtPath instance path) \/
   fst (getAtPath (strippedInstance instance) path)
     = stripPluginMetaKeys (fst (getAtPath instance path))).
Proof.
  intros Hfree. unfold getAtPath. rewrite <- stripPluginMetaKeys_VMap.
  destruct (getWalk_strip _ (VMap instance) Hfree) as [-> | ->]; [by split; [|left]|].
  by split; [|right].
Qed.

(** X14. [stripPluginMetaKeys] removes [@bind], [@name], [@list] and
    [@teaser] from a map that is no boundary and leaves a boundary as it
    is; stripping twice is stripping once; and along a path without those
    keys a lookup succeeds after it exactly when it did before, and finds
    the same value when that is no map and no sequence. *)
Theorem stripPluginMetaKeys_effect (instance : smap) :
  stripPluginMetaKeys (VMap instance) = VMap (strippedInstance instance) /\
  (isBoundaryPlugin instance = true -> strippedInstance instance = instance) /\
  (isBoundaryPlugin instance = false ->
   forall key, isMetaKey key = true -> lookupKey key (strippedInstance instance) = None) /\
  strippedInstance (strippedInstance instance) = strippedInstance instance /\
  (forall path, metaFree path ->
     snd (getAtPath (strippedInstance instance) path) = snd (getAtPath instance path) /\
     (match fst (getAtPath instance path) with
      | VMap _ | VList _ => True
      | v => fst (getAtPath (strippedInstance instance) path) = v
      end)).
Proof.
  split; [apply stripPluginMetaKeys_VMap|]. split; [|split; [|split]].
  - unfold strippedInstance. by intros ->.
  - unfold strippedInstance. intros -> key Hkey. by apply lookupKey_strippedEntries_meta.
  - pose proof (stripPluginMetaKeys_idemp (VMap instance)) as H.
    rewrite !stripPluginMetaKeys_VMap in H. by injection H.
  - intros path Hfree.
    destruct (getAtPath_strippedInstance instance path Hfree) as [Hok Hv]. split; [done|].
    destruct (fst (getAtPath instance path)); try done; by destruct Hv.
Qed.

Lemma stripPluginMetaKeys_effect_witness :
  fst (getAtPath (strippedInstance sampleTemplate) "10.value") = VString "Hello World" /\
  lookupKey "@bind" (strippedInstance [("@bind", VNil); ("value", VString "v")]) = None.
Proof.
  split.
  - assert (Hfree : metaFree "10.value") by (repeat constructor).
    exact (proj2 (proj2 (proj2 (proj2 (proj2 (stripPluginMetaKeys_effect sampleTemplate))))
                    "10.value" Hfree)).
  - apply (proj1 (proj2 (proj2 (stripPluginMetaKeys_effect
                                  [("@bind", VNil); ("value", VString "v")]))));
      reflexivity.
Defined.

(** X15. A bound value is rendered: when the path of a bind, free of plugin
    keys and with a last segment that is not blank, resolves in the
    template, then [setAtPath] on the stripped instance succeeds, and the
    instance then holds the value of the record at that path. *)
Theorem stripped_instance_takes_value (template : smap) (path seg : string) (x value : node) :
  metaFree path ->
  getAtPath template path = (x, true) ->
  last (Str.SplitDot path) = Some seg ->
  Str.TrimSpace seg <> "" ->
  snd (setAtPath (strippedInstance template) path value) = true /\
  getAtPath (fst (setAtPath (strippedInstance template) path value)) path = (value, true).
Proof.
  intros Hfree Hget Hlast Hseg.
  destruct (getAtPath_strippedInstance template path Hfree) as [Hok _].
  rewrite Hget in Hok. cbn [snd] in Hok.
  destruct (getAtPath (strippedInstance template) path) as [x' ok'] eqn:Hget'.
  cbn [snd] in Hok. subst ok'.
  pose proof (setAtPath_resolving _ _ _ value _ Hget' Hlast Hseg) as Hset.
  split; [done|].
  unfold setAtPath, getAtPath in *.
  destruct (setWalk (VMap (strippedInstance template)) (Str.SplitDot path) value)
    as [n' ok] eqn:E.
  destruct (setWalk_VMap _ _ _ _ _ E) as [m' ->]. cbn [fst snd] in *. subst ok.
  by apply (setWalk_getWalk _ _ _ _ E).
Qed.

Lemma stripped_instance_takes_value_witness :
  getAtPath (fst (setAtPath (strippedInstance sampleTemplate) "10.value" (VString "A")))
    "10.value" = (VString "A", true).
Proof.
  apply (stripped_instance_takes_value sampleTemplate "10.value" "value"
           (VString "Hello World") (VString "A")).
  - repeat constructor.
  - reflexivity.
  - reflexivity.
  - discriminate.
Defined.

(** ** Flagged binds *)

Lemma searchedAt_normalized (im : imap) (addr : list nat) :
  searchedAt (VIMap im) addr = searchedAt (VMap (normalizeInterfaceMap im)) addr.
Proof. by destruct addr. Qed.

Lemma flaggedAt_normalized (flagKey : string) (im : imap) (addr : list nat) :
  flaggedAt flagKey (VIMap im) addr = flaggedAt flagKey (VMap (normalizeInterfaceMap im)) addr.
Proof. by destruct addr. Qed.

Lemma flaggedBindAt_normalized (flagKey field : string) (im : imap) (addr : list nat) :
  flaggedBindAt flagKey field (VIMap im) addr
  = flaggedBindAt flagKey field (VMap (normalizeInterfaceMap im)) addr.
Proof. by destruct addr. Qed.

Section FoldSet.

Context {A : Type}.
Variable step : gset string -> A -> gset string.
Variable x : string.
Hypothesis step_keeps : forall out a, x ∈ out -> x ∈ step out a.

Lemma fold_set_keeps (l : list A) :
  forall out, x ∈ out -> x ∈ fold_left step l out.
Proof. induction l as [|a r IH]; intros out H; [done|]. simpl. by apply IH, step_keeps. Qed.

Lemma fold_set_sound (Q : A -> Prop) (l : list A) :
  (forall out a, In a l -> x ∈ step out a -> x ∈ out \/ Q a) ->
  forall out,
    x ∈ fold_left step l out ->
    x ∈ out \/ exists i a, nth_error l i = Some a /\ Q a.
Proof.
  induction l as [|a r IH]; intros Hstep out H; [by left|].
  simpl in H. destruct (IH (fun out a' Hin => Hstep out a' (or_intror Hin)) _ H)
    as [Hout|(i & a' & Hi & Hq)].
  - destruct (Hstep out a (or_introl eq_refl) Hout) as [?|Hq]; [by left|].
    right. by exists O, a.
  - right. by exists (S i), a'.
Qed.

Lemma fold_set_complete (l : list A) (i : nat) (a : A) :
  nth_error l i = Some a ->
  (forall out, x ∈ step out a) ->
  forall out, x ∈ fold_left step l out.
Proof.
  revert i. induction l as [|a' r IH]; intros [|i] Hi Ha out; try done; simpl.
  - injection Hi as ->. by apply fold_set_keeps.
  - by apply (IH i).
Qed.

End FoldSet.

Lemma collectFlagged_keeps (flagKey x : string) (fuel : nat) :
  forall (n : node) (out : gset string),
    x ∈ out -> x ∈ collectFlaggedBindKeysIntoFuel fuel n flagKey out.
Proof.
  induction fuel as [|fuel IH]; intros n out H; [done|].
  destruct n as [| | | | |m|im|l]; try done; cbn [collectFlaggedBindKeysIntoFuel].
  - destruct (isBoundaryPlugin m); [done|].
    apply fold_set_keeps.
    + intros o [key c] Ho. simpl. destruct (Str.HasPrefix key "@"); [done|]. by apply IH.
    + destruct (hasFlag m flagKey); [|done]. destruct (flaggedField m); [|done].
      apply elem_of_union. by right.
  - by apply IH.
  - apply fold_set_keeps; [|done]. intros o c Ho. by apply IH.
Qed.

Lemma collectFlagged_sound (flagKey x : string) (fuel : nat) :
  forall (n : node) (out : gset string),
    x ∈ collectFlaggedBindKeysIntoFuel fuel n flagKey out ->
    x ∈ out \/
    exists addr, searchedAt n addr = true /\ flaggedBindAt flagKey x n addr = true.
Proof.
  induction fuel as [|fuel IH]; intros n out H; [by left|].
  destruct n as [| | | | |m|im|l]; try (by left); cbn [collectFlaggedBindKeysIntoFuel] in H.
  - destruct (isBoundaryPlugin m) eqn:Eb; [by left|].
    apply (fold_set_sound _ x) with
      (Q := fun kc : string * node =>
              Str.HasPrefix (fst kc) "@" = false /\
              exists addr, searchedAt (snd kc) addr = true /\
                           flaggedBindAt flagKey x (snd kc) addr = true) in H.
    + destruct H as [H|(i & [key c] & Hi & Hk & addr & Hs & Hf)].
      * destruct (hasFlag m flagKey) eqn:Ef; [|by left].
        destruct (flaggedField m) as [f|] eqn:Eff; [|by left].
        apply elem_of_union in H as [H|H]; [|by left].
        apply elem_of_singleton in H. subst f.
        right. exists []. split; [done|].
        unfold flaggedBindAt. simpl. by rewrite Eb, Ef, Eff, String.eqb_refl.
      * right. exists (i :: addr). simpl in *. split.
        -- by rewrite Eb, Hi, Hk.
        -- unfold flaggedBindAt in *. simpl. by rewrite Hi.
    + intros o [key c] _ Ho. simpl in *. destruct (Str.HasPrefix key "@"); [by left|].
      destruct (IH _ _ Ho) as [?|?]; [by left|by right].
  - destruct (IH _ _ H) as [?|(addr & Hs & Hf)]; [by left|].
    right. exists addr. by rewrite searchedAt_normalized, flaggedBindAt_normalized.
  - apply (fold_set_sound _ x) with
      (Q := fun c : node =>
              exists addr, searchedAt c addr = true /\
                           flaggedBindAt flagKey x c addr = true) in H.
    + destruct H as [H|(i & c & Hi & addr & Hs & Hf)]; [by left|].
      right. exists (i :: addr). simpl. split.
      * by rewrite Hi.
      * unfold flaggedBindAt in *. simpl. by rewrite Hi.
    + intros o c _ Ho. by apply IH.
Qed.

Lemma collectFlagged_complete (flagKey x : string) (addr : list nat) :
  forall (n : node) (fuel : nat) (out : gset string),
    (height n < fuel)%nat ->
    searchedAt n addr = true ->
    flaggedBindAt flagKey x n addr = true ->
    x ∈ collectFlaggedBindKeysIntoFuel fuel n flagKey out.
Proof.
  induction addr as [|i rest IH]; intros n fuel out Hf Hs Ha.
  - assert (Hmap : forall (m : smap) (fuel : nat) (out : gset string),
               (0 < fuel)%nat ->
               flaggedBindAt flagKey x (VMap m) [] = true ->
               x ∈ collectFlaggedBindKeysIntoFuel fuel (VMap m) flagKey out).
    { intros m [|f] o Hf' Ha'; [lia|]. cbn [collectFlaggedBindKeysIntoFuel].
      unfold flaggedBindAt in Ha'. simpl in Ha'.
      destruct (isBoundaryPlugin m); [done|]. destruct (hasFlag m flagKey); [|done].
      destruct (flaggedField m) as [f'|]; [|done]. simpl in Ha'.
      apply String.eqb_eq in Ha'. subst f'.
      apply fold_set_keeps.
      - intros o' [key c] Ho. simpl. destruct (Str.HasPrefix key "@"); [done|].
        by apply collectFlagged_keeps.
      - apply elem_of_union. left. by apply elem_of_singleton. }
    destruct n as [| | | | |m|im|l]; try done.
    + apply Hmap; [lia|done].
    + destruct fuel as [|fuel]; [lia|]. cbn [collectFlaggedBindKeysIntoFuel].
      apply Hmap; [cbn [height] in Hf; lia|]. by rewrite <- flaggedBindAt_normalized.
  - assert (Hmap : forall (m : smap) (fuel : nat) (out : gset string),
               (height (VMap m) < fuel)%nat ->
               searchedAt (VMap m) (i :: rest) = true ->
               flaggedBindAt flagKey x (VMap m) (i :: rest) = true ->
               x ∈ collectFlaggedBindKeysIntoFuel fuel (VMap m) flagKey out).
    { intros m [|f] o Hf' Hs' Ha'; [lia|]. cbn [collectFlaggedBindKeysIntoFuel].
      cbn [searchedAt] in Hs'. apply andb_prop in Hs' as [Hb Hs'].
      apply negb_true_iff in Hb. rewrite Hb.
      destruct (nth_error m i) as [[key c]|] eqn:Ei; [|done].
      apply andb_prop in Hs' as [Hk Hc]. apply negb_true_iff in Hk.
      pose proof (nth_error_In _ _ Ei) as Hin.
      apply (fold_set_complete _ x) with (i := i) (a := (key, c)); [|done|].
      - intros o' [key' c'] Ho. simpl. destruct (Str.HasPrefix key' "@"); [done|].
        by apply collectFlagged_keeps.
      - intros o'. simpl. rewrite Hk. apply IH; [|done|].
        + pose proof (height_entry m key c Hin). lia.
        + unfold flaggedBindAt in *. simpl in Ha'. by rewrite Ei in Ha'. }
    destruct n as [| | | | |m|im|l]; try done.
    + by apply Hmap.
    + destruct fuel as [|fuel]; [lia|]. cbn [collectFlaggedBindKeysIntoFuel]. apply Hmap.
      * pose proof (height_normalizeInterfaceMap im). lia.
      * by rewrite <- searchedAt_normalized.
      * by rewrite <- flaggedBindAt_normalized.
    + destruct fuel as [|fuel]; [lia|]. cbn [collectFlaggedBindKeysIntoFuel].
      cbn [searchedAt] in Hs.
      destruct (nth_error l i) as [c|] eqn:Ei; [|done].
      pose proof (nth_error_In _ _ Ei) as Hin.
      apply (fold_set_complete _ x) with (i := i) (a := c); [|done|].
      * intros o' c' Ho. by apply collectFlagged_keeps.
      * intros o'. apply IH; [|done|].
        -- pose proof (height_item l c Hin). lia.
        -- unfold flaggedBindAt in *. simpl in Ha. by rewrite Ei in Ha.
Qed.

(** Fuel above the height of the template gives the result of
    [collectFlaggedBindKeys]. *)
Lemma collectFlaggedBindKeysIntoFuel_enough (flagKey : string) (fuel : nat) (template : smap) :
  (height (VMap template) < fuel)%nat ->
  collectFlaggedBindKeysIntoFuel fuel (VMap template) flagKey ∅
  = collectFlaggedBindKeys template flagKey.
Proof.
  intros Hf. apply set_eq. intros x. unfold collectFlaggedBindKeys. split; intros H.
  - apply collectFlagged_sound in H as [H|(addr & Hs & Ha)]; [by apply elem_of_empty in H|].
    apply (collectFlagged_complete _ _ addr); [lia|done|done].
  - apply collectFlagged_sound in H as [H|(addr & Hs & Ha)]; [by apply elem_of_empty in H|].
    by apply (collectFlagged_complete _ _ addr).
Qed.

(** X16. The flagged bind keys, exactly: a field is collected when a map at
    an address the traversal searches carries the flag and binds the field,
    and the map is no boundary.  Sequences are searched; a boundary is not,
    nor is its own flag looked at. *)
Theorem collectFlaggedBindKeys_exact (template : smap) (flagKey field : string) :
  field ∈ collectFlaggedBindKeys template flagKey <->
  exists addr,
    searchedAt (VMap template) addr = true /\
    flaggedBindAt flagKey field (VMap template) addr = true.
Proof.
  unfold collectFlaggedBindKeys. split.
  - intros H. apply collectFlagged_sound in H as [H|H]; [|done].
    by apply elem_of_empty in H.
  - intros (addr & Hs & Ha). apply (collectFlagged_complete _ _ addr); [lia|done|done].
Qed.

(** ** The flag filter *)

Lemma filter_fold_kept (g : node -> option node) (l : smap) :
  forall acc : smap * bool,
    snd (fold_left
           (fun (acc : smap * bool) kc =>
              if Str.HasPrefix (fst kc) "@" then (setKey (fst kc) (snd kc) (fst acc), snd acc)
              else
                match g (snd kc) with
                | Some filtered => (setKey (fst kc) filtered (fst acc), true)
                | None => acc
                end)
           l acc)
    = snd acc ||
      existsb (fun kc => negb (Str.HasPrefix (fst kc) "@") &&
                         match g (snd kc) with Some _ => true | None => false end) l.
Proof.
  induction l as [|[key c] r IH]; intros acc; [by rewrite orb_false_r|].
  cbn [fold_left existsb fst snd]. rewrite IH.
  destruct (Str.HasPrefix key "@"); [done|]. simpl.
  destruct (g c); simpl; [by rewrite orb_true_r|done].
Qed.

Lemma filter_fold_items (g : node -> option node) (l : list node) :
  forall acc : list node,
    fold_left
      (fun out child =>
         match g child with
         | Some filtered => out ++ [filtered]
         | None => out
         end)
      l acc
    = acc ++ omap g l.
Proof.
  induction l as [|c r IH]; intros acc; [by rewrite app_nil_r|].
  cbn [fold_left omap list_omap]. rewrite IH. destruct (g c); [|done].
  by rewrite <- app_assoc.
Qed.

Lemma filterNodeByFlagFuel_sound (flagKey : string) (fuel : nat) :
  forall (n : node) (r : node),
    filterNodeByFlagFuel fuel n flagKey = Some r ->
    exists addr, searchedAt n addr = true /\ flaggedAt flagKey n addr = true.
Proof.
  induction fuel as [|fuel IH]; intros n r H; [done|].
  destruct n as [| | | | |m|im|l]; try done; cbn [filterNodeByFlagFuel] in H.
  - destruct (hasFlag m flagKey) eqn:Ef.
    { exists []. split; [done|]. unfold flaggedAt. simpl. exact Ef. }
    destruct (isBoundaryPlugin m) eqn:Eb; [done|].
    pose proof (filter_fold_kept (fun c => filterNodeByFlagFuel fuel c flagKey) m ([], false))
      as Hk. cbv beta in Hk.
    destruct (fold_left _ m ([], false)) as [out kept]. cbn [snd] in Hk.
    destruct kept; [|done]. symmetry in Hk. rewrite orb_false_l in Hk.
    apply existsb_exists in Hk as ([key c] & Hin & Hc). simpl in Hc.
    apply andb_prop in Hc as [Hkey Hc]. apply negb_true_iff in Hkey.
    destruct (filterNodeByFlagFuel fuel c flagKey) as [r'|] eqn:Er; [|done].
    destruct (IH _ _ Er) as (addr & Hs & Ha).
    apply In_nth_error in Hin as [i Hi].
    exists (i :: addr). split.
    + simpl. by rewrite Eb, Hi, Hkey.
    + unfold flaggedAt in *. simpl. by rewrite Hi.
  - destruct (IH _ _ H) as (addr & Hs & Ha). exists addr.
    by rewrite searchedAt_normalized, flaggedAt_normalized.
  - rewrite (filter_fold_items (fun c => filterNodeByFlagFuel fuel c flagKey)) in H.
    cbn [app] in H.
    destruct (omap _ l) as [|r' rs] eqn:Eo; [done|].
    assert (Hin : r' ∈ omap (fun c => filterNodeByFlagFuel fuel c flagKey) l)
      by (rewrite Eo; apply elem_of_cons; by left).
    apply list_elem_of_omap in Hin as (c & Hc & Er).
    destruct (IH _ _ Er) as (addr & Hs & Ha).
    apply list_elem_of_In, In_nth_error in Hc as [i Hi].
    exists (i :: addr). split.
    + simpl. by rewrite Hi.
    + unfold flaggedAt in *. simpl. by rewrite Hi.
Qed.

Lemma filterNodeByFlagFuel_complete (flagKey : string) (addr : list nat) :
  forall (n : node) (fuel : nat),
    (height n < fuel)%nat ->
    searchedAt n addr = true ->
    flaggedAt flagKey n addr = true ->
    is_Some (filterNodeByFlagFuel fuel n flagKey).
Proof.
  induction addr as [|i rest IH]; intros n fuel Hf Hs Ha.
  - destruct n as [| | | | |m|im|l]; try done.
    + destruct fuel as [|fuel]; [lia|]. cbn [filterNodeByFlagFuel].
      unfold flaggedAt in Ha. simpl in Ha. by rewrite Ha.
    + destruct fuel as [|[|fuel]]; try (cbn [height] in Hf; lia).
      cbn [filterNodeByFlagFuel].
      unfold flaggedAt in Ha. simpl in Ha. by rewrite Ha.
  - assert (Hmap : forall (m : smap) (fuel : nat),
               (height (VMap m) < fuel)%nat ->
               searchedAt (VMap m) (i :: rest) = true ->
               flaggedAt flagKey (VMap m) (i :: rest) = true ->
               is_Some (filterNodeByFlagFuel fuel (VMap m) flagKey)).
    { intros m [|f] Hf' Hs' Ha'; [lia|]. cbn [filterNodeByFlagFuel].
      destruct (hasFlag m flagKey); [done|].
      cbn [searchedAt] in Hs'. apply andb_prop in Hs' as [Hb Hs'].
      apply negb_true_iff in Hb. rewrite Hb.
      destruct (nth_error m i) as [[key c]|] eqn:Ei; [|done].
      apply andb_prop in Hs' as [Hk Hc]. apply negb_true_iff in Hk.
      pose proof (nth_error_In _ _ Ei) as Hin.
      pose proof (filter_fold_kept (fun c => filterNodeByFlagFuel f c flagKey) m ([], false))
        as Hkept. cbv beta in Hkept.
      destruct (fold_left _ m ([], false)) as [out kept]. cbn [snd] in Hkept.
      assert (Hex : kept = true).
      { rewrite Hkept, orb_false_l. apply existsb_exists. exists (key, c).
        split; [done|]. simpl. rewrite Hk. simpl.
        destruct (IH c f) as [r Hr]; [|done| |by rewrite Hr].
        - pose proof (height_entry m key c Hin). lia.
        - unfold flaggedAt in *. simpl in Ha'. by rewrite Ei in Ha'. }
      by rewrite Hex. }
    destruct n as [| | | | |m|im|l]; try done.
    + by apply Hmap.
    + destruct fuel as [|fuel]; [lia|]. cbn [filterNodeByFlagFuel]. apply Hmap.
      * pose proof (height_normalizeInterfaceMap im). lia.
      * by rewrite <- searchedAt_normalized.
      * by rewrite <- flaggedAt_normalized.
    + destruct fuel as [|fuel]; [lia|]. cbn [filterNodeByFlagFuel].
      rewrite (filter_fold_items (fun c => filterNodeByFlagFuel fuel c flagKey)).
      cbn [app]. cbn [searchedAt] in Hs.
      destruct (nth_error l i) as [c|] eqn:Ei; [|done].
      pose proof (nth_error_In _ _ Ei) as Hin.
      destruct (IH c fuel) as [r Hr]; [|done| |].
      * pose proof (height_item l c Hin). lia.
      * unfold flaggedAt in *. simpl in Ha. by rewrite Ei in Ha.
      * assert (Hr' : r ∈ omap (fun c => filterNodeByFlagFuel fuel c flagKey) l).
        { apply list_elem_of_omap. exists c. split; [by apply list_elem_of_In|done]. }
        destruct (omap _ l) as [|r0 rs]; [by apply elem_of_nil in Hr'|done].
Qed.

(** Fuel above the height of the value gives the result of
    [filterNodeByFlag]. *)
Lemma filterNodeByFlagFuel_stable (flagKey : string) (fuel1 : nat) :
  forall (fuel2 : nat) (n : node),
    (height n < fuel1)%nat -> (height n < fuel2)%nat ->
    filterNodeByFlagFuel fuel1 n flagKey = filterNodeByFlagFuel fuel2 n flagKey.
Proof.
  induction fuel1 as [|fuel1 IH]; intros [|fuel2] n H1 H2; try lia.
  destruct n as [| | | | |m|im|l]; try done; cbn [filterNodeByFlagFuel].
  - destruct (hasFlag m flagKey); [done|]. destruct (isBoundaryPlugin m); [done|].
    rewrite (fold_left_ext_in _
               (fun (acc : smap * bool) kc =>
                  if Str.HasPrefix (fst kc) "@"
                  then (setKey (fst kc) (snd kc) (fst acc), snd acc)
                  else
                    match filterNodeByFlagFuel fuel2 (snd kc) flagKey with
                    | Some filtered => (setKey (fst kc) filtered (fst acc), true)
                    | None => acc
                    end)); [done|].
    intros acc [key c] Hin. cbn [fst snd]. destruct (Str.HasPrefix key "@"); [done|].
    pose proof (height_entry m key c Hin). rewrite (IH fuel2 c); [done|lia|lia].
  - pose proof (height_normalizeInterfaceMap im). apply IH; lia.
  - rewrite (fold_left_ext_in _
               (fun out child =>
                  match filterNodeByFlagFuel fuel2 child flagKey with
                  | Some filtered => out ++ [filtered]
                  | None => out
                  end)); [done|].
    intros acc c Hin. pose proof (height_item l c Hin). rewrite (IH fuel2 c); [done|lia|lia].
Qed.

Lemma filterNodeByFlagFuel_enough (flagKey : string) (fuel : nat) (n : node) :
  (height n < fuel)%nat -> filterNodeByFlagFuel fuel n flagKey = filterNodeByFlag n flagKey.
Proof. intros H. unfold filterNodeByFlag. apply filterNodeByFlagFuel_stable; lia. Qed.

Lemma deepCopy_id (n : node) : deepCopy n = n.
Proof.
  induction n as [| | | | | m IH | m IH | l IH] using node_nested_ind; try done;
    cbn [deepCopy]; f_equal.
  - induction m as [|[k c] r IHr]; [done|]. apply Forall_cons in IH as [Hc Hr].
    simpl in *. by rewrite Hc, IHr.
  - induction m as [|[k c] r IHr]; [done|]. apply Forall_cons in IH as [Hc Hr].
    simpl in *. by rewrite Hc, IHr.
  - induction l as [|c r IHr]; [done|]. apply Forall_cons in IH as [Hc Hr].
    simpl in *. by rewrite Hc, IHr.
Qed.

(** The filter of a string-keyed map, when it keeps something, is a
    string-keyed map. *)
Lemma filterNodeByFlagFuel_VMap (flagKey : string) (fuel : nat) (m : smap) (r : node) :
  filterNodeByFlagFuel fuel (VMap m) flagKey = Some r -> exists m', r = VMap m'.
Proof.
  destruct fuel as [|fuel]; [done|]. cbn [filterNodeByFlagFuel].
  destruct (hasFlag m flagKey); [intros [= <-]; eauto|].
  destruct (isBoundaryPlugin m); [done|].
  destruct (fold_left _ m ([], false)) as [out kept].
  destruct kept; [|done]. intros [= <-]. eauto.
Qed.

(** X17. The flag filter keeps something exactly when a map at an address
    it searches carries the flag; a flagged template is kept whole.  So the
    teaser filter returns the template unchanged when teasers are off, when
    the template itself is flagged and when nothing it searches is
    flagged. *)
Theorem filterTemplateByFlag_exact (template : smap) (flagKey : string) :
  (is_Some (filterTemplateByFlag template flagKey) <->
   exists addr, searchedAt (VMap template) addr = true /\
                flaggedAt flagKey (VMap template) addr = true) /\
  (hasFlag template flagKey = true -> filterTemplateByFlag template flagKey = Some template) /\
  applyTeaserFilter template false = template /\
  (hasFlag template "@teaser" = true -> applyTeaserFilter template true = template) /\
  ((forall addr, searchedAt (VMap template) addr = true ->
                 flaggedAt "@teaser" (VMap template) addr = false) ->
   applyTeaserFilter template true = template).
Proof.
  assert (Hspec : forall flag,
             is_Some (filterTemplateByFlag template flag) <->
             exists addr, searchedAt (VMap template) addr = true /\
                          flaggedAt flag (VMap template) addr = true).
  { intros flag. unfold filterTemplateByFlag, filterNodeByFlag. split.
    - intros [r Hr].
      destruct (filterNodeByFlagFuel _ (VMap template) flag) as [r'|] eqn:E; [|done].
      by apply filterNodeByFlagFuel_sound in E.
    - intros (addr & Hs & Ha).
      destruct (filterNodeByFlagFuel_complete flag addr (VMap template)
                  (S (height (VMap template)))) as [r Hr]; [lia|done|done|].
      rewrite Hr. destruct (filterNodeByFlagFuel_VMap _ _ _ _ Hr) as [m' ->]. by eexists. }
  assert (Hflag : forall flag, hasFlag template flag = true ->
                               filterTemplateByFlag template flag = Some template).
  { intros flag Hf. unfold filterTemplateByFlag, filterNodeByFlag.
    cbn [filterNodeByFlagFuel]. rewrite Hf, deepCopy_id. done. }
  split; [apply Hspec|]. split; [apply Hflag|]. split; [done|]. split.
  - intros Hf. unfold applyTeaserFilter. cbn [negb]. by rewrite Hflag.
  - intros Hnone. unfold applyTeaserFilter. cbn [negb].
    destruct (filterTemplateByFlag template "@teaser") as [r|] eqn:E; [|done].
    destruct (proj1 (Hspec "@teaser")) as (addr & Hs & Ha); [by rewrite E|].
    rewrite (Hnone addr Hs) in Ha. discriminate.
Qed.

(** ** Printing and parsing a record id *)

(** X18. An id the plugin prints is read back: [parseRecordID] of
    [strconv.FormatInt(id, 10)] is the id, for every 64-bit id. *)
Theorem parseRecordID_FormatInt (i : Z) :
  (- 2 ^ 63 <= i <= 2 ^ 63 - 1)%Z -> parseRecordID (FormatInt i) = i.
Proof. apply parseRecordID_FormatInt_id. Qed.

Lemma parseRecordID_FormatInt_witness : parseRecordID (FormatInt (-42)) = (-42)%Z.
Proof. apply (parseRecordID_FormatInt (-42)). lia. Defined.

(** ** Names of uploaded files *)

Lemma sanitizeFilename_safe (name : string) :
  allChars safeChar (sanitizeFilename name) = true.
Proof.
  induction name as [|r rest IH]; [done|]. cbn [sanitizeFilename].
  destruct (safeChar r) eqn:Hr; [by cbn [allChars]; rewrite Hr|].
  by destruct (Ascii.eqb r " ").
Qed.

Lemma sanitizeFilename_fixed (name : string) :
  allChars safeChar name = true -> sanitizeFilename name = name.
Proof.
  induction name as [|r rest IH]; [done|]. cbn [allChars sanitizeFilename].
  intros H. apply andb_prop in H as [Hr Hrest]. by rewrite Hr, IH.
Qed.

(** X19. [sanitizeFilename] returns letters, digits, [-], [_] and [.]
    only, so no path separator; it is never longer than the name, leaves a
    name of such characters as it is, and sanitizing twice is sanitizing
    once. *)
Theorem sanitizeFilename_spec (name : string) :
  allChars safeChar (sanitizeFilename name) = true /\
  allChars (fun c => negb (Ascii.eqb c "/") && negb (Ascii.eqb c (ascii_of_nat 92)))
    (sanitizeFilename name) = true /\
  (String.length (sanitizeFilename name) <= String.length name)%nat /\
  (allChars safeChar name = true -> sanitizeFilename name = name) /\
  sanitizeFilename (sanitizeFilename name) = sanitizeFilename name.
Proof.
  split; [apply sanitizeFilename_safe|]. split; [|split; [|split]].
  - eapply allChars_impl; [|apply sanitizeFilename_safe].
    intros c Hc. destruct (Ascii.eqb_spec c "/") as [->|]; [done|].
    destruct (Ascii.eqb_spec c (ascii_of_nat 92)) as [->|]; [done|done].
  - induction name as [|r rest IH]; [done|]. cbn [sanitizeFilename].
    destruct (safeChar r); [simpl; lia|]. destruct (Ascii.eqb r " "); simpl; lia.
  - apply sanitizeFilename_fixed.
  - apply sanitizeFilename_fixed, sanitizeFilename_safe.
Qed.

(** ** Trimming, and the record parameter *)

Lemma TrimRight_idemp (s : string) : Str.TrimRight (Str.TrimRight s) = Str.TrimRight s.
Proof.
  induction s as [|c r IH]; [done|]. cbn [Str.TrimRight].
  destruct (Str.TrimRight r) as [|c' r'] eqn:Er.
  - destruct (Str.isSpace c) eqn:Hc; [done|]. cbn [Str.TrimRight]. by rewrite Hc.
  - cbn [Str.TrimRight]. cbn [Str.TrimRight] in IH.
    destruct (Str.TrimRight r') as [|c'' r'']; by rewrite IH.
Qed.

Lemma TrimLeft_head (s : string) :
  match Str.TrimLeft s with
  | EmptyString => True
  | String c _ => Str.isSpace c = false
  end.
Proof.
  induction s as [|c r IH]; [done|]. cbn [Str.TrimLeft].
  by destruct (Str.isSpace c) eqn:Hc.
Qed.

Lemma TrimLeft_TrimRight (s : string) :
  match s with
  | EmptyString => True
  | String c _ => Str.isSpace c = false
  end ->
  Str.TrimLeft (Str.TrimRight s) = Str.TrimRight s.
Proof.
  destruct s as [|c r]; [done|]. intros Hc. cbn [Str.TrimRight].
  destruct (Str.TrimRight r); rewrite ?Hc; cbn [Str.TrimLeft]; by rewrite Hc.
Qed.

Lemma TrimSpace_idemp (s : string) : Str.TrimSpace (Str.TrimSpace s) = Str.TrimSpace s.
Proof.
  unfold Str.TrimSpace.
  rewrite (TrimLeft_TrimRight (Str.TrimLeft s) (TrimLeft_head s)).
  apply TrimRight_idemp.
Qed.

(** X20. The record parameter is resolved the same way with or without
    [resolveRecordParam]: [resolveRecordID] trims the name and falls back
    to "id" itself, so [resolveSingleRecordID], which hands it the raw
    [record_param], reads the same input as the inline handler. *)
Theorem resolveRecordID_raw_param (ctx : Context) (fields : Fields) :
  resolveRecordID ctx (RecordParam fields) = resolveRecordID ctx (resolveRecordParam fields) /\
  (Str.TrimSpace (RecordParam fields) = "" ->
   resolveRecordID ctx (RecordParam fields) = parseRecordID (GetInputFromContext ctx "id")).
Proof.
  unfold resolveRecordID, resolveRecordParam. split.
  - destruct (String.eqb_spec (Str.TrimSpace (RecordParam fields)) "") as [E|E]; [done|].
    rewrite TrimSpace_idemp. by apply String.eqb_neq in E as ->.
  - by intros ->.
Qed.

(** ** Configured ids and the listing *)

Lemma resolveIDs_filter (Float64ToInt64 : Z -> Z -> Z) (id : node) (ids : list node) :
  resolveIDs Float64ToInt64 id ids
  = filter (fun i => i <> 0%Z) (parseIDValue Float64ToInt64 <$> id :: ids).
Proof.
  unfold resolveIDs. rewrite fmap_cons.
  assert (Hgen : forall acc,
             fold_left
               (fun ids raw =>
                  if negb (Z.eqb (parseIDValue Float64ToInt64 raw) 0)
                  then ids ++ [parseIDValue Float64ToInt64 raw] else ids) ids acc
             = acc ++ filter (fun i => i <> 0%Z) (parseIDValue Float64ToInt64 <$> ids)).
  { induction ids as [|raw rest IH]; intros acc; [by rewrite app_nil_r|].
    cbn [fold_left]. rewrite IH, fmap_cons.
    destruct (Z.eqb_spec (parseIDValue Float64ToInt64 raw) 0) as [E|E]; cbn [negb].
    - by rewrite filter_cons_False by (by intros ?).
    - rewrite filter_cons_True by done. by rewrite <- app_assoc. }
  rewrite Hgen.
  destruct (Z.eqb_spec (parseIDValue Float64ToInt64 id) 0) as [E|E]; cbn [negb].
  - by rewrite filter_cons_False by (by intros ?).
  - by rewrite filter_cons_True by done.
Qed.

(** X21. Configured ids come before the query: [resolveIDs] keeps the ids
    of [id] and [ids] that are not zero, in their order; when there is one,
    [fetchRecordsForList] ignores the query and cannot fail, and returns
    the records of those ids that exist; when there is none, it is the
    listing of the query. *)
Theorem fetchRecordsForList_ids_first
    (runQuery : string -> DB -> option (list (list sqlValue)))
    (Float64ToInt64 : Z -> Z -> Z) (db : DB) (id : node) (ids : list node)
    (query sql ct : string) :
  let chosen := resolveIDs Float64ToInt64 id ids in
  chosen = filter (fun i => i <> 0%Z) (parseIDValue Float64ToInt64 <$> id :: ids) /\
  (chosen <> [] ->
   fetchRecordsForList runQuery Float64ToInt64 db id ids query sql ct =
     Some ((fun i => {| ID := i; Fields_ := fieldRows db i |}) <$>
             filter (fun i => hasRecord db i ct = true) chosen)) /\
  (chosen = [] ->
   fetchRecordsForList runQuery Float64ToInt64 db id ids query sql ct =
     fetchRecords runQuery Float64ToInt64 db (resolveQuery query sql) ct).
Proof.
  cbv zeta. split; [apply resolveIDs_filter|].
  unfold fetchRecordsForList. split.
  - intros Hne. destruct (resolveIDs Float64ToInt64 id ids) as [|i rest] eqn:E; [done|].
    cbn [length Nat.ltb Nat.leb]. f_equal.
    rewrite (proj1 (fetchRecordsByIDs_filter db (i :: rest) ct)). f_equal.
    assert (Hnz : Forall (fun i => i <> 0%Z) (i :: rest)).
    { rewrite <- E, resolveIDs_filter. apply Forall_forall. intros x Hx.
      by apply list_elem_of_filter in Hx as [Hx _]. }
    clear E Hne. induction Hnz as [|x l Hx Hl IH]; [done|].
    destruct (hasRecord db x ct) eqn:Hh.
    + rewrite !filter_cons_True by done. by rewrite IH.
    + rewrite !filter_cons_False; [done|by rewrite Hh|by intros [_ ?]; congruence].
  - by intros ->.
Qed.

Lemma fetchRecordsForList_ids_first_witness :
  fetchRecordsForList (fun _ _ => None) (fun m _ => m) sampleDB
    (VString "7") [VInt 1; VNil; VString " 1 "] "SELECT nothing" "" "article"
  = Some [ {| ID := 1; Fields_ := fieldRows sampleDB 1 |};
           {| ID := 1; Fields_ := fieldRows sampleDB 1 |} ].
Proof.
  pose proof (fetchRecordsForList_ids_first (fun _ _ => None) (fun m _ => m) sampleDB
                (VString "7") [VInt 1; VNil; VString " 1 "] "SELECT nothing" "" "article") as H.
  cbv zeta in H. destruct H as (_ & H & _). rewrite H; [reflexivity|]. vm_compute. discriminate.
Defined.

(** ** The inline-edit handler on every request *)

Lemma parseInlinePayload_errors (req : Request) (ctx : Context) (fields : Fields) (w : World) :
  exists more, WErrors (fst (parseInlinePayload req ctx fields w)) = WErrors w ++ more.
Proof.
  unfold parseInlinePayload, parseRequestForm, addError.
  destruct (Str.HasPrefix (ContentTypeHeader req) "application/json").
  - destruct (JSONBody req); exists []; by rewrite app_nil_r.
  - destruct (FormParseFails req); [|exists []; by rewrite app_nil_r].
    destruct (Str.HasPrefix _ "multipart/form-data"); by eexists.
Qed.

(** The outcomes of [handleInlineUpdate]: the request is declined; or it is
    answered 400, before any store call; or it is answered 500, after the
    one [updateRecordField] found no record and returned with its
    transaction left open; or it is answered 200, after the one
    [updateRecordField] succeeded. *)
Lemma handleInlineUpdate_outcomes (now : Z) (ctx : Context) (w : World) (ct : string)
    (binds : gmap string bindTarget) (fields : Fields) (template : smap) :
  let out := handleInlineUpdate now ctx w ct binds fields template in
  (exists more, WErrors (fst out) = WErrors w ++ more) /\
  ((snd out = (false, None) /\ WDB (fst out) = WDB w /\ WCalls (fst out) = WCalls w) \/
   (exists msg,
       snd out = (true, Some {| Status := 400; Payload := {[ "error" := msg ]} |}) /\
       WDB (fst out) = WDB w /\ WCalls (fst out) = WCalls w) \/
   (exists id bindKey value,
       snd out = (true, Some {| Status := 500; Payload := {[ "error" := "update failed" ]} |}) /\
       is_Some (binds !! bindKey) /\
       hasRecord (WDB w) id ct = false /\
       updateRecordField now (WDB w) id ct bindKey value =
         (WDB w, inl {| Err := ErrRecordNotFound; TxOpen := true |}) /\
       WDB (fst out) = WDB w /\
       WCalls (fst out) = WCalls w ++ [CallUpdateRecordField id ct bindKey value]) \/
   (exists id bindKey value,
       snd out =
         (true, Some {| Status := 200;
                        Payload := list_to_map [ ("status", "ok"); ("record_id", FormatInt id);
                                                 ("bind", bindKey); ("value", value) ] |}) /\
       id <> 0%Z /\ (- 2 ^ 63 <= id <= 2 ^ 63 - 1)%Z /\
       is_Some (binds !! bindKey) /\
       updateRecordField now (WDB w) id ct bindKey value = (WDB (fst out), inr tt) /\
       WCalls (fst out) = WCalls w ++ [CallUpdateRecordField id ct bindKey value])).
Proof.
  cbv zeta. unfold handleInlineUpdate.
  assert (Hsame : exists more, WErrors w = WErrors w ++ more)
    by (exists []; by rewrite app_nil_r).
  destruct (CtxRequest ctx) as [req|]; [|split; [done|by left]].
  destruct (negb (String.eqb (Method req) "POST")); [split; [done|by left]|].
  destruct (parseInlinePayload_state req ctx fields w) as [Hdb Hcalls].
  destruct (parseInlinePayload_errors req ctx fields w) as [more Herr].
  destruct (parseInlinePayload req ctx fields w) as [w1 [payload|]]; cbn [fst] in *.
  2:{ split; [exists (more ++ ["content_records_plugin: inline parse failed"]);
               simpl; by rewrite Herr, <- app_assoc|].
      right; left. exists "invalid inline payload". by repeat split. }
  destruct (negb (parseBoolFlag (PInline payload))); [split; [by eexists|by left]|].
  destruct (String.eqb_spec (Str.TrimSpace (PBind payload)) "") as [Hk|Hk].
  { split; [by eexists|]. right; left. exists "bind is required". by repeat split. }
  destruct (binds !! Str.TrimSpace (PBind payload)) as [t|] eqn:Eb.
  2:{ destruct (hasBoundaryPlugin (VMap template)); [split; [by eexists|by left]|].
      split; [by eexists|]. right; left. exists "unknown bind". by repeat split. }
  destruct (Z.eqb_spec (inlineRecordID ctx fields payload) 0) as [Ez|Ez].
  { split; [by eexists|]. right; left. exists "record_id is required". by repeat split. }
  destruct (inlineValue req fields _ (PValue payload)) as [[msg logged]|value].
  { split.
    - destruct logged; [|by eexists].
      exists (more ++ ["content_records_plugin: upload failed"]).
      simpl. by rewrite Herr, <- app_assoc.
    - right; left. exists msg. split; [done|]. by destruct logged. }
  rewrite Hdb.
  destruct (updateRecordField_cases now (WDB w) (inlineRecordID ctx fields payload) ct
              (Str.TrimSpace (PBind payload)) value)
    as [(r & _ & _ & _ & _ & Hrun)|[(_ & _ & Hno & Hrun)|[(Hz & _)|(_ & Hb & Hrun)]]];
    [| |done|]; rewrite Hrun.
  - split; [by eexists|]. right; right; right.
    exists (inlineRecordID ctx fields payload), (Str.TrimSpace (PBind payload)), value.
    cbn [fst snd WDB WCalls]. split; [done|]. split; [done|].
    split; [apply inlineRecordID_range|]. split; [by eexists|].
    split; [done|by rewrite Hcalls].
  - split.
    + exists (more ++ ["content_records_plugin: inline update failed"]).
      simpl. by rewrite Herr, <- app_assoc.
    + right; right; left.
      exists (inlineRecordID ctx fields payload), (Str.TrimSpace (PBind payload)), value.
      cbn [fst snd addError WDB WCalls]. split; [done|]. split; [by eexists|].
      split; [done|]. split; [done|]. split; [done|by rewrite Hcalls].
  - split.
    + exists (more ++ ["content_records_plugin: inline update failed"]).
      simpl. by rewrite Herr, <- app_assoc.
    + exfalso. rewrite TrimSpace_idemp in Hb. by apply Hk.
Qed.

(** X22. [handleInlineUpdate] on every request.  A request is handled
    exactly when a response is written, and the status of a response is
    200, 400 or 500; the error list only grows.  The tables change only
    under a 200 response.  No store call is made when the request is
    declined or answered 400.  A 500 response follows the one
    [updateRecordField] that found no record: it returned "record not
    found" and left its transaction open.  A 200 response follows the one
    [updateRecordField] that succeeded, on a bound field: the field then
    holds the value, and the [record_id] of the response is read back by
    [parseRecordID] as the id of the record. *)
Theorem handleInlineUpdate_safe (now : Z) (ctx : Context) (w : World) (ct : string)
    (binds : gmap string bindTarget) (fields : Fields) (template : smap) :
  let out := handleInlineUpdate now ctx w ct binds fields template in
  (fst (snd out) = true <-> is_Some (snd (snd out))) /\
  (exists more, WErrors (fst out) = WErrors w ++ more) /\
  (forall r, snd (snd out) = Some r ->
     Status r = 200%Z \/ Status r = 400%Z \/ Status r = 500%Z) /\
  ((forall r, snd (snd out) = Some r -> Status r <> 200%Z) -> WDB (fst out) = WDB w) /\
  ((forall r, snd (snd out) = Some r -> Status r = 400%Z) -> WCalls (fst out) = WCalls w) /\
  (forall r, snd (snd out) = Some r -> Status r = 500%Z ->
     Payload r = {[ "error" := "update failed" ]} /\
     exists id bindKey value,
       is_Some (binds !! bindKey) /\
       hasRecord (WDB w) id ct = false /\
       updateRecordField now (WDB w) id ct bindKey value =
         (WDB w, inl {| Err := ErrRecordNotFound; TxOpen := true |}) /\
       WCalls (fst out) = WCalls w ++ [CallUpdateRecordField id ct bindKey value]) /\
  (forall r, snd (snd out) = Some r -> Status r = 200%Z ->
     exists id bindKey value,
       Payload r = list_to_map [ ("status", "ok"); ("record_id", FormatInt id);
                                 ("bind", bindKey); ("value", value) ] /\
       is_Some (binds !! bindKey) /\
       updateRecordField now (WDB w) id ct bindKey value = (WDB (fst out), inr tt) /\
       WCalls (fst out) = WCalls w ++ [CallUpdateRecordField id ct bindKey value] /\
       fieldRows (WDB (fst out)) id !! bindKey = Some value /\
       parseRecordID <$> Payload r !! "record_id" = Some id).
Proof.
  cbv zeta.
  destruct (handleInlineUpdate_outcomes now ctx w ct binds fields template)
    as [Herr [(Hout & Hdb & Hcalls)
             |[(msg & Hout & Hdb & Hcalls)
              |[(id & bindKey & value & Hout & Hb & Hno & Hrun & Hdb & Hcalls)
               |(id & bindKey & value & Hout & Hid & Hrange & Hb & Hrun & Hcalls)]]]];
    cbv zeta in *; rewrite Hout; cbn [fst snd].
  - split; [split; [done|by intros [? ?]]|]. by repeat split.
  - split; [split; [by eexists|done]|]. split; [done|].
    split; [intros r [= <-]; auto|]. split; [done|]. split; [done|].
    split; by intros r [= <-].
  - split; [split; [by eexists|done]|]. split; [done|].
    split; [intros r [= <-]; auto|]. split; [done|].
    split. { intros H. by specialize (H _ eq_refl). }
    split; [|by intros r [= <-]].
    intros r [= <-] _. split; [done|]. by exists id, bindKey, value.
  - split; [split; [by eexists|done]|]. split; [done|].
    split; [intros r [= <-]; auto|].
    split. { intros H. by destruct (H _ eq_refl). }
    split. { intros H. by specialize (H _ eq_refl). }
    split; [by intros r [= <-]|].
    intros r [= <-] _. exists id, bindKey, value.
    split; [done|]. split; [done|]. split; [done|]. split; [done|]. split.
    + destruct (updateRecordField_cases now (WDB w) id ct bindKey value)
        as [(r & _ & _ & _ & _ & Hrun')|[(_ & _ & _ & Hrun')|[(_ & Hrun')|(_ & _ & Hrun')]]];
        rewrite Hrun' in Hrun; try done.
      injection Hrun as <-. by rewrite fieldRows_putFieldRow, lookup_insert_eq.
    + cbn [Payload]. cbn [list_to_map foldr fst snd].
      rewrite lookup_insert_ne by done. rewrite lookup_insert_eq.
      cbn [fmap option_fmap option_map].
      by rewrite parseRecordID_FormatInt_id.
Qed.

(** ** Where the bind index points *)

Lemma append_assoc (a b c : string) : ((a ++ b) ++ c = a ++ (b ++ c))%string.
Proof.
  induction a as [|x a IH]; [done|].
  change (String x ((a ++ b) ++ c) = String x (a ++ (b ++ c)))%string. by rewrite IH.
Qed.

Lemma SplitDot_plain (key : string) :
  allChars (fun c => negb (Ascii.eqb c ".")) key = true -> Str.SplitDot key = [key].
Proof.
  induction key as [|c r IH]; [done|]. cbn [allChars Str.SplitDot].
  intros H. apply andb_prop in H as [Hc Hr]. apply negb_true_iff in Hc.
  by rewrite Hc, (IH Hr).
Qed.

Lemma lookupKey_first (m : smap) (i : nat) (key : string) (c : node) :
  nth_error m i = Some (key, c) ->
  forallb (fun kc => negb (String.eqb key (fst kc))) (firstn i m) = true ->
  lookupKey key m = Some c.
Proof.
  revert i. induction m as [|[k v] r IH]; intros [|i] Hi Hfirst; try done.
  - injection Hi as -> ->. simpl. by rewrite String.eqb_refl.
  - cbn [firstn forallb fst] in Hfirst. apply andb_prop in Hfirst as [Hk Hrest].
    apply negb_true_iff in Hk. cbn [lookupKey]. rewrite Hk. by apply (IH i).
Qed.

Lemma targetAt_normalized (c : node) (cm : smap) (path : string) (addr : list nat)
    (f : string) :
  normalizeToStringMap c = Some cm ->
  targetAt c path addr f = targetAt (VMap cm) path addr f.
Proof. intros H. destruct addr; simpl; by rewrite H. Qed.

Lemma joinPath_joinPath (path key q : string) :
  key <> "" ->
  joinPath (joinPath path key) q = joinPath path (key ++ "." ++ q).
Proof.
  intros Hkey. unfold joinPath.
  destruct (String.eqb_spec path "") as [->|Hp].
  - by apply String.eqb_neq in Hkey as ->.
  - destruct (String.eqb_spec (path ++ "." ++ key)%string "") as [E|_].
    + by destruct path.
    + by rewrite append_assoc.
Qed.

(** A target that enters the index is the one of a declaration the
    traversal reaches. *)
Lemma collectBindsFuel_target (f : string) (fuel : nat) :
  forall (m : smap) (path : string) (binds : gmap string bindTarget) (t : bindTarget),
    collectBindsFuel fuel m path binds !! f = Some t ->
    binds !! f = None ->
    exists addr, targetAt (VMap m) path addr f = Some (Path t).
Proof.
  induction fuel as [|fuel IH]; intros m path binds t H Hb; [simpl in H; congruence|].
  cbn [collectBindsFuel] in H.
  pose proof (collectOwnBind_lookup m path binds f) as Hown. rewrite Hb in Hown.
  destruct (collectOwnBind m path binds !! f) as [t1|] eqn:E1.
  - assert (t = t1) as ->.
    { destruct (isBoundaryPlugin m); [congruence|].
      rewrite (fold_collectChild_keeps (collectBindsFuel fuel) path f) with (t := t1) in H;
        [congruence| |done].
      intros cm p b t' Hb'. by apply collectBindsFuel_keeps. }
    exists []. cbn [targetAt normalizeToStringMap].
    destruct (ownBind m) as [[field bp]|]; [|done].
    destruct (String.eqb field f); [|done]. by injection Hown as ->.
  - destruct (isBoundaryPlugin m) eqn:Eb; [congruence|].
    assert (Hfold : forall (l pre : smap) (b : gmap string bindTarget),
               fold_left (collectChild (collectBindsFuel fuel) path) l b !! f = Some t ->
               b !! f = None ->
               exists i key c addr,
                 nth_error (pre ++ l) i = Some (key, c) /\
                 Str.HasPrefix key "@" = false /\
                 targetAt c (joinPath path key) addr f = Some (Path t)).
    { induction l as [|[key c] r IHl]; intros pre b Hf Hbf; [simpl in Hf; congruence|].
      simpl in Hf.
      destruct (collectChild (collectBindsFuel fuel) path b (key, c) !! f) as [t'|] eqn:E.
      - destruct (Str.HasPrefix key "@") eqn:Hk.
        { rewrite collectChild_other in E by auto. congruence. }
        destruct (normalizeToStringMap c) as [cm|] eqn:Hc.
        2:{ rewrite collectChild_other in E by auto. congruence. }
        rewrite (collectChild_map _ _ _ key c cm Hk Hc) in E.
        assert (t' = t) as ->.
        { rewrite (fold_collectChild_keeps (collectBindsFuel fuel) path f) with (t := t') in Hf.
          - congruence.
          - intros cm' p b' t'' Hb'. by apply collectBindsFuel_keeps.
          - by rewrite (collectChild_map _ _ _ key c cm Hk Hc). }
        destruct (IH _ _ _ _ E Hbf) as [addr Ha].
        exists (length pre), key, c, addr. split; [|split; [done|]].
        + rewrite nth_error_app2 by lia. by rewrite Nat.sub_diag.
        + by rewrite (targetAt_normalized c cm _ _ _ Hc).
      - destruct (IHl (pre ++ [(key, c)]) _ Hf E) as (i & key' & c' & addr & H1 & H2).
        exists i, key', c', addr. by rewrite <- app_assoc in H1. }
    destruct (Hfold m [] _ H E1) as (i & key & c & addr & Hi & Hk & Ha).
    exists (i :: addr). cbn [targetAt normalizeToStringMap]. simpl in Hi.
    by rewrite Eb, Hi, Hk.
Qed.

(** Along an address through string-keyed maps under plain keys, the
    registered path leads where the bind path leads in the declaring
    map. *)
Lemma targetAt_resolves (f : string) (addr : list nat) :
  forall (n : node) (path p : string),
    targetAt n path addr f = Some p ->
    plainAt n addr = true ->
    exists (declaring : smap) (bindPath q : string),
      nodeAt n addr = Some (VMap declaring) /\
      ownBind declaring = Some (f, bindPath) /\
      p = joinPath path q /\
      getWalk n (Str.SplitDot q) = getWalk (VMap declaring) (Str.SplitDot bindPath).
Proof.
  induction addr as [|i rest IH]; intros n path p Ht Hp.
  - destruct n as [| | | | |m| |]; try done. cbn [targetAt normalizeToStringMap] in Ht.
    destruct (ownBind m) as [[field bp]|] eqn:Eo; [|done].
    destruct (String.eqb_spec field f) as [->|]; [|done]. injection Ht as <-.
    by exists m, bp, bp.
  - destruct n as [| | | | |m| |]; try done.
    cbn [targetAt normalizeToStringMap] in Ht. cbn [plainAt] in Hp.
    destruct (isBoundaryPlugin m); [done|].
    destruct (nth_error m i) as [[key c]|] eqn:Ei; [|done].
    destruct (Str.HasPrefix key "@"); [done|].
    apply andb_prop in Hp as [Hp Hc]. apply andb_prop in Hp as [Hkey Hfirst].
    unfold plainKey in Hkey. apply andb_prop in Hkey as [Hkey Hdots].
    apply andb_prop in Hkey as [Hne Htrim].
    apply negb_true_iff, String.eqb_neq in Hne. apply String.eqb_eq in Htrim.
    destruct (IH c _ _ Ht Hc) as (declaring & bp & q & Hnode & Hown & Hpath & Hwalk).
    exists declaring, bp, (key ++ "." ++ q)%string.
    split; [by cbn [nodeAt childAt]; rewrite Ei|]. split; [done|].
    split; [by rewrite Hpath, joinPath_joinPath|].
    rewrite SplitDot_app, (SplitDot_plain key Hdots). cbn [app getWalk].
    rewrite Htrim. apply String.eqb_neq in Hne as ->.
    by rewrite (lookupKey_first m i key c Ei Hfirst).
Qed.

(** X23. The bind index points at the declaration.  The path registered
    for a field is the one of a map the traversal reaches that declares the
    field: the keys that lead to the map and the path of its bind, joined
    by dots.  When these keys are plain segments of string-keyed maps,
    [getAtPath] on the registered path finds what the bind path finds in
    the declaring map. *)
Theorem collectBinds_targets (template : smap) (field : string) (t : bindTarget) :
  collectBinds template "" ∅ !! field = Some t ->
  exists addr,
    targetAt (VMap template) "" addr field = Some (Path t) /\
    reachedAt (VMap template) addr = true /\
    declaresAt (VMap template) addr field = true /\
    (plainAt (VMap template) addr = true ->
     exists (declaring : smap) (bindPath : string),
       nodeAt (VMap template) addr = Some (VMap declaring) /\
       ownBind declaring = Some (field, bindPath) /\
       getAtPath template (Path t) = getAtPath declaring bindPath).
Proof.
  intros H. destruct (collectBindsFuel_target field _ _ _ _ _ H (lookup_empty _)) as [addr Ha].
  exists addr. split; [done|].
  assert (Hrd : forall (a : list nat) (n : node) (path p : string),
             targetAt n path a field = Some p ->
             reachedAt n a = true /\ declaresAt n a field = true).
  { induction a as [|i rest IH]; intros n path p Ht.
    - destruct (normalizeToStringMap n) as [m|] eqn:Em; [|by simpl in Ht; rewrite Em in Ht].
      simpl in Ht. rewrite Em in Ht. unfold declaresAt, declaresBind. simpl. rewrite Em.
      split; [done|]. destruct (ownBind m) as [[f' bp]|]; [|done].
      by destruct (String.eqb f' field).
    - destruct (normalizeToStringMap n) as [m|] eqn:Em; [|by simpl in Ht; rewrite Em in Ht].
      rewrite (targetAt_normalized n m _ _ _ Em) in Ht.
      rewrite (reachedAt_normalized n m _ Em), (declaresAt_normalized n m _ _ Em).
      rewrite reachedAt_cons, declaresAt_cons.
      cbn [targetAt normalizeToStringMap] in Ht.
      destruct (isBoundaryPlugin m); [done|].
      destruct (nth_error m i) as [[key c]|]; [|done]. cbn [fst snd].
      destruct (Str.HasPrefix key "@"); [done|].
      by destruct (IH c _ _ Ht) as [-> ->]. }
  destruct (Hrd addr _ _ _ Ha) as [Hr Hd]. split; [done|]. split; [done|].
  intros Hp. destruct (targetAt_resolves field addr _ _ _ Ha Hp)
    as (declaring & bp & q & Hnode & Hown & Hpath & Hwalk).
  exists declaring, bp. split; [done|]. split; [done|].
  unfold getAtPath. rewrite Hpath. unfold joinPath. by cbn [String.eqb].
Qed.

Lemma collectBinds_targets_witness :
  exists addr,
    targetAt (VMap sampleTemplate) "" addr "title" = Some "10.value" /\
    reachedAt (VMap sampleTemplate) addr = true.
Proof.
  destruct (collectBinds_targets sampleTemplate "title" {| Path := "10.value" |} eq_refl)
    as (addr & H1 & H2 & _).
  by exists addr.
Defined.

(** ** Writing at one path, reading at another *)

Lemma lookupKey_setKey_ne (k k' : string) (v : node) (m : smap) :
  k <> k' -> lookupKey k' (setKey k v m) = lookupKey k' m.
Proof.
  intros Hne. induction m as [|[k0 v0] r IH]; simpl.
  - by apply String.eqb_neq in Hne; rewrite String.eqb_sym, Hne.
  - destruct (String.eqb_spec k k0) as [->|Hk]; simpl.
    + assert (String.eqb k' k0 = false) as -> by (apply String.eqb_neq; congruence). done.
    + destruct (String.eqb k' k0); [done|exact IH].
Qed.

Lemma lookupIKey_setIKey_ne (k k' : ikey) (v : node) (m : imap) :
  k <> k' -> lookupIKey k' (setIKey k v m) = lookupIKey k' m.
Proof.
  intros Hne. assert (Hkk : ikey_eqb k' k = false).
  { destruct (ikey_eqb k' k) eqn:E; [|done]. apply ikey_eqb_eq in E. congruence. }
  induction m as [|[k0 v0] r IH]; simpl; [by rewrite Hkk|].
  destruct (ikey_eqb k k0) eqn:Hk; simpl.
  - apply ikey_eqb_eq in Hk. subst k0. by rewrite Hkk.
  - destruct (ikey_eqb k' k0); [done|exact IH].
Qed.

Lemma nth_error_setNth_ne (i j : nat) (v : node) (l : list node) :
  i <> j -> nth_error (setNth i v l) j = nth_error l j.
Proof.
  revert i j. induction l as [|x r IH]; intros [|i] [|j] Hne; simpl; try done.
  apply IH. lia.
Qed.

Lemma differ_neq (a b : string) : differ a b = true -> a <> b.
Proof.
  unfold differ. intros H ->. destruct (Str.Atoi b).
  - by rewrite Z.eqb_refl in H.
  - by rewrite String.eqb_refl in H.
Qed.

Lemma differ_index (a b : string) (len i j : nat) :
  differ a b = true -> listIndex a len = Some i -> listIndex b len = Some j -> i <> j.
Proof.
  unfold differ, listIndex.
  destruct (Str.Atoi a) as [x|]; [|done]. destruct (Str.Atoi b) as [y|]; [|done].
  intros Hd. apply negb_true_iff, Z.eqb_neq in Hd.
  destruct (x <? 0)%Z eqn:Ex; [done|]. destruct (Z.of_nat len <=? x)%Z; [done|].
  destruct (y <? 0)%Z eqn:Ey; [done|]. destruct (Z.of_nat len <=? y)%Z; [done|].
  simpl. intros [= <-] [= <-]. apply Z.ltb_ge in Ex, Ey. lia.
Qed.

Lemma getWalk_dropBlank (qs : list string) (n : node) :
  getWalk n qs = getWalk n (dropBlank qs).
Proof.
  induction qs as [|b qr IH]; [done|]. cbn [dropBlank].
  destruct (String.eqb (Str.TrimSpace b) "") eqn:E; [|done].
  cbn [getWalk]. by rewrite E.
Qed.

Lemma dropBlank_head (qs : list string) (b : string) (qr : list string) :
  dropBlank qs = b :: qr -> String.eqb (Str.TrimSpace b) "" = false.
Proof.
  induction qs as [|b' qr' IH]; [done|]. cbn [dropBlank].
  destruct (String.eqb (Str.TrimSpace b') "") eqn:E; [exact IH|]. by intros [= <- <-].
Qed.

(** A write along [ps] is not seen along a path that leaves [ps]. *)
Lemma setWalk_frame (ps : list string) :
  forall (qs : list string) (n : node) (v : node),
    apart ps qs = true ->
    getWalk (fst (setWalk n ps v)) qs = getWalk n qs.
Proof.
  induction ps as [|a pr IH]; intros qs n v H; [done|].
  cbn [apart] in H. cbn [setWalk].
  destruct (String.eqb (Str.TrimSpace a) "") eqn:Ea; [by apply IH|].
  rewrite (getWalk_dropBlank qs), (getWalk_dropBlank qs n).
  destruct (dropBlank qs) as [|b qr] eqn:Eq; [done|].
  pose proof (dropBlank_head _ _ _ Eq) as Eb.
  cbn [getWalk]. rewrite Eb.
  set (a' := Str.TrimSpace a) in *. set (b' := Str.TrimSpace b) in *.
  assert (Hcases : (differ a' b' = true) \/ (a' = b' /\ apart pr qr = true)).
  { apply orb_true_iff in H as [H|H]; [by left|].
    apply andb_prop in H as [H1 H2]. apply String.eqb_eq in H1. by right. }
  assert (Hpr : forall T (x y : T), apart pr qr = true ->
                  match pr with [] => x | _ => y end = y).
  { intros T x y Hap. by destruct pr. }
  destruct n as [| | | | |m|m|l]; try done.
  - destruct Hcases as [Hd|[Heq Hap]].
    + apply differ_neq in Hd.
      destruct (match pr with [] => true | _ => false end).
      * cbn [fst]. by rewrite lookupKey_setKey_ne.
      * destruct (lookupKey a' m) as [next|]; [|done].
        destruct (setWalk next pr v) as [next' ok]. cbn [fst].
        by rewrite lookupKey_setKey_ne.
    + rewrite (Hpr _ true false Hap). rewrite <- Heq.
      destruct (lookupKey a' m) as [next|] eqn:El; [|by cbn [fst]; rewrite El].
      pose proof (IH qr next v Hap) as Hn.
      destruct (setWalk next pr v) as [next' ok]. cbn [fst] in *.
      by rewrite lookupKey_setKey_eq.
  - destruct Hcases as [Hd|[Heq Hap]].
    + apply differ_neq in Hd.
      assert (Hk : KString a' <> KString b') by congruence.
      destruct (match pr with [] => true | _ => false end).
      * cbn [fst]. by rewrite lookupIKey_setIKey_ne.
      * destruct (lookupIKey (KString a') m) as [next|]; [|done].
        destruct (setWalk next pr v) as [next' ok]. cbn [fst].
        by rewrite lookupIKey_setIKey_ne.
    + rewrite (Hpr _ true false Hap). rewrite <- Heq.
      destruct (lookupIKey (KString a') m) as [next|] eqn:El; [|by cbn [fst]; rewrite El].
      pose proof (IH qr next v Hap) as Hn.
      destruct (setWalk next pr v) as [next' ok]. cbn [fst] in *.
      by rewrite lookupIKey_setIKey_eq.
  - destruct (listIndex a' (length l)) as [ia|] eqn:Eia; [|done].
    pose proof (listIndex_lt _ _ _ Eia) as Hlt.
    destruct Hcases as [Hd|[Heq Hap]].
    + assert (Hne : forall x, getWalk (VList (setNth ia x l)) (b :: qr)
                              = getWalk (VList l) (b :: qr)).
      { intros x. cbn [getWalk]. fold b'. rewrite Eb, length_setNth.
        destruct (listIndex b' (length l)) as [ib|] eqn:Eib; [|done].
        by rewrite (nth_error_setNth_ne ia ib) by (by eapply differ_index). }
      cbn [getWalk] in Hne. fold b' in Hne. rewrite Eb in Hne.
      destruct (match pr with [] => true | _ => false end); [apply Hne|].
      destruct (nth_error l ia) as [next|]; [|done].
      destruct (setWalk next pr v) as [next' ok]. apply Hne.
    + rewrite (Hpr _ true false Hap). rewrite <- Heq, Eia.
      destruct (nth_error l ia) as [next|] eqn:El; [|by cbn [fst]; rewrite Eia, El].
      pose proof (IH qr next v Hap) as Hn.
      destruct (setWalk next pr v) as [next' ok]. cbn [fst] in *.
      by rewrite length_setNth, Eia, nth_error_setNth.
Qed.

Lemma setAtPath_getAtPath_apart (root : smap) (p q : string) (v : node) :
  apart (Str.SplitDot p) (Str.SplitDot q) = true ->
  getAtPath (fst (setAtPath root p v)) q = getAtPath root q.
Proof.
  intros H. unfold setAtPath, getAtPath.
  pose proof (setWalk_frame _ (Str.SplitDot q) (VMap root) v H) as Hf.
  destruct (setWalk (VMap root) (Str.SplitDot p) v) as [n' ok] eqn:E.
  destruct (setWalk_VMap _ _ _ _ _ E) as [m' ->]. exact Hf.
Qed.

(** X24. A write does not disturb another path: when the path [q] leaves
    the path [p] at some segment (different keys, or different indices of a
    sequence), [getAtPath] at [q] gives after [setAtPath] at [p] what it
    gave before, whether the write succeeded or not. *)
Theorem setAtPath_frame (root : smap) (p q : string) (v : node) :
  apart (Str.SplitDot p) (Str.SplitDot q) = true ->
  getAtPath (fst (setAtPath root p v)) q = getAtPath root q.
Proof. apply setAtPath_getAtPath_apart. Qed.

Lemma setAtPath_frame_witness :
  getAtPath (fst (setAtPath sampleTemplate "10.value" (VString "A"))) "10.@type"
  = getAtPath sampleTemplate "10.@type".
Proof. apply (setAtPath_frame sampleTemplate "10.value" "10.@type" (VString "A")). reflexivity. Defined.

(** ** Filling an instance with a record *)

(** Fields whose paths leave the path [q] do not change what is read at
    [q]. *)
Lemma fillInstance_others (binds : gmap string bindTarget) (imageBinds : gset string)
    (q : string) (entries : list (string * string)) :
  (forall g vg tg, (g, vg) ∈ entries -> binds !! g = Some tg ->
                   apart (Str.SplitDot (Path tg)) (Str.SplitDot q) = true) ->
  forall instance,
    getAtPath (fillInstance binds imageBinds entries instance) q = getAtPath instance q.
Proof.
  unfold fillInstance. induction entries as [|[g vg] rest IH]; intros Hap instance; [done|].
  cbn [fold_left]. rewrite IH.
  - unfold fillField. cbn [fst snd]. destruct (binds !! g) as [tg|] eqn:Eg; [|done].
    destruct (_ && _); [done|]. apply setAtPath_getAtPath_apart.
    apply (Hap g vg tg); [apply elem_of_cons; by left|done].
  - intros g' vg' tg' Hin Hb'. apply (Hap g' vg' tg'); [apply elem_of_cons; by right|done].
Qed.

(** X25. Rendering a record into an instance, in whatever order the fields
    are visited: when the paths of the bound fields of the record leave one
    another, a field whose bind path resolves in the instance and ends in a
    segment that is not blank is read back at that path after the loop;
    only an empty value of an image bind leaves what the instance held. *)
Theorem fillInstance_renders (binds : gmap string bindTarget) (imageBinds : gset string)
    (fields : gmap string string) (entries : list (string * string)) (instance : smap)
    (f value seg : string) (t : bindTarget) :
  entries ≡ₚ map_to_list fields ->
  (forall g vg tg, g <> f -> fields !! g = Some vg -> binds !! g = Some tg ->
                   apart (Str.SplitDot (Path tg)) (Str.SplitDot (Path t)) = true) ->
  fields !! f = Some value ->
  binds !! f = Some t ->
  snd (getAtPath instance (Path t)) = true ->
  last (Str.SplitDot (Path t)) = Some seg ->
  Str.TrimSpace seg <> "" ->
  getAtPath (fillInstance binds imageBinds entries instance) (Path t) =
    if String.eqb value "" && bool_decide (f ∈ imageBinds)
    then getAtPath instance (Path t)
    else (VString value, true).
Proof.
  intros Hperm Hap Hf Hb Hok Hlast Hseg.
  assert (Hin : (f, value) ∈ entries) by (rewrite Hperm; by apply elem_of_map_to_list).
  assert (Hnd : NoDup entries.*1) by (rewrite Hperm; apply NoDup_fst_map_to_list).
  apply list_elem_of_split in Hin as (l1 & l2 & ->).
  assert (Hothers : forall l, l ⊆ l1 ++ l2 ->
             forall g vg tg, (g, vg) ∈ l -> binds !! g = Some tg ->
                             apart (Str.SplitDot (Path tg)) (Str.SplitDot (Path t)) = true).
  { intros l Hl g vg tg Hg Hbg. apply (Hap g vg tg); [|
      apply elem_of_map_to_list; rewrite <- Hperm |done].
    - intros ->. rewrite fmap_app, fmap_cons in Hnd. apply NoDup_app in Hnd as (_ & Hd & Hnd2).
      apply NoDup_cons in Hnd2 as [Hnot _]. apply Hl, elem_of_app in Hg as [Hg|Hg].
      + apply (Hd f); [|apply elem_of_cons; by left].
        apply list_elem_of_fmap. by exists (f, vg).
      + apply Hnot. apply list_elem_of_fmap. by exists (f, vg).
    - apply Hl, elem_of_app in Hg as [Hg|Hg]; apply elem_of_app; [by left|].
      right. apply elem_of_cons. by right. }
  unfold fillInstance. rewrite fold_left_app. cbn [fold_left].
  fold (fillInstance binds imageBinds l1 instance).
  set (inst1 := fillInstance binds imageBinds l1 instance).
  assert (H1 : getAtPath inst1 (Path t) = getAtPath instance (Path t)).
  { apply fillInstance_others. apply (Hothers l1). intros x Hx. apply elem_of_app. by left. }
  fold (fillInstance binds imageBinds l2 (fillField binds imageBinds inst1 (f, value))).
  rewrite fillInstance_others
    by (apply (Hothers l2); intros x Hx; apply elem_of_app; by right).
  unfold fillField. cbn [fst snd]. rewrite Hb.
  destruct (String.eqb value "" && bool_decide (f ∈ imageBinds)); [done|].
  destruct (getAtPath inst1 (Path t)) as [x ok] eqn:Hget.
  rewrite <- H1 in Hok. cbn [snd] in Hok. subst ok.
  pose proof (setAtPath_resolving _ _ _ (VString value) _ Hget Hlast Hseg) as Hset.
  unfold setAtPath, getAtPath in *.
  destruct (setWalk (VMap inst1) (Str.SplitDot (Path t)) (VString value)) as [n' ok] eqn:E.
  destruct (setWalk_VMap _ _ _ _ _ E) as [m' ->]. cbn [fst snd] in *. subst ok.
  by apply (setWalk_getWalk _ _ _ _ E).
Qed.

Lemma fillInstance_renders_witness :
  getAtPath
    (fillInstance (collectBinds sampleTemplate "" ∅) ∅
       (map_to_list (<["title" := "A"]> {[ "nested" := "7" ]}))
       (strippedInstance sampleTemplate))
    "10.value" = (VString "A", true).
Proof.
  apply (fillInstance_renders (collectBinds sampleTemplate "" ∅) ∅
           (<["title" := "A"]> {[ "nested" := "7" ]})
           (map_to_list (<["title" := "A"]> {[ "nested" := "7" ]}))
           (strippedInstance sampleTemplate) "title" "A" "value" {| Path := "10.value" |}).
  - reflexivity.
  - intros g vg tg Hg Hvg Htg. apply lookup_insert_Some in Hvg as [[<- _]|[_ Hvg]]; [done|].
    apply lookup_singleton_Some in Hvg as [<- _].
    vm_compute in Htg. injection Htg as <-. reflexivity.
  - reflexivity.
  - reflexivity.
  - reflexivity.
  - reflexivity.
  - discriminate.
Defined.

(** ** The first run *)

(** X26. The first run: on a store without records and without field rows
    of lost records, whose ids are not used up, seeding creates one record,
    and the default listing then returns exactly that record.  Its id is
    the one after the last id the store ever gave out, and it has one field
    for every bind: the rendering of the value the template holds at the
    bind path, or the empty string when the path does not resolve. *)
Theorem ensureSeed_then_list
    (Sprintf_v : node -> string)
    (runQuery : string -> DB -> option (list (list sqlValue)))
    (Float64ToInt64 : Z -> Z -> Z)
    (now : Z) (db : DB) (template : smap) (binds : gmap string bindTarget) (ct : string) :
  records db = ∅ ->
  noOrphans db ->
  (sequence db < maxInt64)%Z ->
  snd (ensureSeed Sprintf_v now db template binds ct) = None /\
  exists values : gmap string string,
    fetchRecords runQuery Float64ToInt64
      (fst (ensureSeed Sprintf_v now db template binds ct)) "" ct
    = Some [ {| ID := Z.max (sequence db) 0 + 1; Fields_ := values |} ] /\
    forall key,
      values !! key =
      (fun target : bindTarget =>
         if snd (getAtPath template (Path target))
         then Sprintf_v (fst (getAtPath template (Path target)))
         else "") <$> binds !! key.
Proof.
  intros Hempty Hno Hseq.
  assert (Hlast : lastID db = Z.max (sequence db) 0).
  { unfold lastID. by rewrite Hempty. }
  destruct (ensureSeed_creates Sprintf_v now db template binds ct)
    as (db' & Hrun & _ & Hrec & Hrows & _ & _).
  { by apply countRecords_empty. }
  { rewrite Hlast. unfold maxInt64 in *. lia. }
  { intros key _. by rewrite (noOrphans_next db Hno), lookup_empty. }
  rewrite (noOrphans_next db Hno), (right_id_L ∅ (∪)) in Hrows.
  rewrite Hlast in Hrec, Hrows. rewrite Hrun. cbn [fst snd]. split; [done|].
  exists (defaultValuesFromTemplate Sprintf_v template binds).
  split; [|apply defaultValuesFromTemplate_lookup].
  unfold fetchRecords, fetchRecordIDs, selectIDs. cbn [Str.TrimSpace String.eqb].
  assert (Hrows' : (if String.eqb (Str.TrimSpace ct) "" then records db'
                    else filter (fun kv => rtype (snd kv) = ct) (records db'))
                   = {[ (Z.max (sequence db) 0 + 1)%Z :=
                          {| rtype := ct; created_at := now; updated_at := now |} ]}).
  { rewrite Hrec, Hempty, insert_empty. destruct (String.eqb _ _); [done|].
    by rewrite map_filter_singleton_True. }
  rewrite Hrows', map_to_list_singleton. cbn. unfold fetchRecordFields. by rewrite Hrows.
Qed.

Lemma ensureSeed_then_list_witness :
  exists values : gmap string string,
    fetchRecords (fun _ _ => None) (fun m _ => m)
      (fst (ensureSeed showString 5 emptyDB sampleTemplate (collectBinds sampleTemplate "" ∅)
              "article")) "" "article"
    = Some [ {| ID := 1; Fields_ := values |} ] /\
    values !! "title" = Some "Hello World" /\
    values !! "nested" = Some "".
Proof.
  destruct (ensureSeed_then_list showString (fun _ _ => None) (fun m _ => m) 5 emptyDB
              sampleTemplate (collectBinds sampleTemplate "" ∅) "article"
              eq_refl noOrphans_emptyDB eq_refl) as (_ & values & Hlist & Hvalues).
  exists values. split; [exact Hlist|]. rewrite !Hvalues. split; vm_compute; reflexivity.
Defined.

(** ** The list of instances *)

Lemma FormatInt_inj (i j : Z) :
  (- 2 ^ 63 <= i <= 2 ^ 63 - 1)%Z -> (- 2 ^ 63 <= j <= 2 ^ 63 - 1)%Z ->
  FormatInt i = FormatInt j -> i = j.
Proof.
  intros Hi Hj H. rewrite <- (parseRecordID_FormatInt_id i Hi), H.
  by apply parseRecordID_FormatInt_id.
Qed.

Lemma FormatInt_not_type (i : Z) :
  (- 2 ^ 63 <= i <= 2 ^ 63 - 1)%Z -> FormatInt i <> "@type".
Proof.
  intros Hi H. pose proof (parseRecordID_FormatInt_id i Hi) as Hp.
  rewrite H in Hp. by subst i.
Qed.

Lemma length_setKey_new (k : string) (v : node) (m : smap) :
  lookupKey k m = None -> length (setKey k v m) = S (length m).
Proof.
  induction m as [|[k' v'] r IH]; [done|]. simpl.
  destruct (String.eqb k k'); [done|]. intros H. simpl. by rewrite IH.
Qed.

Section BuildListProperties.

Variable applyInlineAttributes :
  smap -> gmap string bindTarget -> record -> option inlineOptions -> smap.
Variable rangeFields : gmap string string -> list (string * string).
Variable template : smap.
Variable binds : gmap string bindTarget.
Variable imageBinds : gset string.
Variable editable : bool.
Variable route : string.
Variable recordParam : string.
Variable inline : option inlineOptions.

Lemma buildListFrom_spec (records : list record) :
  forall (i : nat) (list : smap),
    ((Z.of_nat i + Z.of_nat (length records) + 1) * 10 <= 2 ^ 63 - 1)%Z ->
    (forall j, (i <= j < i + length records)%nat ->
               lookupKey (FormatInt ((Z.of_nat j + 1) * 10)) list = None) ->
    let out := buildListFrom applyInlineAttributes rangeFields i template binds records
                 imageBinds editable route recordParam inline list in
    (forall k, (forall j, (i <= j < i + length records)%nat ->
                          k <> FormatInt ((Z.of_nat j + 1) * 10)) ->
               lookupKey k out = lookupKey k list) /\
    (forall j rec, nth_error records j = Some rec ->
       lookupKey (FormatInt ((Z.of_nat (i + j) + 1) * 10)) out
       = Some (VMap (buildInstance applyInlineAttributes rangeFields template binds imageBinds
                       editable route recordParam inline rec))) /\
    length out = (length list + length records)%nat.
Proof.
  induction records as [|rec rest IH]; intros i list Hmax Hfree; cbv zeta.
  - cbn [buildListFrom length]. split; [done|]. split; [by intros []|lia].
  - cbn [buildListFrom]. cbn [length] in Hmax.
    set (key := FormatInt ((Z.of_nat i + 1) * 10)).
    set (inst := buildInstance _ _ _ _ _ _ _ _ _ rec).
    assert (Hkey : forall j, (i < j)%nat -> (j <= i + length rest)%nat ->
                             FormatInt ((Z.of_nat j + 1) * 10) <> key).
    { intros j Hj Hj' E. apply FormatInt_inj in E; lia. }
    destruct (IH (S i) (setKey key (VMap inst) list)) as (Hother & Hrec & Hlen).
    { lia. }
    { intros j Hj. destruct (String.eqb_spec key (FormatInt ((Z.of_nat j + 1) * 10))) as [E|E].
      - symmetry in E. apply FormatInt_inj in E; lia.
      - rewrite lookupKey_setKey_ne by done. apply Hfree. cbn [length]. lia. }
    cbv zeta in Hother, Hrec, Hlen. split; [|split].
    + intros k Hk. rewrite Hother.
      * apply lookupKey_setKey_ne. intros E. apply (Hk i); [cbn [length]; lia|done].
      * intros j Hj. apply Hk. cbn [length]. lia.
    + intros [|j] rec' Hj.
      * injection Hj as <-. rewrite Nat.add_0_r. fold key. rewrite Hother.
        -- apply lookupKey_setKey_eq.
        -- intros j Hj E. symmetry in E. apply (Hkey j); [lia|lia|done].
      * cbn [nth_error] in Hj. rewrite <- (Hrec j rec' Hj). do 3 f_equal. lia.
    + rewrite Hlen, length_setKey_new; [cbn [length]; lia|]. apply Hfree. cbn [length]. lia.
Qed.

(** X27. [buildList] returns one instance for each record, under the keys
    "10", "20", ... in the order of the records, beside the [@type] of a
    tree and nothing else; the instance of a record is made from the
    template and that record alone. *)
Theorem buildList_keys (records : list record) :
  ((Z.of_nat (length records) + 1) * 10 <= 2 ^ 63 - 1)%Z ->
  let out := buildList applyInlineAttributes rangeFields template binds records imageBinds
               editable route recordParam inline in
  lookupKey "@type" out = Some (VString "<TREE>") /\
  (forall j rec, nth_error records j = Some rec ->
     lookupKey (FormatInt ((Z.of_nat j + 1) * 10)) out
     = Some (VMap (buildInstance applyInlineAttributes rangeFields template binds imageBinds
                     editable route recordParam inline rec))) /\
  length out = S (length records).
Proof.
  intros Hmax. cbv zeta. unfold buildList.
  destruct (buildListFrom_spec records O [("@type", VString "<TREE>")])
    as (Hother & Hrec & Hlen).
  { lia. }
  { intros j Hj. cbn [lookupKey].
    destruct (String.eqb_spec (FormatInt ((Z.of_nat j + 1) * 10)) "@type") as [E|E]; [|done].
    apply FormatInt_not_type in E; [done|lia]. }
  cbv zeta in Hother, Hrec, Hlen. split; [|split].
  - rewrite Hother; [done|]. intros j Hj E. symmetry in E.
    apply FormatInt_not_type in E; [done|cbn [length] in Hj; lia].
  - exact Hrec.
  - by rewrite Hlen.
Qed.

End BuildListProperties.

Lemma buildList_keys_witness :
  lookupKey "20"
    (buildList (fun instance _ _ _ => instance) map_to_list sampleTemplate
       (collectBinds sampleTemplate "" ∅)
       [ {| ID := 1; Fields_ := ∅ |}; {| ID := 2; Fields_ := {[ "title" := "B" ]} |} ]
       ∅ false "" "" None)
  = Some (VMap (buildInstance (fun instance _ _ _ => instance) map_to_list sampleTemplate
                  (collectBinds sampleTemplate "" ∅) ∅ false "" "" None
                  {| ID := 2; Fields_ := {[ "title" := "B" ]} |})).
Proof.
  refine (proj1 (proj2 (buildList_keys (fun instance _ _ _ => instance) map_to_list
                          sampleTemplate (collectBinds sampleTemplate "" ∅) ∅ false "" "" None
                          [ {| ID := 1; Fields_ := ∅ |};
                            {| ID := 2; Fields_ := {[ "title" := "B" ]} |} ] _))
            1%nat _ eq_refl).
  cbn [length]. lia.
Defined.

(** ** The edit link *)

Lemma EscapeString_safe (s : string) :
  allChars (fun c => negb (Ascii.eqb c "<") && negb (Ascii.eqb c ">")
                     && negb (Ascii.eqb c "'") && negb (Ascii.eqb c (ascii_of_nat 34)))
    (EscapeString s) = true.
Proof.
  induction s as [|c r IH]; [done|]. cbn [EscapeString].
  destruct (Ascii.eqb c "&"); [exact IH|].
  destruct (Ascii.eqb c "'") eqn:E1; [exact IH|].
  destruct (Ascii.eqb c "<") eqn:E2; [exact IH|].
  destruct (Ascii.eqb c ">") eqn:E3; [exact IH|].
  destruct (Ascii.eqb c (ascii_of_nat 34)) eqn:E4; [exact IH|].
  change (String c "" ++ EscapeString r)%string with (String c (EscapeString r)).
  cbn [allChars]. by rewrite E1, E2, E3, E4, IH.
Qed.

(** X28. [addEditLink] adds the key [_edit] and touches nothing else; it
    does nothing for a blank route or when the instance has an [_edit]
    already, so a second call changes nothing.  The link it writes holds
    the escaped address, in which no quote and no angle bracket is left. *)
Theorem addEditLink_spec (instance : smap) (route recordParam : string) (id : Z) :
  (forall key, key <> "_edit" ->
     lookupKey key (addEditLink instance route recordParam id) = lookupKey key instance) /\
  (Str.TrimSpace route = "" -> addEditLink instance route recordParam id = instance) /\
  (is_Some (lookupKey "_edit" instance) ->
   addEditLink instance route recordParam id = instance) /\
  (forall route' recordParam' id',
     Str.TrimSpace route <> "" ->
     addEditLink (addEditLink instance route recordParam id) route' recordParam' id'
     = addEditLink instance route recordParam id) /\
  (Str.TrimSpace route <> "" -> lookupKey "_edit" instance = None ->
   exists href,
     lookupKey "_edit" (addEditLink instance route recordParam id) = Some (editLink href) /\
     href = (Str.TrimSpace route
             ++ (if Str.Contains (Str.TrimSpace route) "?" then "&" else "?")
             ++ (if String.eqb (Str.TrimSpace recordParam) "" then "id"
                 else Str.TrimSpace recordParam)
             ++ "=" ++ FormatInt id)%string /\
     allChars (fun c => negb (Ascii.eqb c "<") && negb (Ascii.eqb c ">")
                        && negb (Ascii.eqb c "'") && negb (Ascii.eqb c (ascii_of_nat 34)))
       (EscapeString href) = true).
Proof.
  unfold addEditLink. split; [|split; [|split; [|split]]].
  - intros key Hkey. destruct (String.eqb _ ""); [done|].
    destruct (lookupKey "_edit" instance); [done|].
    apply lookupKey_setKey_ne. congruence.
  - by intros ->.
  - intros [x ->]. by destruct (String.eqb _ "").
  - intros route' recordParam' id' Hr. apply String.eqb_neq in Hr. rewrite Hr.
    destruct (String.eqb (Str.TrimSpace route') ""); [done|].
    destruct (lookupKey "_edit" instance) as [x|] eqn:E; [by rewrite E|].
    by rewrite lookupKey_setKey_eq.
  - intros Hr He. apply String.eqb_neq in Hr. rewrite Hr, He.
    eexists. split; [apply lookupKey_setKey_eq|]. split; [|apply EscapeString_safe].
    by destruct (Str.Contains _ "?").
Qed.

(** ** The form of the list editor *)





(** ** The columns of the list editor *)

#[local] Instance stringLe_total : Total stringLe.
Proof. intros a b. apply String.leb_total. Qed.

Lemma resolveListFieldIDs_loop (listBinds : gset string) (fieldDefs : list cmsField) :
  forall (ids : list string) (remaining : gset string),
    fold_left
      (fun (acc : list string * gset string) field =>
         let bindKey := fieldKey field in
         if bool_decide (bindKey ∈ listBinds)
         then (fst acc ++ [bindKey], snd acc ∖ {[ bindKey ]})
         else acc)
      fieldDefs (ids, remaining)
    = (ids ++ filter (fun k => k ∈ listBinds) (fieldKey <$> fieldDefs),
       remaining ∖ (list_to_set (filter (fun k => k ∈ listBinds) (fieldKey <$> fieldDefs)))).
Proof.
  induction fieldDefs as [|field rest IH]; intros ids remaining.
  - cbn. rewrite app_nil_r. f_equal. by rewrite difference_empty_L.
  - cbn [fold_left]. cbv zeta. rewrite fmap_cons. case_bool_decide as Hin; cbn [fst snd].
    + rewrite IH, filter_cons_True by done. rewrite <- app_assoc. f_equal.
      by rewrite list_to_set_cons, difference_difference_l_L.
    + rewrite IH, filter_cons_False by done. done.
Qed.

(** X30. The columns of the list editor.  Without list binds they are the
    keys of all fields.  Otherwise they are exactly the list binds: first
    the fields that are list binds, in the order of the fields, then the
    list binds that are no field of the form, each once and in the order of
    [sort.Strings]. *)
Theorem resolveListFieldIDs_columns (fieldDefs : list cmsField) (listBinds : gset string) :
  (listBinds = ∅ -> resolveListFieldIDs fieldDefs listBinds = fieldKey <$> fieldDefs) /\
  (listBinds <> ∅ ->
   exists extra,
     resolveListFieldIDs fieldDefs listBinds
       = filter (fun k => k ∈ listBinds) (fieldKey <$> fieldDefs) ++ extra /\
     Sorted stringLe extra /\
     NoDup extra /\
     (forall k, k ∈ extra <-> k ∈ listBinds /\ k ∉ fieldKey <$> fieldDefs) /\
     (forall k, k ∈ resolveListFieldIDs fieldDefs listBinds <-> k ∈ listBinds)).
Proof.
  unfold resolveListFieldIDs. split.
  - intros ->. rewrite size_empty. cbn [Nat.eqb].
    assert (Hgen : forall acc, fold_left (fun ids field => ids ++ [fieldKey field]) fieldDefs acc
                               = acc ++ (fieldKey <$> fieldDefs)).
    { induction fieldDefs as [|f r IH]; intros acc; [by rewrite app_nil_r|].
      cbn [fold_left]. rewrite IH, fmap_cons. by rewrite <- app_assoc. }
    by rewrite Hgen.
  - intros Hne. assert (size listBinds <> O) as Hs by (by intros ?%size_empty_inv%leibniz_equiv).
    apply Nat.eqb_neq in Hs as ->.
    rewrite resolveListFieldIDs_loop. cbn [app].
    set (kept := filter (fun k => k ∈ listBinds) (fieldKey <$> fieldDefs)).
    set (remaining := listBinds ∖ list_to_set kept).
    assert (Hrem : forall k, k ∈ remaining <-> k ∈ listBinds /\ k ∉ fieldKey <$> fieldDefs).
    { intros k. subst remaining kept. rewrite elem_of_difference, elem_of_list_to_set.
      rewrite list_elem_of_filter. tauto. }
    assert (Hkept : forall k, k ∈ kept <-> k ∈ listBinds /\ k ∈ fieldKey <$> fieldDefs).
    { intros k. subst kept. by rewrite list_elem_of_filter. }
    destruct (0 <? size remaining)%nat eqn:E.
    + exists (merge_sort stringLe (elements remaining)). split; [done|].
      split; [apply Sorted_merge_sort, _|].
      assert (Hperm : merge_sort stringLe (elements remaining) ≡ₚ elements remaining)
        by apply merge_sort_Permutation.
      split; [rewrite Hperm; apply NoDup_elements|].
      split.
      * intros k. rewrite Hperm, elem_of_elements. apply Hrem.
      * intros k. rewrite elem_of_app, Hperm, elem_of_elements, Hrem, Hkept.
        destruct (decide (k ∈ fieldKey <$> fieldDefs)); tauto.
    + apply Nat.ltb_ge in E. assert (size remaining = O) as E' by lia.
      apply size_empty_inv, leibniz_equiv in E'.
      exists []. rewrite app_nil_r. split; [done|]. split; [constructor|].
      split; [constructor|]. split.
      * intros k. rewrite <- Hrem, E'. split; [by intros ?%elem_of_nil|by intros ?%elem_of_empty].
      * intros k. rewrite Hkept. split; [tauto|]. intros Hk. split; [done|].
        destruct (decide (k ∈ fieldKey <$> fieldDefs)) as [|Hn]; [done|].
        assert (k ∈ remaining) as Hr by (by apply Hrem). rewrite E' in Hr.
        by apply elem_of_empty in Hr.
Qed.

Lemma resolveListFieldIDs_columns_witness :
  resolveListFieldIDs
    [ {| Name := "b"; Label := ""; Type_ := ""; Bind := "body"; Path_ := ""; Order := 0 |};
      {| Name := "title"; Label := ""; Type_ := ""; Bind := ""; Path_ := ""; Order := 0 |} ] ∅
  = ["body"; "title"].
Proof.
  apply (proj1 (resolveListFieldIDs_columns
                  [ {| Name := "b"; Label := ""; Type_ := ""; Bind := "body"; Path_ := "";
                       Order := 0 |};
                    {| Name := "title"; Label := ""; Type_ := ""; Bind := ""; Path_ := "";
                       Order := 0 |} ] ∅)).
  reflexivity.
Defined.

(** ** The fields of the editor forms *)

Lemma ltb_false_leb (a b : string) : String.ltb b a = false <-> String.leb a b = true.
Proof.
  unfold String.ltb, String.leb. rewrite (String.compare_antisym a b).
  destruct (String.compare b a); simpl; split; try done.
Qed.

#[local] Instance notAfter_lessByName_total : Total (notAfter lessByName).
Proof.
  intros a b. unfold notAfter, lessByName. rewrite !ltb_false_leb. apply String.leb_total.
Qed.

#[local] Instance notAfter_lessByOrder_total : Total (notAfter lessByOrder).
Proof.
  intros a b. unfold notAfter, lessByOrder. cbv zeta.
  set (oa := if Z.eqb (Order a) 0 then (2 ^ 30)%Z else Order a).
  set (ob := if Z.eqb (Order b) 0 then (2 ^ 30)%Z else Order b).
  rewrite (Z.eqb_sym ob oa).
  destruct (Z.eqb_spec oa ob) as [E|E].
  - rewrite !ltb_false_leb. apply String.leb_total.
  - destruct (Z.ltb_spec ob oa); destruct (Z.ltb_spec oa ob); auto; lia.
Qed.

Lemma lessByOrder_unordered (a b : cmsField) :
  Order a = 0%Z -> Order b = 0%Z -> lessByOrder a b = lessByName a b.
Proof. unfold lessByOrder, lessByName. by intros -> ->. Qed.

Lemma Sorted_notAfter_unordered (l : list cmsField) :
  Forall (fun field => Order field = 0%Z) l ->
  Sorted (notAfter lessByName) l -> Sorted (notAfter lessByOrder) l.
Proof.
  intros Hall Hs. induction Hs as [|x l Hs IH Hhd]; [constructor|].
  apply Forall_cons in Hall as [Hx Hl]. constructor; [by apply IH|].
  destruct Hhd as [|y l' Hxy]; constructor.
  apply Forall_cons in Hl as [Hy _]. unfold notAfter in *.
  by rewrite lessByOrder_unordered.
Qed.

Section EditorFieldsProperties.

Variable rangeSchema : gmap string FieldDef -> list (string * FieldDef).
Variable rangeBinds : gmap string bindTarget -> list (string * bindTarget).
Hypothesis rangeSchema_perm : forall m, rangeSchema m ≡ₚ map_to_list m.
Variable binds : gmap string bindTarget.

(** The loop of [collectCMSFields] over the schema. *)
Lemma collectCMSFields_loop (entries : list (string * FieldDef)) :
  forall acc : list cmsField,
    let out :=
      fold_left
        (fun out (entry : string * FieldDef) =>
           let name := fst entry in
           let def := snd entry in
           let bind := fieldBind rangeBinds binds name def in
           match binds !! bind with
           | None => out
           | Some _ =>
               let label := Str.TrimSpace (DefLabel def) in
               let label := if String.eqb label "" then bind else label in
               out ++ [ {| Name := name; Label := label; Type_ := Str.TrimSpace (DefType def);
                           Bind := bind; Path_ := DefPath def; Order := DefOrder def |} ]
           end)
        entries acc in
    exists more,
      out = acc ++ more /\
      Forall (fun field =>
                is_Some (binds !! Bind field) /\
                exists def, (Name field, def) ∈ entries /\
                            Bind field = fieldBind rangeBinds binds (Name field) def) more /\
      Name <$> more `sublist_of` fst <$> entries.
Proof.
  induction entries as [|[name def] rest IH]; intros acc; cbv zeta.
  - exists []. rewrite app_nil_r. by repeat split.
  - cbn [fold_left fst snd].
    assert (Hrest : forall field,
               (exists def', (Name field, def') ∈ rest /\
                             Bind field = fieldBind rangeBinds binds (Name field) def') ->
               exists def', (Name field, def') ∈ (name, def) :: rest /\
                            Bind field = fieldBind rangeBinds binds (Name field) def').
    { intros field (def' & Hin & Hb). exists def'. split; [|done]. apply elem_of_cons. by right. }
    destruct (binds !! fieldBind rangeBinds binds name def) as [t|] eqn:Eb.
    + destruct (IH (acc ++ [ {| Name := name;
                                 Label := (if String.eqb (Str.TrimSpace (DefLabel def)) ""
                                           then fieldBind rangeBinds binds name def
                                           else Str.TrimSpace (DefLabel def));
                                 Type_ := Str.TrimSpace (DefType def);
                                 Bind := fieldBind rangeBinds binds name def;
                                 Path_ := DefPath def; Order := DefOrder def |} ]))
        as (more & Hout & Hall & Hsub).
      cbv zeta in Hout. rewrite Hout. eexists (_ :: more). rewrite <- app_assoc.
      split; [done|]. split.
      * constructor.
        -- cbn [Bind Name]. split; [by rewrite Eb|]. exists def. split; [|done].
           apply elem_of_cons. by left.
        -- eapply Forall_impl; [exact Hall|]. intros field [H1 H2]. split; [done|].
           by apply Hrest.
      * rewrite !fmap_cons. cbn [Name fst]. by apply sublist_skip.
    + destruct (IH acc) as (more & Hout & Hall & Hsub). cbv zeta in Hout.
      exists more. split; [done|]. split.
      * eapply Forall_impl; [exact Hall|]. intros field [H1 H2]. split; [done|].
        by apply Hrest.
      * rewrite fmap_cons. by apply sublist_cons.
Qed.

(** X12. The fields of the editor forms.  Every field [collectCMSFields]
    returns is bound in the template, and no two have the same name; they
    are sorted by their order, a field without one last, and then by name.
    With a schema each comes from a field of the schema, under its
    resolved bind; without one there is exactly one text field for each
    bind.  The image binds are binds of the template as well. *)
Theorem collectCMSFields_bound (schema legacy : gmap string FieldDef) :
  let out := collectCMSFields rangeSchema rangeBinds schema legacy binds in
  (forall field, field ∈ out -> is_Some (binds !! Bind field)) /\
  NoDup (Name <$> out) /\
  Sorted (notAfter lessByOrder) out /\
  (resolveSchema schema legacy <> ∅ ->
   forall field, field ∈ out ->
     exists def, resolveSchema schema legacy !! Name field = Some def /\
                 Bind field = fieldBind rangeBinds binds (Name field) def) /\
  (resolveSchema schema legacy = ∅ ->
   (forall key, key ∈ Name <$> out <-> is_Some (binds !! key)) /\
   Forall (fun field => Bind field = Name field /\ Type_ field = "text" /\
                        Some (Path_ field) = Path <$> binds !! Name field) out) /\
  (forall key, key ∈ collectImageBinds rangeSchema rangeBinds schema legacy binds ->
               is_Some (binds !! key)).
Proof.
  cbv zeta. unfold collectCMSFields. cbv zeta.
  set (sch := resolveSchema schema legacy).
  assert (Himg : forall key, key ∈ collectImageBinds rangeSchema rangeBinds schema legacy binds ->
                             is_Some (binds !! key)).
  { unfold collectImageBinds. fold sch. destruct (size sch =? 0)%nat.
    { intros key Hk. by apply elem_of_empty in Hk. }
    assert (Hgen : forall (l : list (string * FieldDef)) (acc : gset string),
               (forall key, key ∈ acc -> is_Some (binds !! key)) ->
               forall key,
                 key ∈ fold_left
                   (fun (imageBinds : gset string) (entry : string * FieldDef) =>
                      let name := fst entry in
                      let def := snd entry in
                      if negb (String.eqb (Str.ToLower (Str.TrimSpace (DefType def))) "image")
                      then imageBinds
                      else
                        let bind := fieldBind rangeBinds binds name def in
                        match binds !! bind with
                        | Some _ => {[ bind ]} ∪ imageBinds
                        | None => imageBinds
                        end) l acc ->
                 is_Some (binds !! key)).
    { induction l as [|[name def] r IH]; intros acc Hacc key; [apply Hacc|].
      cbn [fold_left fst snd]. apply IH. cbv zeta.
      destruct (negb _); [exact Hacc|].
      destruct (binds !! fieldBind rangeBinds binds name def) eqn:Eb; [|exact Hacc].
      intros k Hk. apply elem_of_union in Hk as [Hk|Hk]; [|by apply Hacc].
      apply elem_of_singleton in Hk. subst k. by rewrite Eb. }
    apply Hgen. intros key Hk. by apply elem_of_empty in Hk. }
  destruct (0 <? size sch)%nat eqn:Es.
  - assert (Hne : sch <> ∅).
    { intros E. rewrite E, map_size_empty in Es. discriminate. }
    destruct (collectCMSFields_loop (rangeSchema sch) []) as (more & Hout & Hall & Hsub).
    cbv zeta in Hout. rewrite Hout. cbn [app].
    assert (Hndm : NoDup (Name <$> more)).
    { eapply sublist_NoDup; [|exact Hsub]. rewrite rangeSchema_perm.
      apply NoDup_fst_map_to_list. }
    assert (Hsorted : forall less (Htot : Total (notAfter less)),
               (forall field, field ∈ SliceStable less more -> is_Some (binds !! Bind field)) /\
               NoDup (Name <$> SliceStable less more) /\
               Sorted (notAfter less) (SliceStable less more) /\
               (forall field, field ∈ SliceStable less more ->
                  exists def, sch !! Name field = Some def /\
                              Bind field = fieldBind rangeBinds binds (Name field) def)).
    { intros less Htot. unfold SliceStable.
      assert (Hperm : merge_sort (notAfter less) more ≡ₚ more) by apply merge_sort_Permutation.
      rewrite Forall_forall in Hall. split; [|split; [|split]].
      - intros field Hin. rewrite Hperm in Hin. by apply Hall.
      - by rewrite Hperm.
      - by apply Sorted_merge_sort.
      - intros field Hin. rewrite Hperm in Hin.
        destruct (Hall _ Hin) as [_ (def & Hdef & Hb)]. exists def. split; [|done].
        apply elem_of_map_to_list. by rewrite <- rangeSchema_perm. }
    destruct (existsb (fun field => negb (Z.eqb (Order field) 0)) more) eqn:Eo.
    + destruct (Hsorted lessByOrder _) as (H1 & H2 & H3 & H4).
      split; [done|]. split; [done|]. split; [done|]. split; [done|]. split; [done|done].
    + destruct (Hsorted lessByName _) as (H1 & H2 & H3 & H4).
      split; [done|]. split; [done|]. split.
      * apply Sorted_notAfter_unordered; [|done].
        apply Forall_forall. intros field Hin. unfold SliceStable in Hin.
        rewrite merge_sort_Permutation in Hin.
        destruct (Z.eqb_spec (Order field) 0) as [E|E]; [done|].
        assert (existsb (fun field => negb (Z.eqb (Order field) 0)) more = true) as Hex.
        { apply existsb_exists. exists field. split; [by apply list_elem_of_In|].
          by apply negb_true_iff, Z.eqb_neq. }
        congruence.
      * split; [done|]. split; [done|done].
  - assert (Hempty : sch = ∅).
    { apply Nat.ltb_ge in Es. apply map_size_empty_inv. lia. }
    set (keys := merge_sort stringLe (fst <$> map_to_list binds)).
    assert (Hperm : keys ≡ₚ fst <$> map_to_list binds) by apply merge_sort_Permutation.
    assert (Hkeys : forall key, key ∈ keys <-> is_Some (binds !! key)).
    { intros key. rewrite Hperm, list_elem_of_fmap. split.
      - intros [[k t] [-> Hin]]. apply elem_of_map_to_list in Hin. by eexists.
      - intros [t Ht]. exists (key, t). split; [done|]. by apply elem_of_map_to_list. }
    assert (Hnames : forall l : list string,
               Name <$> ((fun key =>
                            {| Name := key; Label := key; Type_ := "text"; Bind := key;
                               Path_ := default "" (Path <$> binds !! key); Order := 0 |})
                           <$> l) = l).
    { induction l as [|k l IH]; [done|]. rewrite !fmap_cons. cbn [Name]. by rewrite IH. }
    split; [|split; [|split; [|split; [|split]]]].
    + intros field Hin. apply list_elem_of_fmap in Hin as (key & -> & Hk). cbn [Bind].
      by apply Hkeys.
    + rewrite Hnames, Hperm. apply NoDup_fst_map_to_list.
    + apply Sorted_notAfter_unordered.
      * apply Forall_forall. intros field Hin.
        by apply list_elem_of_fmap in Hin as (key & -> & Hk).
      * pose proof (Sorted_merge_sort stringLe (fst <$> map_to_list binds)) as Hs.
        fold keys in Hs. clear Hperm Hkeys. induction Hs as [|k l Hs IH Hhd]; [constructor|].
        rewrite fmap_cons. constructor; [exact IH|].
        destruct Hhd as [|k' l' Hkk]; [constructor|]. rewrite fmap_cons. constructor.
        unfold notAfter, lessByName. cbn [Name]. by apply ltb_false_leb.
    + by intros Hne.
    + intros _. split.
      * intros key. rewrite Hnames. apply Hkeys.
      * apply Forall_forall. intros field Hin.
        apply list_elem_of_fmap in Hin as (key & -> & Hk). cbn [Bind Name Type_ Path_].
        split; [done|]. split; [done|]. apply Hkeys in Hk as [t ->]. done.
    + exact Himg.
Qed.

End EditorFieldsProperties.

Lemma collectCMSFields_bound_witness :
  Forall (fun field => is_Some (collectBinds sampleTemplate "" ∅ !! Bind field))
    (collectCMSFields map_to_list map_to_list
       {[ "headline" := {| DefType := "text"; DefBind := "title"; DefPath := "";
                           DefLabel := ""; DefOrder := 0 |} ]} ∅
       (collectBinds sampleTemplate "" ∅)).
Proof.
  apply Forall_forall.
  exact (proj1 (collectCMSFields_bound map_to_list map_to_list (fun m => reflexivity _)
                  (collectBinds sampleTemplate "" ∅)
                  {[ "headline" := {| DefType := "text"; DefBind := "title"; DefPath := "";
                                      DefLabel := ""; DefOrder := 0 |} ]} ∅)).
Defined.
